(** * A shallow embedding of the vuex store core

    The development follows the layout of the sources:
    - [Js]                the fragment of the JavaScript runtime the code relies on
                          (values, truthiness, property keys, promises);
    - [Eff]               the effect monad: state, exceptions and an event log;
    - [Util]              the helpers imported from [./util];
    - [ModuleNode]        [src/module/module.js];
    - [ModuleCollection]  [src/module/module-collection.js];
    - [Store]             [src/store.js], with handlers that compute on the
                          state tree and subscribers that only observe;
    - [LiveStore]         [commit] and [dispatch] of [src/store.js] with
                          callbacks that may throw and act on the store.

    [process.env.NODE_ENV] is a build-time constant; it is the section variable
    [production] of every part that reads it, so that each statement covers
    both the production and the non-production build. *)

From Stdlib Require Import ZArith NArith Ascii String List Bool Lia.
From stdpp Require Import base option list gmap strings.

Set Warnings "-register-all".
Open Scope string_scope.
Open Scope list_scope.

(* ===================================================================== *)
(** ** The JavaScript runtime fragment                                    *)
(* ===================================================================== *)

Module Js.

(** Plain data values.  Functions are never data here: callbacks, handlers
    and providers are modelled by identifiers of their own. *)
Inductive value : Type :=
| VUndef
| VNull
| VBool (b : bool)
| VNum (z : Z)
| VStr (s : string)
| VArr (items : list value)
| VObj (fields : list (string * value)).

(** ToBoolean. *)
Definition truthy (v : value) : bool :=
  match v with
  | VUndef | VNull => false
  | VBool b => b
  | VNum z => negb (z =? 0)%Z
  | VStr s => negb (String.eqb s "")
  | VArr _ | VObj _ => true
  end.

(** The [typeof] operator. *)
Definition typeof (v : value) : string :=
  match v with
  | VUndef => "undefined"
  | VNull => "object"
  | VBool _ => "boolean"
  | VNum _ => "number"
  | VStr _ => "string"
  | VArr _ | VObj _ => "object"
  end.

Definition is_string (v : value) : bool :=
  match v with VStr _ => true | _ => false end.

(** Own-property lookup in a property list: the first binding of the key. *)
Fixpoint assoc {A : Type} (k : string) (l : list (string * A)) : option A :=
  match l with
  | [] => None
  | (k', a) :: l' => if String.eqb k k' then Some a else assoc k l'
  end.

(** [o.k] on a value that is not [undefined] or [null]: a missing property
    reads as [undefined]. *)
Definition get_field (k : string) (v : value) : value :=
  match v with
  | VObj fields => default VUndef (assoc k fields)
  | _ => VUndef
  end.

(** Decimal rendering of an integer, for ToString on numbers. *)
Definition digit (n : nat) : string :=
  match n with
  | 0 => "0" | 1 => "1" | 2 => "2" | 3 => "3" | 4 => "4"
  | 5 => "5" | 6 => "6" | 7 => "7" | 8 => "8" | _ => "9"
  end.

Fixpoint decimal_fuel (fuel n : nat) (acc : string) : string :=
  match fuel with
  | O => acc
  | S fuel' =>
      let acc' := digit (n mod 10) +:+ acc in
      if Nat.ltb n 10 then acc' else decimal_fuel fuel' (n / 10) acc'
  end.

Definition decimal (z : Z) : string :=
  let n := Z.abs_nat z in
  let s := decimal_fuel (S n) n "" in
  if (z <? 0)%Z then "-" +:+ s else s.

(** ToString, as used by template literals and by property access
    [obj[key]] (ToPropertyKey). *)
Fixpoint to_string (v : value) : string :=
  match v with
  | VUndef => "undefined"
  | VNull => "null"
  | VBool true => "true"
  | VBool false => "false"
  | VNum z => decimal z
  | VStr s => s
  | VArr items =>
      (fix join (l : list value) : string :=
         match l with
         | [] => ""
         | x :: l' =>
             match x with VUndef | VNull => "" | _ => to_string x end
             +:+ match l' with [] => "" | _ => "," +:+ join l' end
         end) items
  | VObj _ => "[object Object]"
  end.

(** *** Promises

    A promise is described by how it settles: never, or with an outcome
    after a number of turns of the event loop counted from the call that
    produced it.  [reports] marks a promise obtained through
    [.catch(err => { hook.emit('vuex:error', err); throw err })]: it
    settles as the promise it was chained on, after reporting a rejection. *)
Inductive outcome : Type :=
| Fulfilled (v : value)
| Rejected (reason : value).

Record promise : Type :=
  mkPromise { settlement : option (nat * outcome); reports : bool }.

(** What a call returns to JavaScript code that may [await] it: a plain
    value or a promise. *)
Inductive returned : Type :=
| Plain (v : value)
| Thenable (p : promise).

(** [Promise.resolve(r)]: [r] itself when it is a promise, otherwise a
    promise fulfilled with [r]. *)
Definition Promise_resolve (r : returned) : promise :=
  match r with
  | Thenable p => p
  | Plain v => {| settlement := Some (0, Fulfilled v); reports := false |}
  end.

(** [p.catch(err => { ...; throw err })] *)
Definition catch_rethrow (p : promise) : promise :=
  {| settlement := settlement p; reports := true |}.

(** The earliest rejection among the promises; of two that reject in the
    same turn, the one that comes first in the list. *)
Fixpoint first_rejection (ps : list promise) : option (nat * value) :=
  match ps with
  | [] => None
  | p :: rest =>
      match settlement p with
      | Some (t, Rejected e) =>
          match first_rejection rest with
          | Some (t', e') => if Nat.ltb t' t then Some (t', e') else Some (t, e)
          | None => Some (t, e)
          end
      | _ => first_rejection rest
      end
  end.

(** The values of the promises and the turn in which the last one is
    fulfilled, when all of them are. *)
Fixpoint all_fulfilled (ps : list promise) : option (nat * list value) :=
  match ps with
  | [] => Some (0, [])
  | p :: rest =>
      match settlement p, all_fulfilled rest with
      | Some (t, Fulfilled v), Some (t', vs) => Some (Nat.max t t', v :: vs)
      | _, _ => None
      end
  end.

(** [Promise.all(rs)]: each element goes through [Promise.resolve]; the
    aggregate is rejected with the earliest rejection, otherwise fulfilled,
    once all are, with the array of their values. *)
Definition Promise_all (rs : list returned) : promise :=
  let ps := List.map Promise_resolve rs in
  {| settlement :=
       match first_rejection ps with
       | Some (t, e) => Some (t, Rejected e)
       | None =>
           match all_fulfilled ps with
           | Some (t, vs) => Some (t, Fulfilled (VArr vs))
           | None => None
           end
       end;
     reports := false |}.

(** [await r] *)
Definition await (r : returned) : option (nat * outcome) :=
  settlement (Promise_resolve r).

(** [Array.prototype.indexOf] on an array of function references
    (compared by identity); [-1] when absent. *)
Fixpoint indexOf (fn : nat) (arr : list nat) : Z :=
  match arr with
  | [] => (-1)%Z
  | x :: rest =>
      if Nat.eqb x fn then 0%Z
      else let i := indexOf fn rest in
           if (i <? 0)%Z then (-1)%Z else (i + 1)%Z
  end.

(** [arr.splice(i, 1)] for [i >= 0]: the array afterwards. *)
Definition splice1 {A} (i : Z) (arr : list A) : list A :=
  delete (Z.to_nat i) arr.

(** *** Property enumeration

    An object is given by its own properties in the order in which they
    were written, under distinct keys.  [for ... in] and [Object.keys]
    enumerate the keys that are array indices first, in ascending numeric
    order, and then the other keys in the order of writing. *)
Definition digit_of (c : ascii) : option N :=
  let n := N_of_ascii c in
  if ((48 <=? n) && (n <=? 57))%N then Some (n - 48)%N else None.

Fixpoint parse_digits (s : string) (acc : N) : option N :=
  match s with
  | EmptyString => Some acc
  | String c s' =>
      match digit_of c with
      | Some d => parse_digits s' (10 * acc + d)%N
      | None => None
      end
  end.

(** The array index that a key names: a canonical numeric string (no sign,
    no leading zero) whose value is below [2^32 - 1]. *)
Definition array_index (key : string) : option N :=
  match key with
  | EmptyString => None
  | String c rest =>
      if Ascii.eqb c "0"%char && negb (String.eqb rest "") then None
      else
        match parse_digits key 0 with
        | Some n => if (n <? 4294967295)%N then Some n else None
        | None => None
        end
  end.

Definition is_array_index (key : string) : bool :=
  match array_index key with Some _ => true | None => false end.

Fixpoint insert_index {A} (i : N) (p : string * A)
  (sorted : list (N * (string * A))) : list (N * (string * A)) :=
  match sorted with
  | [] => [(i, p)]
  | (j, q) :: rest =>
      if (i <? j)%N then (i, p) :: sorted else (j, q) :: insert_index i p rest
  end.

(** The properties under array-index keys, sorted by index. *)
Fixpoint indexed_properties {A} (props : list (string * A))
  : list (N * (string * A)) :=
  match props with
  | [] => []
  | p :: rest =>
      match array_index (fst p) with
      | Some i => insert_index i p (indexed_properties rest)
      | None => indexed_properties rest
      end
  end.

(** The order in which [for (const key in obj)] visits the properties. *)
Definition for_in {A} (props : list (string * A)) : list (string * A) :=
  List.map snd (indexed_properties props)
  ++ List.filter (fun p => negb (is_array_index (fst p))) props.

End Js.

Export Js.

(* ===================================================================== *)
(** ** Effects                                                            *)
(* ===================================================================== *)

Module Eff.

(** What a run can throw.  [RawModuleAssertion path key type] is the error
    of a failed validation, whose message [makeAssertionMessage] builds
    from the module path, the table and the entry. *)
Inductive error : Type :=
| TypeError
| AssertionError (msg : string)
| RawModuleAssertion (path : list string) (key type : string).

(** What a run leaves behind, in order: console output and the calls made
    to code that lives outside this repository's core. *)
Inductive event : Type :=
| ConsoleError (msg : string)
| ConsoleWarn (msg : string)
| MutationCalled (handler : nat) (payload : value) (committing : bool)
| SubscriberCalled (sub : nat) (type payload state : value)
| ActionSubscriberCalled (sub : nat) (type payload state : value)
| ActionCalled (handler : nat) (payload : value)
| MixinApplied (provider : nat).

Inductive res (A : Type) : Type :=
| Ok (a : A)
| Throw (e : error).
Global Arguments Ok {A} a.
Global Arguments Throw {A} e.

(** A computation over a mutable state [S]: its result, the state it
    leaves (also when it throws: nothing is rolled back) and the events
    it emitted. *)
Definition M (S A : Type) : Type := S -> res A * S * list event.

Definition ret {S A} (a : A) : M S A := fun s => (Ok a, s, []).

Definition bind {S A B} (m : M S A) (f : A -> M S B) : M S B :=
  fun s =>
    match m s with
    | (Ok a, s1, l1) =>
        match f a s1 with
        | (r, s2, l2) => (r, s2, l1 ++ l2)
        end
    | (Throw e, s1, l1) => (Throw e, s1, l1)
    end.

Definition throw {S A} (e : error) : M S A := fun s => (Throw e, s, []).
Definition emit {S} (ev : event) : M S unit := fun s => (Ok tt, s, [ev]).
Definition gets {S A} (f : S -> A) : M S A := fun s => (Ok (f s), s, []).
Definition modify {S} (f : S -> S) : M S unit := fun s => (Ok tt, f s, []).
Definition when {S} (b : bool) (m : M S unit) : M S unit :=
  if b then m else ret tt.

(** [Array.prototype.forEach] over a list captured before the loop. *)
Definition for_each {S A} (l : list A) (f : A -> M S unit) : M S unit :=
  (fix go (l : list A) : M S unit :=
     match l with
     | [] => ret tt
     | a :: l' => bind (f a) (fun _ => go l')
     end) l.

(** [Array.prototype.map]. *)
Definition map_m {S A B} (l : list A) (f : A -> M S B) : M S (list B) :=
  (fix go (l : list A) : M S (list B) :=
     match l with
     | [] => ret []
     | a :: l' => bind (f a) (fun b => bind (go l') (fun bs => ret (b :: bs)))
     end) l.

Definition result {S A} (x : res A * S * list event) : res A := fst (fst x).
Definition final {S A} (x : res A * S * list event) : S := snd (fst x).
Definition events {S A} (x : res A * S * list event) : list event := snd x.

End Eff.

Export Eff.

Notation "'do' x <- m ; k" := (bind m (fun x => k))
  (at level 10, x name, m at level 100, k at level 200,
   format "'[v' 'do'  x  <-  m ; '/' k ']'").
Notation "m >> k" := (bind m (fun _ => k))
  (at level 100, k at level 200, right associativity).

(* ===================================================================== *)
(** ** [./util]                                                           *)
(* ===================================================================== *)

Module Util.

(** Modelled from the spec: [isObject] of [./util], which is not among the
    sources.  The spec speaks of the "single-object-with-[type] calling
    convention": the test accepts the values whose [typeof] is ["object"],
    [null] excepted. *)
Definition isObject (v : value) : bool :=
  match v with
  | VObj _ | VArr _ => true
  | _ => false
  end.

(** Modelled from the spec: [isPromise] of [./util], which is not among
    the sources.  The spec sets a handler result that is awaitable against
    one that is "a plain value"; plain data has no [then] method. *)
Definition isPromise (r : returned) : bool :=
  match r with
  | Thenable _ => true
  | Plain _ => false
  end.

(** Modelled from the spec: [assert] of [./util], which is not among the
    sources.  The spec calls these "assertion failures intended to abort
    execution immediately": a failed assertion throws. *)
Definition assert {S} (cond : bool) (msg : string) : M S unit :=
  if cond then ret tt else throw (AssertionError msg).

(** Modelled from the spec: [forEachValue] of [./util], which is not among
    the sources.  The spec has the visitors iterate "in definition order"
    and the callbacks here take the value first and the key second. *)
Definition forEachValue {S A} (obj : list (string * A))
  (fn : A -> string -> M S unit) : M S unit :=
  for_each obj (fun kv => fn (snd kv) (fst kv)).

End Util.

(* ===================================================================== *)
(** ** [src/module/module.js]                                             *)
(* ===================================================================== *)

Module ModuleNode.

(** An entry of a [getters], [mutations] or [actions] table, as far as the
    code inspects it: a function, an object literal such as
    [{root: true, handler: f}], or any other value. *)
Inductive decl : Type :=
| DFun (f : nat)
| DObj (fields : list (string * decl))
| DData (v : value).

(** The [state] field of a raw module: a value, or a function that is
    called without arguments and returns one. *)
Inductive RawState : Type :=
| StateValue (v : value)
| StateFunction (returns : value).

(** A raw module definition.  A table that is absent reads as
    [undefined]; a table that is present is an object, hence truthy.  The
    properties of a table and of [modules] are listed as they were
    written, under distinct keys. *)
Inductive RawModule : Type :=
  mkRaw {
      namespaced_field : value;
      state_field : RawState;
      getters : option (list (string * decl));
      mutations : option (list (string * decl));
      actions : option (list (string * decl));
      modules : option (list (string * RawModule))
    }.

(** A node of the module tree.  [_children] is the dictionary
    [Object.create(null)].  A node holds its definition by value: a tree in
    which two nodes were built from one and the same definition object, so
    that a write into the definition of one shows in the other, is not
    represented. *)
Inductive Module : Type :=
  mkModule {
      runtime : bool;
      _children : gmap string Module;
      _rawModule : RawModule;
      state : value
    }.

(** [constructor (rawModule, runtime)] *)
Definition new_Module (rawModule : RawModule) (runtime : bool) : Module :=
  let rawState :=
    match state_field rawModule with
    | StateFunction returns => returns
    | StateValue v => v
    end in
  {| runtime := runtime;
     _children := ∅;
     _rawModule := rawModule;
     state := if truthy rawState then rawState else VObj [] |}.

(** [get namespaced ()] *)
Definition namespaced (m : Module) : bool :=
  truthy (namespaced_field (_rawModule m)).

Definition addChild (key : string) (module : Module) (m : Module) : Module :=
  {| runtime := runtime m;
     _children := <[key := module]> (_children m);
     _rawModule := _rawModule m;
     state := state m |}.

Definition removeChild (key : string) (m : Module) : Module :=
  {| runtime := runtime m;
     _children := delete key (_children m);
     _rawModule := _rawModule m;
     state := state m |}.

Definition getChild (key : string) (m : Module) : option Module :=
  _children m !! key.

(** [update (rawModule)]: the assignments go to [this._rawModule]. *)
Definition update (rawModule : RawModule) (m : Module) : Module :=
  let raw := _rawModule m in
  {| runtime := runtime m;
     _children := _children m;
     _rawModule :=
       {| namespaced_field := namespaced_field rawModule;
          state_field := state_field raw;
          getters := match getters rawModule with
                     | Some t => Some t
                     | None => getters raw
                     end;
          mutations := match mutations rawModule with
                       | Some t => Some t
                       | None => mutations raw
                       end;
          actions := match actions rawModule with
                     | Some t => Some t
                     | None => actions raw
                     end;
          modules := modules raw |};
     state := state m |}.

End ModuleNode.

(* ===================================================================== *)
(** ** [src/module/module-collection.js]                                  *)
(* ===================================================================== *)

Module ModuleCollection.
Import Util ModuleNode.

(** [this.root] is unset until the first [register([], ...)]. *)
Record Collection : Type := mkCollection { root : option Module }.

(** [path.slice(0, -1)] and [path[path.length - 1]].  The key is used to
    index a dictionary, so a missing last element ([undefined]) reads the
    property named ["undefined"]. *)
Definition parent_path (path : list string) : list string := removelast path.
Definition last_key (path : list string) : string :=
  match path with
  | [] => to_string VUndef
  | _ => List.last path ""
  end.

(** The loop of [get]: [module.getChild(key)] throws when [module] is
    [undefined]. *)
Fixpoint get_from (path : list string) (module : option Module)
  : res (option Module) :=
  match path with
  | [] => Ok module
  | key :: rest =>
      match module with
      | None => Throw TypeError
      | Some m => get_from rest (getChild key m)
      end
  end.

(** [get (path)] *)
Definition get (path : list string) (c : Collection) : res (option Module) :=
  get_from path (root c).

(** The loop of [getNamespace]; [module] is the closure variable that
    follows the walk. *)
Fixpoint getNamespace_from (path : list string) (module : option Module)
  (namespace : string) : res string :=
  match path with
  | [] => Ok namespace
  | key :: rest =>
      match module with
      | None => Throw TypeError
      | Some m =>
          match getChild key m with
          | None => Throw TypeError
          | Some child =>
              getNamespace_from rest (Some child)
                (namespace +:+ (if namespaced child then key +:+ "/" else ""))
          end
      end
  end.

(** [getNamespace (path)] *)
Definition getNamespace (path : list string) (c : Collection) : res string :=
  getNamespace_from path (root c) "".

(** A write through the reference that [get] returned: the node at [path]
    is replaced, in the tree, by its mutated self. *)
Fixpoint write_at (path : list string) (f : Module -> Module) (m : Module)
  : Module :=
  match path with
  | [] => f m
  | key :: rest =>
      match getChild key m with
      | Some child => addChild key (write_at rest f child) m
      | None => m
      end
  end.

Definition lift {A} (r : res A) : M Collection A :=
  match r with
  | Ok a => ret a
  | Throw e => throw e
  end.

(** Run a method on the child [key] of the current node; the child is
    mutated in place, so the parent sees the outcome. *)
Definition on_child {A} (key : string) (child : Module) (m : M Module A)
  : M Module A :=
  fun target =>
    match m child with
    | (r, child', evs) => (r, addChild key child' target, evs)
    end.

Section Build.

(** [process.env.NODE_ENV === 'production'] *)
Variable production : bool.

(** [functionAssert.assert] and [objectAssert.assert]; the latter reads
    [value.handler], which throws on [null]. *)
Definition functionAssert (v : decl) : res bool :=
  match v with
  | DFun _ => Ok true
  | _ => Ok false
  end.

Definition objectAssert (v : decl) : res bool :=
  match v with
  | DFun _ => Ok true
  | DObj fields =>
      match assoc "handler" fields with
      | Some (DFun _) => Ok true
      | _ => Ok false
      end
  | DData VNull => Throw TypeError
  | _ => Ok false
  end.

(** One entry of [assertTypes] applied to one table. *)
Definition assertTable {S} (path : list string) (key : string)
  (check : decl -> res bool) (table : option (list (string * decl)))
  : M S unit :=
  match table with
  | None => ret tt
  | Some entries =>
      forEachValue entries (fun value type =>
        match check value with
        | Ok true => ret tt
        | Ok false => throw (RawModuleAssertion path key type)
        | Throw e => throw e
        end)
  end.

(** [assertRawModule (path, rawModule)], in the key order of
    [assertTypes]. *)
Definition assertRawModule {S} (path : list string) (rawModule : RawModule)
  : M S unit :=
  assertTable path "getters" functionAssert (getters rawModule) >>
  assertTable path "mutations" functionAssert (mutations rawModule) >>
  assertTable path "actions" objectAssert (actions rawModule).

(** [register (path, rawModule, runtime = true)] *)
Fixpoint register (path : list string) (rawModule : RawModule)
  (runtime : bool) {struct rawModule} : M Collection unit :=
  when (negb production) (assertRawModule path rawModule) >>
  let newModule := new_Module rawModule runtime in
  (match path with
   | [] => modify (fun _ => {| root := Some newModule |})
   | _ =>
       do parent <- (fun c => lift (get (parent_path path) c) c);
       match parent with
       | None => throw TypeError
       | Some _ =>
           modify (fun c =>
             {| root := write_at (parent_path path)
                          (addChild (last_key path) newModule)
                          <$> root c |})
       end
   end) >>
  match modules rawModule with
  | None => ret tt
  | Some children =>
      forEachValue children (fun rawChildModule key =>
        register (path ++ [key]) rawChildModule runtime)
  end.

(** [constructor (rawRootModule)] *)
Definition new_ModuleCollection (rawRootModule : RawModule)
  : M Collection unit :=
  register [] rawRootModule false.

(** [unregister (path)] *)
Definition unregister (path : list string) : M Collection unit :=
  do parent <- (fun c => lift (get (parent_path path) c) c);
  let key := last_key path in
  match parent with
  | None => throw TypeError
  | Some p =>
      match getChild key p with
      | None => throw TypeError
      | Some child =>
          if negb (runtime child) then ret tt
          else
            modify (fun c =>
              {| root := write_at (parent_path path) (removeChild key)
                           <$> root c |})
      end
  end.

(** [obj.hasOwnProperty(key)] on an object of definitions.  The method is
    the one of [Object.prototype] unless the object has a property of that
    name; such a property is a definition, not a function, and the call
    throws. *)
Definition hasOwnProperty {A} (obj : list (string * A)) (key : string)
  : res bool :=
  match assoc "hasOwnProperty" obj with
  | Some _ => Throw TypeError
  | None => Ok (match assoc key obj with Some _ => true | None => false end)
  end.

(** The [for (const key in newModule.modules)] loop of the function
    [update], over the properties in the order of [for_in]; [own] is the
    call [newModule.modules.hasOwnProperty(key)] and [update] the function
    itself, for the recursive call.  [return] inside the loop leaves the
    function. *)
Definition update_children {D : Type} (own : string -> res bool)
  (update : list string -> D -> M Module unit)
  (path : list string) (children : list (string * D))
  : M Module unit :=
  (fix loop (l : list (string * D)) : M Module unit :=
     match l with
     | [] => ret tt
     | (key, newChild) :: rest =>
         match own key with
         | Throw e => throw e
         | Ok false => loop rest
         | Ok true =>
             do child <- gets (getChild key);
             match child with
             | None =>
                 when (negb production)
                   (emit (ConsoleWarn
                      ("[vuex] trying to add a new module '" +:+ key
                       +:+ "' on hot reloading, "
                       +:+ "manual reload is needed")))
             | Some c =>
                 on_child key c (update (path ++ [key]) newChild) >>
                 loop rest
             end
         end
     end) children.

(** The function [update (path, targetModule, newModule)]; the state of
    the computation is the target node.  The recursive call on a child
    definition is prepared for each property before the properties are put
    in the order of the loop. *)
Fixpoint update_module (path : list string) (newModule : RawModule)
  {struct newModule} : M Module unit :=
  when (negb production) (assertRawModule path newModule) >>
  modify (ModuleNode.update newModule) >>
  match modules newModule with
  | None => ret tt
  | Some children =>
      update_children (hasOwnProperty children)
        (fun path' update_child => update_child path') path
        (for_in
           (List.map
              (fun kc => (fst kc, fun path' => update_module path' (snd kc)))
              children))
  end.

(** The method [update (rawRootModule)]. *)
Definition update (rawRootModule : RawModule) : M Collection unit :=
  fun c =>
    match root c with
    | None =>
        (when (negb production) (assertRawModule [] rawRootModule) >>
         throw TypeError) c
    | Some r =>
        match update_module [] rawRootModule r with
        | (res, r', evs) => (res, {| root := Some r' |}, evs)
        end
    end.

End Build.

End ModuleCollection.

(* ===================================================================== *)
(** ** [src/store.js]                                                     *)
(* ===================================================================== *)

Module Store.
Import Util.

(** The fields of a store that [commit], [dispatch] and the subscription
    methods read or write.  An entry of [_mutations] or [_actions] is the
    array of wrapped handlers registered under a type; a wrapped handler,
    a subscriber and a provider are each named by a number, which stands
    for the identity of the function object.  [state] is what the getter
    [this.state] returns. *)
Record Store : Type :=
  mkStore {
      _committing : bool;
      _actions : gmap string (list nat);
      _actionSubscribers : list nat;
      _mutations : gmap string (list nat);
      _subscribers : list nat;
      _devtoolHook : bool;
      state : value
    }.

Definition set_committing (b : bool) (st : Store) : Store :=
  {| _committing := b; _actions := _actions st;
     _actionSubscribers := _actionSubscribers st;
     _mutations := _mutations st; _subscribers := _subscribers st;
     _devtoolHook := _devtoolHook st; state := state st |}.

Definition set_state (s : value) (st : Store) : Store :=
  {| _committing := _committing st; _actions := _actions st;
     _actionSubscribers := _actionSubscribers st;
     _mutations := _mutations st; _subscribers := _subscribers st;
     _devtoolHook := _devtoolHook st; state := s |}.

Definition set_subscribers (l : list nat) (st : Store) : Store :=
  {| _committing := _committing st; _actions := _actions st;
     _actionSubscribers := _actionSubscribers st;
     _mutations := _mutations st; _subscribers := l;
     _devtoolHook := _devtoolHook st; state := state st |}.

Definition set_actionSubscribers (l : list nat) (st : Store) : Store :=
  {| _committing := _committing st; _actions := _actions st;
     _actionSubscribers := l;
     _mutations := _mutations st; _subscribers := _subscribers st;
     _devtoolHook := _devtoolHook st; state := state st |}.

(** The module variable [let Vue]. *)
Record Global : Type := mkGlobal { Vue : option nat }.

(** The object [{type, payload, options}] returned by [unifyObjectStyle]. *)
Record unified : Type :=
  mkUnified { type : value; payload : value; options : value }.

(** [genericSubscribe (fn, subs)], for an array [subs] that lives in a
    field of the state: [read] and [write] are that field.  The result is
    the returned closure. *)
Definition genericSubscribe {S} (fn : nat)
  (read : S -> list nat) (write : list nat -> S -> S) : M S (M S unit) :=
  modify (fun s =>
    if (indexOf fn (read s) <? 0)%Z then write (read s ++ [fn]) s else s) >>
  ret (modify (fun s =>
    let i := indexOf fn (read s) in
    if (-1 <? i)%Z then write (splice1 i (read s)) s else s)).

Section Methods.

(** [process.env.NODE_ENV === 'production'] *)
Variable production : bool.

(** User code.  [mutation_handler h payload s] is the state tree after
    the wrapped mutation handler [h] ran on the tree [s];
    [action_handler h payload s] is what the user's action handler
    returns and the state tree it leaves when it returns.  A handler is
    taken to return, without throwing and without touching the store's
    registries or subscriber lists; a subscriber only observes.  [LiveStore]
    has [commit] and [dispatch] without these restrictions. *)
Variable mutation_handler : nat -> value -> value -> value.
Variable action_handler : nat -> value -> value -> returned * value.

(** [unifyObjectStyle (type, payload, options)] *)
Definition unifyObjectStyle {S} (type payload options : value)
  : M S unified :=
  let u :=
    if isObject type && truthy (get_field "type" type)
    then {| type := get_field "type" type; payload := type;
            options := payload |}
    else {| type := type; payload := payload; options := options |} in
  when (negb production)
    (assert (is_string (Store.type u))
       ("expects string as the type, but found "
        +:+ typeof (Store.type u) +:+ ".")) >>
  ret u.

(** [_withCommit (fn)] *)
Definition _withCommit (fn : M Store unit) : M Store unit :=
  do committing <- gets _committing;
  modify (set_committing true) >>
  fn >>
  modify (set_committing committing).

(** A call [handler(payload)] of a wrapped mutation handler. *)
Definition wrappedMutationHandler (handler : nat) (payload : value)
  : M Store unit :=
  do committing <- gets _committing;
  emit (MutationCalled handler payload committing) >>
  modify (fun st => set_state (mutation_handler handler payload (state st)) st).

(** [commit (_type, _payload, _options)] *)
Definition commit (_type _payload _options : value) : M Store unit :=
  do u <- unifyObjectStyle _type _payload _options;
  do entry <- gets (fun st => _mutations st !! to_string (type u));
  match entry with
  | None =>
      when (negb production)
        (emit (ConsoleError
           ("[vuex] unknown mutation type: " +:+ to_string (type u))))
  | Some entry =>
      _withCommit
        (for_each entry (fun handler =>
           wrappedMutationHandler handler (payload u))) >>
      (do subs <- gets _subscribers;
       for_each subs (fun sub =>
         do s <- gets state;
         emit (SubscriberCalled sub (type u) (payload u) s))) >>
      when (negb production && truthy (options u)
            && truthy (get_field "silent" (options u)))
        (emit (ConsoleWarn
           ("[vuex] mutation type: " +:+ to_string (type u)
            +:+ ". Silent option has been removed. "
            +:+ "Use the filter functionality in the vue-devtools")))
  end.

(** A call [handler(payload)] of a wrapped action handler.  [res.catch]
    is a method of promises only. *)
Definition wrappedActionHandler (handler : nat) (payload : value)
  : M Store returned :=
  emit (ActionCalled handler payload) >>
  do res <- (fun st =>
               match action_handler handler payload (state st) with
               | (r, s') => (Ok r, set_state s' st, [])
               end);
  let res :=
    if negb (isPromise res) then Thenable (Promise_resolve res) else res in
  do hook <- gets _devtoolHook;
  if hook
  then
    match res with
    | Thenable p => ret (Thenable (catch_rethrow p))
    | Plain _ => throw TypeError
    end
  else ret res.

(** [dispatch (_type, _payload)] *)
Definition dispatch (_type _payload : value) : M Store returned :=
  do u <- unifyObjectStyle _type _payload VUndef;
  do entry <- gets (fun st => _actions st !! to_string (type u));
  match entry with
  | None =>
      when (negb production)
        (emit (ConsoleError
           ("[vuex] unknown action type: " +:+ to_string (type u)))) >>
      ret (Plain VUndef)
  | Some entry =>
      (do subs <- gets _actionSubscribers;
       for_each subs (fun sub =>
         do s <- gets state;
         emit (ActionSubscriberCalled sub (type u) (payload u) s))) >>
      if Nat.ltb 1 (length entry)
      then
        do rs <- map_m entry (fun handler =>
                   wrappedActionHandler handler (payload u));
        ret (Thenable (Promise_all rs))
      else
        match entry with
        | handler :: _ => wrappedActionHandler handler (payload u)
        | [] => throw TypeError
        end
  end.

(** [subscribe (fn)] and [subscribeAction (fn)] *)
Definition subscribe (fn : nat) : M Store (M Store unit) :=
  genericSubscribe fn _subscribers set_subscribers.

Definition subscribeAction (fn : nat) : M Store (M Store unit) :=
  genericSubscribe fn _actionSubscribers set_actionSubscribers.

(** [install (_Vue)]; [applyMixin], from [./mixin], is recorded as a
    call. *)
Definition install (_Vue : nat) : M Global unit :=
  do bound <- gets Vue;
  if match bound with
     | Some v => Nat.eqb _Vue v
     | None => false
     end
  then
    when (negb production)
      (emit (ConsoleError
         "[vuex] already installed. Vue.use(Vuex) should be called only once."))
  else
    modify (fun _ => {| Vue := Some _Vue |}) >>
    emit (MixinApplied _Vue).

End Methods.

End Store.

(* ===================================================================== *)
(** ** [src/store.js], the registries and the local contexts              *)
(* ===================================================================== *)

Module StoreInternals.
Import Util Store.

(** [s.slice(0, n)] and [s.slice(n)] for a length [n]. *)
Fixpoint slice_to (n : nat) (s : string) : string :=
  match n, s with
  | S n', String a s' => String a (slice_to n' s')
  | _, _ => ""
  end.

Fixpoint slice_from (n : nat) (s : string) : string :=
  match n, s with
  | S n', String _ s' => slice_from n' s'
  | _, _ => s
  end.

(** The index that a property key names in an array or string of length
    [n]: the [i < n] whose decimal rendering is the key. *)
Definition index_key (key : string) (n : nat) : option nat :=
  List.find (fun i => String.eqb (decimal (Z.of_nat i)) key) (seq 0 n).

(** [v[key]], own properties only: it throws on [undefined] and [null]
    and reads [undefined] where there is no such property. *)
Definition read_property (key : string) (v : value) : res value :=
  match v with
  | VUndef | VNull => Throw TypeError
  | VBool _ | VNum _ => Ok VUndef
  | VStr s =>
      if String.eqb key "length" then Ok (VNum (Z.of_nat (String.length s)))
      else
        match index_key key (String.length s) with
        | Some i => Ok (VStr (slice_to 1 (slice_from i s)))
        | None => Ok VUndef
        end
  | VArr items =>
      if String.eqb key "length" then Ok (VNum (Z.of_nat (length items)))
      else
        match index_key key (length items) with
        | Some i => Ok (nth i items VUndef)
        | None => Ok VUndef
        end
  | VObj fields => Ok (default VUndef (assoc key fields))
  end.

(** [path.reduce((state, key) => state[key], state)] *)
Fixpoint reduce_state (path : list string) (state : value) : res value :=
  match path with
  | [] => Ok state
  | key :: rest =>
      match read_property key state with
      | Ok v => reduce_state rest v
      | Throw e => Throw e
      end
  end.

(** [getNestedState (state, path)] *)
Definition getNestedState (state : value) (path : list string) : res value :=
  match path with
  | [] => Ok state
  | _ => reduce_state path state
  end.

Definition set_mutations (m : gmap string (list nat)) (st : Store) : Store :=
  {| _committing := _committing st; _actions := _actions st;
     _actionSubscribers := _actionSubscribers st;
     _mutations := m; _subscribers := _subscribers st;
     _devtoolHook := _devtoolHook st; state := state st |}.

Definition set_actions (m : gmap string (list nat)) (st : Store) : Store :=
  {| _committing := _committing st; _actions := m;
     _actionSubscribers := _actionSubscribers st;
     _mutations := _mutations st; _subscribers := _subscribers st;
     _devtoolHook := _devtoolHook st; state := state st |}.

(** [registerMutation (store, type, handler, local)]; [wrapped] names the
    closure [wrappedMutationHandler] that the call builds from [handler]
    and [local] and pushes. *)
Definition registerMutation (type : string) (wrapped : nat) : M Store unit :=
  modify (fun st =>
    let entry := default [] (_mutations st !! type) in
    set_mutations (<[type := entry ++ [wrapped]]> (_mutations st)) st).

(** [registerAction (store, type, handler, local)]; [wrapped] names the
    closure [wrappedActionHandler] that the call builds and pushes. *)
Definition registerAction (type : string) (wrapped : nat) : M Store unit :=
  modify (fun st =>
    let entry := default [] (_actions st !! type) in
    set_actions (<[type := entry ++ [wrapped]]> (_actions st)) st).

(** The keys of [store.getters] that a namespace owns, each with its local
    name: the loop of [makeLocalGetters].  [Object.defineProperty] throws on
    a name that the proxy already has. *)
Fixpoint defineLocalGetters (namespace : string) (types : list string)
  (gettersProxy : list (string * string)) : res (list (string * string)) :=
  match types with
  | [] => Ok gettersProxy
  | type :: rest =>
      let splitPos := String.length namespace in
      if negb (String.eqb (slice_to splitPos type) namespace)
      then defineLocalGetters namespace rest gettersProxy
      else
        let localType := slice_from splitPos type in
        match assoc localType gettersProxy with
        | Some _ => Throw TypeError
        | None =>
            defineLocalGetters namespace rest
              (gettersProxy ++ [(localType, type)])
        end
  end.

(** [makeLocalGetters (store, namespace)], given the keys of
    [store.getters]: the proxy, as the list of its properties, each with
    the key of [store.getters] that its getter reads. *)
Definition makeLocalGetters (getters_keys : list string) (namespace : string)
  : res (list (string * string)) :=
  defineLocalGetters namespace getters_keys [].

(** The object that [makeLocalContext] returns. *)
Record Local : Type :=
  mkLocal {
      local_dispatch : value -> value -> value -> M Store returned;
      local_commit : value -> value -> value -> M Store unit;
      local_getters : list string -> res (list (string * string));
      local_state : Store -> res value
    }.

Section Methods.

(** [process.env.NODE_ENV === 'production'] *)
Variable production : bool.

(** User code, as for [commit] and [dispatch]. *)
Variable mutation_handler : nat -> value -> value -> value.
Variable action_handler : nat -> value -> value -> returned * value.

(** [replaceState (state)] *)
Definition replaceState (state : value) : M Store unit :=
  _withCommit (modify (set_state state)).

(** [registerGetter (store, type, rawGetter, local)]; the state is the
    dictionary [store._wrappedGetters] and [wrapped] names the closure
    [wrappedGetter] that the call builds. *)
Definition registerGetter (type : string) (wrapped : nat)
  : M (gmap string nat) unit :=
  do existing <- gets (fun g : gmap string nat => g !! type);
  match existing with
  | Some _ =>
      when (negb production)
        (emit (ConsoleError ("[vuex] duplicate getter key: " +:+ type)))
  | None => modify (fun g => <[type := wrapped]> g)
  end.

(** [makeLocalContext (store, namespace, path)].  [store.dispatch] and
    [store.commit] are the bound methods, which pass on two and three
    arguments. *)
Definition makeLocalContext (namespace : string) (path : list string)
  : Local :=
  let noNamespace := String.eqb namespace "" in
  {| local_dispatch :=
       if noNamespace
       then fun _type _payload _ => dispatch production action_handler
                                      _type _payload
       else fun _type _payload _options =>
         do args <- unifyObjectStyle production _type _payload _options;
         if negb (truthy (options args))
            || negb (truthy (get_field "root" (options args)))
         then
           let type := namespace +:+ to_string (type args) in
           do registered <- gets (fun st => _actions st !! type);
           if negb production && negb (bool_decide (is_Some registered))
           then
             emit (ConsoleError
                     ("[vuex] unknown local action type: "
                      +:+ to_string (Store.type args)
                      +:+ ", global type: " +:+ type)) >>
             ret (Plain VUndef)
           else dispatch production action_handler (VStr type) (payload args)
         else dispatch production action_handler (Store.type args)
                (payload args);
     local_commit :=
       if noNamespace
       then commit production mutation_handler
       else fun _type _payload _options =>
         do args <- unifyObjectStyle production _type _payload _options;
         if negb (truthy (options args))
            || negb (truthy (get_field "root" (options args)))
         then
           let type := namespace +:+ to_string (type args) in
           do registered <- gets (fun st => _mutations st !! type);
           if negb production && negb (bool_decide (is_Some registered))
           then
             emit (ConsoleError
                     ("[vuex] unknown local mutation type: "
                      +:+ to_string (Store.type args)
                      +:+ ", global type: " +:+ type))
           else commit production mutation_handler (VStr type)
                  (payload args) (options args)
         else commit production mutation_handler (Store.type args)
                (payload args) (options args);
     local_getters :=
       fun getters_keys =>
         if noNamespace
         then Ok (List.map (fun k => (k, k)) getters_keys)
         else makeLocalGetters getters_keys namespace;
     local_state := fun st => getNestedState (state st) path |}.

End Methods.

End StoreInternals.

(* ===================================================================== *)
(** ** [src/store.js], with callbacks that act on the store               *)
(* ===================================================================== *)

Module LiveStore.
Import Util Store.

(** [Array.prototype.forEach] on an array that lives in the field [read]
    of the state and that the callback may change while the loop runs, as
    [subs.push] and [subs.splice] do.  The length is read once, before the
    loop; an index below it is visited if the array still has it when its
    turn comes.  [remaining] counts the indices still to come and [k] is
    the next one. *)
Fixpoint forEach_from {St A} (read : St -> list A) (f : A -> M St unit)
  (remaining k : nat) : M St unit :=
  match remaining with
  | 0 => ret tt
  | S remaining' =>
      do arr <- gets read;
      match arr !! k with
      | Some x => f x >> forEach_from read f remaining' (S k)
      | None => forEach_from read f remaining' (S k)
      end
  end.

Definition forEach {St A} (read : St -> list A) (f : A -> M St unit)
  : M St unit :=
  do arr <- gets read;
  forEach_from read f (length arr) 0.

Section Methods.

(** [process.env.NODE_ENV === 'production'] *)
Variable production : bool.

(** User code, free to throw and to call back into the store.
    [mutation_handler h payload] is the body of the wrapped mutation
    handler [h], that is the read of [local.state] and the call of the
    user's handler; [action_handler h payload] is the call
    [handler.call(store, {...}, payload, cb)] inside the wrapped action
    handler [h], with the reads of the local context, and yields what the
    user's handler returned; [subscriber f type payload state] is the call
    [f({type, payload}, state)] of a mutation subscriber, and
    [action_subscriber] that of an action subscriber.  Values are
    immutable data: a callback does not write into the objects it is
    handed. *)
Variable mutation_handler : nat -> value -> M Store unit.
Variable action_handler : nat -> value -> M Store returned.
Variable subscriber : nat -> value -> value -> value -> M Store unit.
Variable action_subscriber : nat -> value -> value -> value -> M Store unit.

(** A call [handler(payload)] of a wrapped mutation handler. *)
Definition wrappedMutationHandler (handler : nat) (payload : value)
  : M Store unit :=
  do committing <- gets _committing;
  emit (MutationCalled handler payload committing) >>
  mutation_handler handler payload.

(** [commit (_type, _payload, _options)].  An entry is an array that only
    grows, by [entry.push], so that [entry.forEach] visits the handlers
    that the entry held when the loop began; [this._subscribers] grows and
    shrinks in place. *)
Definition commit (_type _payload _options : value) : M Store unit :=
  do u <- unifyObjectStyle production _type _payload _options;
  do entry <- gets (fun st => _mutations st !! to_string (type u));
  match entry with
  | None =>
      when (negb production)
        (emit (ConsoleError
           ("[vuex] unknown mutation type: " +:+ to_string (type u))))
  | Some entry =>
      _withCommit
        (for_each entry (fun handler =>
           wrappedMutationHandler handler (payload u))) >>
      forEach _subscribers (fun sub =>
        do s <- gets state;
        emit (SubscriberCalled sub (type u) (payload u) s) >>
        subscriber sub (type u) (payload u) s) >>
      when (negb production && truthy (options u)
            && truthy (get_field "silent" (options u)))
        (emit (ConsoleWarn
           ("[vuex] mutation type: " +:+ to_string (type u)
            +:+ ". Silent option has been removed. "
            +:+ "Use the filter functionality in the vue-devtools")))
  end.

(** A call [handler(payload)] of a wrapped action handler.  [res.catch]
    is a method of promises only. *)
Definition wrappedActionHandler (handler : nat) (payload : value)
  : M Store returned :=
  emit (ActionCalled handler payload) >>
  do res <- action_handler handler payload;
  let res :=
    if negb (isPromise res) then Thenable (Promise_resolve res) else res in
  do hook <- gets _devtoolHook;
  if hook
  then
    match res with
    | Thenable p => ret (Thenable (catch_rethrow p))
    | Plain _ => throw TypeError
    end
  else ret res.

(** [dispatch (_type, _payload)].  [entry] is an array that grows in place
    when a callback registers a handler under the type: [entry.length] and
    [entry.map] see what the entry holds after the notification. *)
Definition dispatch (_type _payload : value) : M Store returned :=
  do u <- unifyObjectStyle production _type _payload VUndef;
  do entry <- gets (fun st => _actions st !! to_string (type u));
  match entry with
  | None =>
      when (negb production)
        (emit (ConsoleError
           ("[vuex] unknown action type: " +:+ to_string (type u)))) >>
      ret (Plain VUndef)
  | Some entry =>
      forEach _actionSubscribers (fun sub =>
        do s <- gets state;
        emit (ActionSubscriberCalled sub (type u) (payload u) s) >>
        action_subscriber sub (type u) (payload u) s) >>
      do entry <- gets (fun st =>
                    default entry (_actions st !! to_string (type u)));
      if Nat.ltb 1 (length entry)
      then
        do rs <- map_m entry (fun handler =>
                   wrappedActionHandler handler (payload u));
        ret (Thenable (Promise_all rs))
      else
        match entry with
        | handler :: _ => wrappedActionHandler handler (payload u)
        | [] => throw TypeError
        end
  end.

End Methods.

(** The callbacks of [Store]: handlers that compute on the state tree and
    return, subscribers that only observe. *)
Definition on_state (mutation_handler : nat -> value -> value -> value)
  (handler : nat) (payload : value) : M Store unit :=
  modify (fun st => set_state (mutation_handler handler payload (state st)) st).

Definition returning (action_handler : nat -> value -> value -> returned * value)
  (handler : nat) (payload : value) : M Store returned :=
  fun st =>
    match action_handler handler payload (state st) with
    | (r, s') => (Ok r, set_state s' st, [])
    end.

Definition observer (sub : nat) (type payload state : value) : M Store unit :=
  ret tt.

End LiveStore.

(* ===================================================================== *)
(** ** Sample module trees                                                *)
(* ===================================================================== *)

Module Samples.
Import ModuleNode ModuleCollection.

(** [{ namespaced, state: {}, modules }] *)
Definition raw_node (ns : bool) (children : list (string * RawModule))
  : RawModule :=
  {| namespaced_field := VBool ns;
     state_field := StateValue (VObj []);
     getters := None; mutations := None; actions := None;
     modules := match children with [] => None | _ => Some children end |}.

(** [{ modules: { a: { namespaced: true, modules: { b: { modules:
    { c: { namespaced: true } } } } }, d: {} } }] *)
Definition raw_abcd : RawModule :=
  raw_node false
    [("a", raw_node true
             [("b", raw_node false [("c", raw_node true [])])]);
     ("d", raw_node false [])].

(** [new ModuleCollection(raw_abcd)] in a non-production build. *)
Definition tree_abcd : Collection :=
  final (new_ModuleCollection false raw_abcd {| root := None |}).

(** The root node of [tree_abcd]. *)
Definition root_abcd : Module :=
  default (new_Module raw_abcd false) (root tree_abcd).

(** A new root definition for a hot update: [a] loses its namespace, a
    module [x] is new, [d] becomes namespaced. *)
Definition raw_hot_before : list (string * RawModule) :=
  [("a", raw_node false [])].

Definition raw_hot_after : list (string * RawModule) :=
  [("d", raw_node true [])].

Definition raw_hot : RawModule :=
  raw_node false
    (raw_hot_before ++ ("x", raw_node false []) :: raw_hot_after).

(** [{ modules: { a: { namespaced: true }, 7: {} } }] and the root node
    of its tree. *)
Definition raw_a7 : RawModule :=
  raw_node false [("a", raw_node true []); ("7", raw_node false [])].

Definition root_a7 : Module :=
  default (new_Module raw_a7 false)
    (root (final (new_ModuleCollection false raw_a7 {| root := None |}))).

(** A new root definition, written
    [{ modules: { a: {}, x: {}, 7: { namespaced: true } } }]. *)
Definition raw_hot_a7 : RawModule :=
  raw_node false
    [("a", raw_node false []); ("x", raw_node false []);
     ("7", raw_node true [])].

(** A store with two mutation handlers under ["increment"], one action
    handler under ["load"], three under ["sync"], and two subscribers of
    each kind. *)
Definition sample_store : Store.Store :=
  {| Store._committing := false;
     Store._actions := <["sync" := [2; 3; 4]]> {["load" := [1]]};
     Store._actionSubscribers := [10; 11];
     Store._mutations := {["increment" := [1; 2]]};
     Store._subscribers := [20; 21];
     Store._devtoolHook := false;
     Store.state := VObj [("count", VNum 0)] |}.

(** Mutation handler [h] adds [h] times the payload to [count]. *)
Definition sample_mutation (h : nat) (payload s : value) : value :=
  match s, payload with
  | VObj [(k, VNum n)], VNum d => VObj [(k, VNum (n + Z.of_nat h * d))]
  | _, _ => s
  end.

(** Action handler 1 returns the plain value [1]; handler 2 a promise
    fulfilled after three turns; handler 3 a promise rejected after two;
    handler 4 a promise fulfilled after one.  None touches the state. *)
Definition sample_action (h : nat) (payload s : value) : returned * value :=
  match h with
  | 1 => (Plain (VNum 1), s)
  | 2 => (Thenable {| settlement := Some (3, Fulfilled (VStr "two"));
                      reports := false |}, s)
  | 3 => (Thenable {| settlement := Some (2, Rejected (VStr "three"));
                      reports := false |}, s)
  | _ => (Thenable {| settlement := Some (1, Fulfilled (VStr "four"));
                      reports := false |}, s)
  end.

(** The same handlers as callbacks that act on the store. *)
Definition live_mutation : nat -> value -> M Store.Store unit :=
  LiveStore.on_state sample_mutation.

Definition live_action : nat -> value -> M Store.Store returned :=
  LiveStore.returning sample_action.

(** The closure that [subscribe (20)] returned. *)
Definition unsubscribe_20 : M Store.Store unit :=
  match result (Store.subscribe 20 sample_store) with
  | Ok unsubscribe => unsubscribe
  | Throw _ => ret tt
  end.

(** Subscriber 20 unsubscribes itself when it is notified; the other
    subscribers only observe. *)
Definition leaving_subscriber (sub : nat) (type payload state : value)
  : M Store.Store unit :=
  if Nat.eqb sub 20 then unsubscribe_20 else ret tt.

(** Subscriber 20 subscribes the callback 30 when it is notified; the
    other subscribers only observe. *)
Definition recruiting_subscriber (sub : nat) (type payload state : value)
  : M Store.Store unit :=
  if Nat.eqb sub 20 then Store.subscribe 30 >> ret tt else ret tt.

(** The sample store with a module under the namespace ["cart/"]: a
    mutation ["cart/add"] and an action ["cart/load"]. *)
Definition cart_store : Store.Store :=
  StoreInternals.set_actions
    (<["cart/load" := [1]]> (Store._actions sample_store))
    (StoreInternals.set_mutations
       (<["cart/add" := [5]]> (Store._mutations sample_store))
       sample_store).

End Samples.

(* ===================================================================== *)
(** ** The vocabulary of the specification                                *)
(* ===================================================================== *)

Module Spec.
Import ModuleNode ModuleCollection.

(** The nodes met on the way down [path], each with the key that leads to
    it, root first (the root itself has no key and is not listed). *)
Fixpoint nodes_along (path : list string) (m : Module)
  : option (list (string * Module)) :=
  match path with
  | [] => Some []
  | key :: rest =>
      match getChild key m with
      | None => None
      | Some child =>
          match nodes_along rest child with
          | None => None
          | Some nodes => Some ((key, child) :: nodes)
          end
      end
  end.

(** The namespace in the words of the specification: the keys of the
    namespaced nodes, each followed by the separator, concatenated in
    root-to-leaf order. *)
Definition namespace_spec (nodes : list (string * Module)) : string :=
  String.concat ""
    (List.map (fun kn => fst kn +:+ "/")
       (List.filter (fun kn => namespaced (snd kn)) nodes)).


(** What the specification asks of a subscription method [sub] that keeps
    its subscribers in the field read by [subs] and written by [write]:
    subscribing a reference that is already listed changes nothing, a new
    one is appended; the returned closure, whenever it is called later,
    removes the one entry of that reference and nothing else; it does
    nothing when the reference is not listed, hence nothing when it is
    called again. *)
Definition subscription_contract {S : Type} (sub : nat -> M S (M S unit))
  (subs : S -> list nat) (write : list nat -> S -> S) : Prop :=
  forall (fn : nat) (s : S),
  exists unsubscribe : M S unit,
    result (sub fn s) = Ok unsubscribe /\
    events (sub fn s) = [] /\
    (fn ∈ subs s -> final (sub fn s) = s) /\
    (fn ∉ subs s -> final (sub fn s) = write (subs s ++ [fn]) s) /\
    (NoDup (subs s) -> NoDup (subs (final (sub fn s)))) /\
    forall t : S,
      result (unsubscribe t) = Ok tt /\
      events (unsubscribe t) = [] /\
      (fn ∉ subs t -> final (unsubscribe t) = t) /\
      (forall l1 l2, subs t = l1 ++ fn :: l2 -> fn ∉ l1 ->
                     final (unsubscribe t) = write (l1 ++ l2) t) /\
      (NoDup (subs t) ->
       NoDup (subs (final (unsubscribe t))) /\
       (fn ∉ subs (final (unsubscribe t))) /\
       final (unsubscribe (final (unsubscribe t))) = final (unsubscribe t)).


(** The install-once reading of the provider binding: once a provider is
    bound, no call of [install] changes the binding. *)
Definition binding_never_changes : Prop :=
  forall (production : bool) (A B : nat) (g : Store.Global),
    Store.Vue g = Some A ->
    Store.Vue (final (Store.install production B g)) = Some A.

(** The reading of C3 on an unregistered type: every such [commit] reports
    a diagnostic on the console. *)
Definition unknown_mutation_always_reported : Prop :=
  forall (production : bool) (mh : nat -> value -> M Store.Store unit)
         (sub : nat -> value -> value -> value -> M Store.Store unit)
         (ty pl op : value) (st : Store.Store) (u : Store.unified),
    Store.unifyObjectStyle production ty pl op st = (Ok u, st, []) ->
    Store._mutations st !! to_string (Store.type u) = None ->
    exists msg,
      ConsoleError msg ∈ events (LiveStore.commit production mh sub ty pl op st).

(** The reading of C1: every [dispatch] notifies every action subscriber. *)
Definition action_subscribers_always_notified : Prop :=
  forall (production : bool) (ah : nat -> value -> M Store.Store returned)
         (asub : nat -> value -> value -> value -> M Store.Store unit)
         (ty pl : value) (st : Store.Store) (u : Store.unified) (sub : nat),
    Store.unifyObjectStyle production ty pl VUndef st = (Ok u, st, []) ->
    sub ∈ Store._actionSubscribers st ->
    ActionSubscriberCalled sub (Store.type u) (Store.payload u) (Store.state st)
      ∈ events (LiveStore.dispatch production ah asub ty pl st).

(** What the console shows at the end of a [commit] of a registered type:
    the warning about the [silent] option, in a non-production build. *)
Definition silent_warning (production : bool) (u : Store.unified)
  : list event :=
  if negb production && truthy (Store.options u)
     && truthy (get_field "silent" (Store.options u))
  then [ConsoleWarn
          ("[vuex] mutation type: " +:+ to_string (Store.type u)
           +:+ ". Silent option has been removed. "
           +:+ "Use the filter functionality in the vue-devtools")]
  else [].

(** The part of [dispatch] that follows the notification of the
    subscribers: the calls of the handlers of the entry. *)
Definition call_handlers (ah : nat -> value -> M Store.Store returned)
  (entry : list nat) (pl : value) : M Store.Store returned :=
  if Nat.ltb 1 (length entry)
  then
    do rs <- map_m entry (fun handler =>
               LiveStore.wrappedActionHandler ah handler pl);
    ret (Thenable (Promise_all rs))
  else
    match entry with
    | handler :: _ => LiveStore.wrappedActionHandler ah handler pl
    | [] => throw TypeError
    end.

(** The callback returns, calls neither the store nor the console, and
    leaves the part [field] of the store as it found it. *)
Definition leaves_alone {A B : Type} (field : Store.Store -> B)
  (callback : M Store.Store A) : Prop :=
  forall s, exists a s', callback s = (Ok a, s', []) /\ field s' = field s.

(** The callback returns, whatever it does to the store. *)
Definition returns {A : Type} (callback : M Store.Store A) : Prop :=
  forall s, exists a s' evs, callback s = (Ok a, s', evs).

(** The callback returns when the store satisfies [inv], and leaves a
    store that satisfies [inv]. *)
Definition returns_keeping {A : Type} (inv : Store.Store -> Prop)
  (callback : M Store.Store A) : Prop :=
  forall s, inv s -> exists a s' evs, callback s = (Ok a, s', evs) /\ inv s'.

(** What the user's action handlers of [entry] return when they are called
    one after the other on [payload], the first one on the state tree [s]
    and each of the others on the tree its predecessor left. *)
Fixpoint action_returns (ah : nat -> value -> value -> returned * value)
  (payload : value) (entry : list nat) (s : value) : list returned :=
  match entry with
  | [] => []
  | h :: rest =>
      match ah h payload s with
      | (r, s') => r :: action_returns ah payload rest s'
      end
  end.

(** The state tree those calls leave. *)
Fixpoint action_state (ah : nat -> value -> value -> returned * value)
  (payload : value) (entry : list nat) (s : value) : value :=
  match entry with
  | [] => s
  | h :: rest =>
      match ah h payload s with
      | (_, s') => action_state ah payload rest s'
      end
  end.


(** The promise a wrapped action handler hands back for what the user's
    handler returned: a plain value is wrapped by [Promise.resolve], and
    with a devtool hook attached the promise is chained through the
    reporting [.catch]. *)
Definition as_promise (hook : bool) (r : returned) : promise :=
  let p := Promise_resolve r in
  if hook then catch_rethrow p else p.

(** A promise is fulfilled in turn [t] or before [T]. *)
Definition fulfilled_by (T : nat) (p : promise) : Prop :=
  exists t v, settlement p = Some (t, Fulfilled v) /\ t <= T.


(** The node that registering a raw definition yields: a fresh node for the
    definition with, under each key of its [modules], the node of that
    child definition. *)
Fixpoint built (runtime : bool) (raw : RawModule) : Module :=
  match modules raw with
  | None => new_Module raw runtime
  | Some children =>
      fold_left (fun m kc => addChild (fst kc) (built runtime (snd kc)) m)
        children (new_Module raw runtime)
  end.

(** A definition that the validation of a non-production build accepts:
    every getter and every mutation is a function, every action is a
    function or an object with a [handler] function, and so for the nested
    definitions. *)
Definition is_function (d : decl) : bool :=
  match d with DFun _ => true | _ => false end.

Definition is_action (d : decl) : bool :=
  match d with
  | DFun _ => true
  | DObj fields =>
      match assoc "handler" fields with
      | Some (DFun _) => true
      | _ => false
      end
  | DData _ => false
  end.

Definition table_ok (check : decl -> bool)
  (table : option (list (string * decl))) : bool :=
  match table with
  | None => true
  | Some entries => forallb (fun e => check (snd e)) entries
  end.

Fixpoint valid_definition (raw : RawModule) : bool :=
  table_ok is_function (getters raw)
  && table_ok is_function (mutations raw)
  && table_ok is_action (actions raw)
  && match modules raw with
     | None => true
     | Some children => forallb (fun kc => valid_definition (snd kc)) children
     end.

(** The collection in which [node] sits at [path]: as the root, or as the
    child of the node at the parent path. *)
Definition place (path : list string) (node : Module) (c : Collection)
  : Collection :=
  match path with
  | [] => {| root := Some node |}
  | _ => {| root := write_at (parent_path path)
                      (addChild (last_key path) node) <$> root c |}
  end.

(** [register (path, ...)] finds where to attach: the path is empty or its
    parent path resolves to a node. *)
Definition attachable (path : list string) (c : Collection) : Prop :=
  path = [] \/ exists parent, get (parent_path path) c = Ok (Some parent).

(** The reading of C7 on [unregister]: a node with the [runtime] flag is
    gone after [unregister]. *)
Definition unregister_always_detaches : Prop :=
  forall (path : list string) (c : Collection) (node : Module),
    get path c = Ok (Some node) ->
    runtime node = true ->
    get path (final (unregister path c)) = Ok None.

(** The reading of C4 on the other branches: when the new definition names
    a child that the live node lacks, a sibling that both have is still
    updated with its own new definition. *)
Definition siblings_still_updated : Prop :=
  forall (production : bool) (path : list string) (new : RawModule)
         (target : Module) (children : list (string * RawModule))
         (key sibling : string) (def sdef : RawModule) (child : Module),
    modules new = Some children ->
    assoc key children = Some def ->
    getChild key target = None ->
    sibling <> key ->
    assoc sibling children = Some sdef ->
    getChild sibling target = Some child ->
    getChild sibling (final (update_module production path new target)) =
      Some (final (update_module production (path ++ [sibling]) sdef child)).


(** What the console shows when a hot update meets a child key that the
    live node lacks. *)
Definition new_module_warning (production : bool) (key : string)
  : list event :=
  if production then []
  else [ConsoleWarn
          ("[vuex] trying to add a new module '" +:+ key
           +:+ "' on hot reloading, " +:+ "manual reload is needed")].


(** Every entry of a registry holds at least one handler. *)
Definition entries_nonempty (registry : gmap string (list nat)) : Prop :=
  forall type entry, registry !! type = Some entry -> entry <> [].


(** The event is a call of the mutation subscriber [fn]. *)
Definition notifies (fn : nat) (ev : event) : bool :=
  match ev with
  | SubscriberCalled sub _ _ _ => Nat.eqb sub fn
  | _ => false
  end.


(** Two trees have the same paths, and at each path nodes with the same
    state slice and the same [runtime] flag. *)
Definition same_skeleton (m m' : Module) : Prop :=
  forall path,
    match get_from path (Some m), get_from path (Some m') with
    | Ok (Some n), Ok (Some n') => state n = state n' /\ runtime n = runtime n'
    | Ok None, Ok None => True
    | Throw _, Throw _ => True
    | _, _ => False
    end.

(** Every node of the tree has the [runtime] flag [rt]. *)
Definition all_runtime (rt : bool) (m : Module) : Prop :=
  forall path n, get_from path (Some m) = Ok (Some n) -> runtime n = rt.

(** The two paths part ways: after a common prefix they go on with
    different keys. *)
Definition diverge (p q : list string) : Prop :=
  exists common k1 k2 p' q',
    k1 <> k2 /\ p = common ++ k1 :: p' /\ q = common ++ k2 :: q'.

(** No [modules] object of the definition, at any depth, has a property
    named ["hasOwnProperty"]. *)
Fixpoint plain_keys (raw : RawModule) : bool :=
  match modules raw with
  | None => true
  | Some children =>
      match assoc "hasOwnProperty" children with
      | Some _ => false
      | None => true
      end
      && forallb (fun kc => plain_keys (snd kc)) children
  end.

(** The definition's own tables pass the validation. *)
Definition tables_valid (raw : RawModule) : bool :=
  table_ok is_function (getters raw)
  && table_ok is_function (mutations raw)
  && table_ok is_action (actions raw).

End Spec.

(* ===================================================================== *)
(** ** Facts about namespaces                                             *)
(* ===================================================================== *)

Module NamespaceFacts.
Import ModuleNode ModuleCollection Spec.

Lemma append_assoc (a b c : string) : (a +:+ b) +:+ c = a +:+ (b +:+ c).
Proof.
  induction a as [|x a IH]; [reflexivity|].
  change (String x ((a +:+ b) +:+ c) = String x (a +:+ (b +:+ c))).
  now rewrite IH.
Qed.

Lemma append_empty_r (a : string) : a +:+ "" = a.
Proof.
  induction a as [|x a IH]; [reflexivity|].
  change (String x (a +:+ "") = String x a). now rewrite IH.
Qed.

Lemma concat_cons_empty (s : string) (l : list string) :
  String.concat "" (s :: l) = s +:+ String.concat "" l.
Proof.
  destruct l as [|s' l]; simpl.
  - now rewrite append_empty_r.
  - reflexivity.
Qed.

Lemma namespace_spec_cons key child nodes :
  namespace_spec ((key, child) :: nodes)
  = (if namespaced child then key +:+ "/" else "") +:+ namespace_spec nodes.
Proof.
  unfold namespace_spec. simpl.
  destruct (namespaced child); simpl; [|reflexivity].
  apply concat_cons_empty.
Qed.

Lemma get_from_nodes path : forall m node,
  get_from path (Some m) = Ok (Some node) ->
  exists nodes, nodes_along path m = Some nodes /\ List.map fst nodes = path.
Proof.
  induction path as [|key rest IH]; intros m node H; simpl in *.
  - exists []. split; reflexivity.
  - destruct (getChild key m) as [child|] eqn:Hc.
    + destruct (IH _ _ H) as (nodes & Hn & Hk).
      exists ((key, child) :: nodes). rewrite Hn. simpl. now rewrite Hk.
    + destruct rest; simpl in H; discriminate.
Qed.

Lemma getNamespace_from_nodes path : forall m nodes acc,
  nodes_along path m = Some nodes ->
  getNamespace_from path (Some m) acc = Ok (acc +:+ namespace_spec nodes).
Proof.
  induction path as [|key rest IH]; intros m nodes acc H; simpl in *.
  - inversion H; subst. unfold namespace_spec; simpl.
    now rewrite append_empty_r.
  - destruct (getChild key m) as [child|]; [|discriminate].
    destruct (nodes_along rest child) as [tl|] eqn:Htl; [|discriminate].
    inversion H; subst. rewrite (IH _ _ _ Htl).
    now rewrite namespace_spec_cons, append_assoc.
Qed.

Lemma namespace_spec_none nodes :
  List.forallb (fun kn => negb (namespaced (snd kn))) nodes = true ->
  namespace_spec nodes = "".
Proof.
  induction nodes as [|[k n] nodes IH]; simpl; intros H; [reflexivity|].
  apply andb_true_iff in H as [Hn Hrest].
  rewrite namespace_spec_cons.
  destruct (namespaced n); [discriminate|]. now apply IH.
Qed.

(** C6.  Whenever [path] resolves to a node of the tree, [getNamespace]
    returns the concatenation, from the root down, of [key + "/"] for the
    namespaced nodes along the path, and the empty string when none of
    them is namespaced. *)
Theorem getNamespace_is_namespace_spec (c : Collection) (path : list string)
  (node : Module) :
  get path c = Ok (Some node) ->
  exists r nodes,
    root c = Some r /\
    nodes_along path r = Some nodes /\
    List.map fst nodes = path /\
    getNamespace path c = Ok (namespace_spec nodes) /\
    (List.forallb (fun kn => negb (namespaced (snd kn))) nodes = true ->
     getNamespace path c = Ok "").
Proof.
  unfold get, getNamespace. intros H.
  destruct (root c) as [r|] eqn:Hr.
  - destruct (get_from_nodes _ _ _ H) as (nodes & Hn & Hk).
    exists r, nodes. repeat split; try assumption.
    + now rewrite (getNamespace_from_nodes _ _ _ "" Hn).
    + intros Hnone. rewrite (getNamespace_from_nodes _ _ _ "" Hn).
      now rewrite (namespace_spec_none _ Hnone).
  - destruct path; simpl in H; discriminate.
Qed.

Lemma getNamespace_is_namespace_spec_witness :
  get ["a"; "b"; "c"] Samples.tree_abcd <> Ok None /\
  getNamespace ["a"; "b"; "c"] Samples.tree_abcd = Ok "a/c/".
Proof.
  destruct (get ["a"; "b"; "c"] Samples.tree_abcd) as [[node|]|e] eqn:Hget;
    try (vm_compute in Hget; discriminate).
  split; [discriminate|].
  destruct (getNamespace_is_namespace_spec _ _ _ Hget)
    as (r & nodes & Hr & Hn & _ & Hns & _).
  rewrite Hns. vm_compute in Hr. inversion Hr; subst r.
  vm_compute in Hn. inversion Hn; subst nodes. reflexivity.
Defined.

End NamespaceFacts.

(* ===================================================================== *)
(** ** Facts about a module node                                          *)
(* ===================================================================== *)

Module ModuleNodeFacts.
Import ModuleNode.

(** C9.  [update] overwrites the [namespaced] field of the node's raw
    definition and each of the [actions], [mutations] and [getters] tables
    that the new definition carries; a table that the new definition does
    not carry is left as it was; the node's state slice and its children
    (and its [runtime] flag, and the raw [state] and [modules] fields) are
    not modified. *)
Theorem update_overwrites_present_keeps_rest (m : Module) (new : RawModule) :
  let m' := update new m in
  namespaced_field (_rawModule m') = namespaced_field new /\
  (forall t, actions new = Some t -> actions (_rawModule m') = Some t) /\
  (forall t, mutations new = Some t -> mutations (_rawModule m') = Some t) /\
  (forall t, getters new = Some t -> getters (_rawModule m') = Some t) /\
  (actions new = None -> actions (_rawModule m') = actions (_rawModule m)) /\
  (mutations new = None ->
   mutations (_rawModule m') = mutations (_rawModule m)) /\
  (getters new = None -> getters (_rawModule m') = getters (_rawModule m)) /\
  state m' = state m /\
  _children m' = _children m /\
  runtime m' = runtime m /\
  state_field (_rawModule m') = state_field (_rawModule m) /\
  modules (_rawModule m') = modules (_rawModule m).
Proof.
  unfold update; simpl.
  split; [reflexivity|].
  split; [intros t ->; reflexivity|].
  split; [intros t ->; reflexivity|].
  split; [intros t ->; reflexivity|].
  split; [intros ->; reflexivity|].
  split; [intros ->; reflexivity|].
  split; [intros ->; reflexivity|].
  repeat split.
Qed.

(** A node that carries mutations and getters receives a definition with
    new mutations and no getters. *)
Lemma update_overwrites_present_keeps_rest_witness :
  let old := {| namespaced_field := VBool true;
                state_field := StateValue (VObj [("count", VNum 0)]);
                getters := Some [("total", DFun 1)];
                mutations := Some [("increment", DFun 2)];
                actions := None; modules := None |} in
  let new := {| namespaced_field := VUndef;
                state_field := StateValue (VObj [("count", VNum 9)]);
                getters := None;
                mutations := Some [("increment", DFun 3)];
                actions := None; modules := None |} in
  let m' := update new (new_Module old true) in
  mutations (_rawModule m') = Some [("increment", DFun 3)] /\
  getters (_rawModule m') = Some [("total", DFun 1)] /\
  namespaced m' = false /\
  state m' = VObj [("count", VNum 0)].
Proof.
  intros old new m'.
  pose proof (update_overwrites_present_keeps_rest (new_Module old true) new)
    as (Hns & _ & Hmut & _ & _ & _ & Hget & Hstate & _).
  cbv zeta in Hns, Hmut, Hget, Hstate. subst m'.
  split; [apply Hmut; reflexivity|].
  split; [rewrite Hget; reflexivity|].
  split; [unfold namespaced; rewrite Hns; reflexivity|].
  rewrite Hstate. reflexivity.
Defined.

End ModuleNodeFacts.

(* ===================================================================== *)
(** ** Facts about subscriptions                                          *)
(* ===================================================================== *)

Module SubscribeFacts.
Import Store Spec.

Lemma indexOf_absent (fn : nat) (l : list nat) :
  fn ∉ l -> indexOf fn l = (-1)%Z.
Proof.
  induction l as [|x l IH]; intros Hnot; simpl; [reflexivity|].
  apply not_elem_of_cons in Hnot as [Hne Hl].
  destruct (Nat.eqb_spec x fn) as [->|_]; [congruence|].
  rewrite (IH Hl). reflexivity.
Qed.

Lemma indexOf_first (fn : nat) (l1 l2 : list nat) :
  fn ∉ l1 -> indexOf fn (l1 ++ fn :: l2) = Z.of_nat (length l1).
Proof.
  induction l1 as [|x l1 IH]; intros Hnot; simpl.
  - now rewrite Nat.eqb_refl.
  - apply not_elem_of_cons in Hnot as [Hne Hl].
    destruct (Nat.eqb_spec x fn) as [->|_]; [congruence|].
    rewrite (IH Hl).
    destruct (Z.ltb_spec (Z.of_nat (length l1)) 0); lia.
Qed.

Lemma elem_of_first_split (fn : nat) (l : list nat) :
  fn ∈ l -> exists l1 l2, l = l1 ++ fn :: l2 /\ fn ∉ l1.
Proof.
  induction l as [|x l IH]; intros Hin.
  - now apply elem_of_nil in Hin.
  - destruct (decide (x = fn)) as [->|Hne].
    + exists [], l. split; [reflexivity | apply not_elem_of_nil].
    + apply elem_of_cons in Hin as [->|Hin]; [congruence|].
      destruct (IH Hin) as (l1 & l2 & -> & Hl1).
      exists (x :: l1), l2. split; [reflexivity|].
      apply not_elem_of_cons. split; [congruence | assumption].
Qed.

Lemma splice1_first (fn : nat) (l1 l2 : list nat) :
  splice1 (Z.of_nat (length l1)) (l1 ++ fn :: l2) = l1 ++ l2.
Proof. unfold splice1. rewrite Nat2Z.id. apply delete_middle. Qed.

Lemma NoDup_remove_middle (fn : nat) (l1 l2 : list nat) :
  NoDup (l1 ++ fn :: l2) -> NoDup (l1 ++ l2) /\ fn ∉ l1 ++ l2.
Proof.
  intros H. apply NoDup_app in H as (H1 & H12 & H2).
  apply NoDup_cons in H2 as [Hfn H2].
  split.
  - apply NoDup_app. repeat split; try assumption.
    intros x Hx Hx2. apply (H12 x Hx). now right.
  - intros Hin. apply elem_of_app in Hin as [Hin|Hin]; [|contradiction].
    apply (H12 fn Hin). now left.
Qed.

Section Lens.

Context {S : Type} (subs : S -> list nat) (write : list nat -> S -> S).
Hypothesis subs_write : forall l s, subs (write l s) = l.

Lemma genericSubscribe_contract :
  subscription_contract (fun fn => genericSubscribe fn subs write) subs write.
Proof.
  intros fn s. eexists. split; [reflexivity|].
  split; [reflexivity|].
  unfold genericSubscribe, bind, modify, ret, final; simpl.
  split; [|split; [|split]].
  - intros Hin.
    destruct (elem_of_first_split _ _ Hin) as (l1 & l2 & Hl & Hl1).
    rewrite Hl, (indexOf_first _ _ _ Hl1).
    destruct (Z.ltb_spec (Z.of_nat (length l1)) 0); [lia | reflexivity].
  - intros Hnot. now rewrite (indexOf_absent _ _ Hnot).
  - intros Hnd. destruct (decide (fn ∈ subs s)) as [Hin|Hnot].
    + destruct (elem_of_first_split _ _ Hin) as (l1 & l2 & Hl & Hl1).
      rewrite Hl, (indexOf_first _ _ _ Hl1).
      destruct (Z.ltb_spec (Z.of_nat (length l1)) 0); [lia | assumption].
    + rewrite (indexOf_absent _ _ Hnot); simpl. rewrite subs_write.
      apply NoDup_app. repeat split; [assumption| |apply NoDup_singleton].
      intros x Hx Hx'. apply list_elem_of_singleton in Hx'. now subst.
  - intros t.
    assert (Habsent : fn ∉ subs t ->
                      (if (-1 <? indexOf fn (subs t))%Z
                       then write (splice1 (indexOf fn (subs t)) (subs t)) t
                       else t) = t).
    { intros Hnot. now rewrite (indexOf_absent _ _ Hnot). }
    assert (Hpresent : forall l1 l2, subs t = l1 ++ fn :: l2 -> fn ∉ l1 ->
                      (if (-1 <? indexOf fn (subs t))%Z
                       then write (splice1 (indexOf fn (subs t)) (subs t)) t
                       else t) = write (l1 ++ l2) t).
    { intros l1 l2 Hl Hl1. rewrite Hl, (indexOf_first _ _ _ Hl1).
      destruct (Z.ltb_spec (-1) (Z.of_nat (length l1))); [|lia].
      now rewrite splice1_first. }
    split; [reflexivity|]. split; [reflexivity|].
    split; [exact Habsent|]. split; [exact Hpresent|].
    intros Hnd. destruct (decide (fn ∈ subs t)) as [Hin|Hnot].
    + destruct (elem_of_first_split _ _ Hin) as (l1 & l2 & Hl & Hl1).
      rewrite (Hpresent _ _ Hl Hl1), subs_write.
      rewrite Hl in Hnd. destruct (NoDup_remove_middle _ _ _ Hnd) as [Hnd' Hgone].
      repeat split; [assumption..|].
      now rewrite (indexOf_absent _ _ Hgone).
    + rewrite (Habsent Hnot). repeat split; try assumption.
      now rewrite (Habsent Hnot).
Qed.

End Lens.

(** C8.  [subscribe] and [subscribeAction] register a callback once: a
    second subscription of a reference that is listed leaves the store as
    it is.  The closure they return removes the entry of that reference and
    changes nothing else; called when the reference is not listed, in
    particular a second time, it does nothing. *)
Theorem subscribe_once_unsubscribe_exactly :
  subscription_contract subscribe _subscribers set_subscribers /\
  subscription_contract subscribeAction _actionSubscribers
    set_actionSubscribers.
Proof.
  split.
  - apply genericSubscribe_contract. reflexivity.
  - apply genericSubscribe_contract. reflexivity.
Qed.

(** On the sample store, whose mutation subscribers are 20 and 21:
    [subscribe(21)] changes nothing, and the closure it returns removes 21
    once. *)
Lemma subscribe_once_unsubscribe_exactly_witness :
  exists unsubscribe : M Store unit,
    result (subscribe 21 Samples.sample_store) = Ok unsubscribe /\
    final (subscribe 21 Samples.sample_store) = Samples.sample_store /\
    final (unsubscribe Samples.sample_store)
    = set_subscribers [20] Samples.sample_store /\
    final (unsubscribe (final (unsubscribe Samples.sample_store)))
    = final (unsubscribe Samples.sample_store).
Proof.
  destruct subscribe_once_unsubscribe_exactly as [Hsub _].
  destruct (Hsub 21 Samples.sample_store)
    as (unsubscribe & Hres & _ & Hlisted & _ & _ & Hun).
  exists unsubscribe. split; [exact Hres|].
  split; [apply Hlisted; right; left|].
  destruct (Hun Samples.sample_store) as (_ & _ & _ & Hremove & Hagain).
  split.
  - apply (Hremove [20] []); [reflexivity|].
    intros Hin. apply elem_of_cons in Hin as [Hin|Hin]; [discriminate|].
    now apply elem_of_nil in Hin.
  - apply Hagain. repeat constructor.
    + intros Hin. apply elem_of_cons in Hin as [Hin|Hin]; [discriminate|].
      now apply elem_of_nil in Hin.
    + apply not_elem_of_nil.
Defined.

End SubscribeFacts.

(* ===================================================================== *)
(** ** Facts about [install]                                              *)
(* ===================================================================== *)

Module InstallFacts.
Import Store Spec.

(** C5, as stated, fails: after [install(1)], the call [install(2)] binds
    provider 2. *)
Lemma binding_changes_on_distinct_provider : ~ binding_never_changes.
Proof.
  intros H.
  specialize (H false 1 2 {| Vue := Some 1 |} eq_refl).
  vm_compute in H. discriminate.
Qed.

(** C5, amended.  The first [install] binds its provider and applies the
    mixin to it.  Once a provider [A] is bound, [install(A)] changes nothing
    and applies no mixin; it reports the diagnostic in a non-production
    build and nothing in a production build.  [install(B)] with another
    provider [B] binds [B] and applies the mixin to [B]. *)
Theorem install_same_is_noop_distinct_rebinds (production : bool) (A : nat)
  (g : Global) :
  (Vue g = None ->
   install production A g = (Ok tt, {| Vue := Some A |}, [MixinApplied A])) /\
  (Vue g = Some A ->
   install production A g =
     (Ok tt, g,
      if production then []
      else [ConsoleError
              "[vuex] already installed. Vue.use(Vuex) should be called only once."])) /\
  (forall B, Vue g = Some A -> B <> A ->
   install production B g = (Ok tt, {| Vue := Some B |}, [MixinApplied B])).
Proof.
  unfold install, bind, gets, modify, emit, when, ret; simpl.
  split; [|split].
  - intros ->. reflexivity.
  - intros ->. rewrite Nat.eqb_refl. now destruct production.
  - intros B -> Hne. apply Nat.eqb_neq in Hne. now rewrite Hne.
Qed.

Lemma install_same_is_noop_distinct_rebinds_witness :
  install false 1 {| Vue := Some 1 |} =
    (Ok tt, {| Vue := Some 1 |},
     [ConsoleError
        "[vuex] already installed. Vue.use(Vuex) should be called only once."]) /\
  install true 2 {| Vue := Some 1 |} =
    (Ok tt, {| Vue := Some 2 |}, [MixinApplied 2]).
Proof.
  split.
  - apply (install_same_is_noop_distinct_rebinds false 1 {| Vue := Some 1 |}).
    reflexivity.
  - refine (proj2 (proj2 (install_same_is_noop_distinct_rebinds true 1
                            {| Vue := Some 1 |})) 2 _ _).
    + reflexivity.
    + discriminate.
Defined.

End InstallFacts.

(* ===================================================================== *)
(** ** Facts about promises                                               *)
(* ===================================================================== *)

Module PromiseFacts.
Import Spec.

Lemma settlement_as_promise (hook : bool) (r : returned) :
  settlement (as_promise hook r) = await r.
Proof. destruct hook, r; reflexivity. Qed.

Lemma first_rejection_cons_None (x : promise) (ps : list promise) :
  first_rejection (x :: ps) = None ->
  (forall t e, settlement x <> Some (t, Rejected e)) /\
  first_rejection ps = None.
Proof.
  simpl. destruct (settlement x) as [[tx [vx|ex]]|].
  - intros H. split; [discriminate | assumption].
  - destruct (first_rejection ps) as [[a b]|].
    + destruct (Nat.ltb a tx); discriminate.
    + discriminate.
  - intros H. split; [discriminate | assumption].
Qed.

Lemma first_rejection_None (ps : list promise) :
  first_rejection ps = None ->
  forall p t e, p ∈ ps -> settlement p <> Some (t, Rejected e).
Proof.
  induction ps as [|x ps IH]; intros H p t e Hin.
  - now apply elem_of_nil in Hin.
  - apply first_rejection_cons_None in H as [Hx Hps].
    apply elem_of_cons in Hin as [->|Hin]; [apply Hx | now apply IH].
Qed.

(** The rejection [Promise.all] picks is one of the rejections, and no
    rejection comes earlier. *)
Lemma first_rejection_Some (ps : list promise) : forall t e,
  first_rejection ps = Some (t, e) ->
  (exists p, p ∈ ps /\ settlement p = Some (t, Rejected e)) /\
  (forall p t' e', p ∈ ps -> settlement p = Some (t', Rejected e') -> t <= t').
Proof.
  induction ps as [|p ps IH]; intros t e H; [discriminate|].
  simpl in H.
  destruct (settlement p) as [[tp [v|ep]]|] eqn:Hp.
  - destruct (IH _ _ H) as [(q & Hq & Hs) Hmin]. split.
    + exists q. split; [now right | assumption].
    + intros q' t' e' Hin Hs'. apply elem_of_cons in Hin as [->|Hin].
      * congruence.
      * eauto.
  - destruct (first_rejection ps) as [[t1 e1]|] eqn:Hrest.
    + destruct (IH _ _ eq_refl) as [(q & Hq & Hs) Hmin].
      destruct (Nat.ltb_spec t1 tp) as [Hlt|Hge]; inversion H; subst; split.
      * exists q. split; [now right | assumption].
      * intros q' t' e' Hin Hs'. apply elem_of_cons in Hin as [->|Hin].
        -- rewrite Hp in Hs'. inversion Hs'; subst. lia.
        -- eauto.
      * exists p. split; [now left | assumption].
      * intros q' t' e' Hin Hs'. apply elem_of_cons in Hin as [->|Hin].
        -- rewrite Hp in Hs'. inversion Hs'; subst. lia.
        -- specialize (Hmin _ _ _ Hin Hs'). lia.
    + inversion H; subst. split.
      * exists p. split; [now left | assumption].
      * intros q' t' e' Hin Hs'. apply elem_of_cons in Hin as [->|Hin].
        -- rewrite Hp in Hs'. inversion Hs'; subst. lia.
        -- exfalso. exact (first_rejection_None _ Hrest _ _ _ Hin Hs').
  - destruct (IH _ _ H) as [(q & Hq & Hs) Hmin]. split.
    + exists q. split; [now right | assumption].
    + intros q' t' e' Hin Hs'. apply elem_of_cons in Hin as [->|Hin].
      * congruence.
      * eauto.
Qed.

Lemma all_fulfilled_Some (ps : list promise) : forall T vs,
  all_fulfilled ps = Some (T, vs) ->
  Forall (fulfilled_by T) ps /\
  Forall2 (fun p v => exists t, settlement p = Some (t, Fulfilled v)) ps vs.
Proof.
  induction ps as [|p ps IH]; intros T vs H; simpl in H.
  - inversion H; subst. split; constructor.
  - destruct (settlement p) as [[tp [v|ep]]|] eqn:Hp; try discriminate.
    destruct (all_fulfilled ps) as [[T' vs']|]; [|discriminate].
    inversion H; subst. destruct (IH _ _ eq_refl) as [Hall Hvals].
    split.
    + constructor.
      * exists tp, v. split; [assumption | lia].
      * eapply Forall_impl; [exact Hall|].
        intros q (t & w & Hq & Hle). exists t, w. split; [assumption | lia].
    + constructor; [now exists tp | assumption].
Qed.

Lemma all_fulfilled_total (ps : list promise) :
  Forall (fun p => exists t v, settlement p = Some (t, Fulfilled v)) ps ->
  exists T vs, all_fulfilled ps = Some (T, vs).
Proof.
  induction 1 as [|p ps (t & v & Hp) _ (T & vs & IH)]; simpl.
  - now exists 0, [].
  - rewrite Hp, IH. now exists (Nat.max t T), (v :: vs).
Qed.

(** [Promise.all] is fulfilled only once every promise is, with their
    values in order. *)
Lemma resolve_thenable (ps : list promise) :
  List.map Promise_resolve (List.map Thenable ps) = ps.
Proof. induction ps as [|p ps IH]; simpl; [reflexivity | now rewrite IH]. Qed.

Lemma Promise_all_fulfilled (ps : list promise) (T : nat) (v : value) :
  settlement (Promise_all (List.map Thenable ps)) = Some (T, Fulfilled v) ->
  Forall (fulfilled_by T) ps /\
  exists vs, v = VArr vs /\
    Forall2 (fun p w => exists t, settlement p = Some (t, Fulfilled w)) ps vs.
Proof.
  unfold Promise_all; simpl. rewrite resolve_thenable.
  destruct (first_rejection ps) as [[t e]|]; [discriminate|].
  destruct (all_fulfilled ps) as [[T' vs]|] eqn:Hall; [|discriminate].
  intros H; inversion H; subst.
  destruct (all_fulfilled_Some _ _ _ Hall). eauto.
Qed.

(** [Promise.all] is rejected as soon as one of the promises is: in the
    turn of the earliest rejection, with the reason of a promise rejected in
    that turn, whatever the others do. *)
Lemma Promise_all_rejected (ps : list promise) (p : promise) (t : nat)
  (e : value) :
  p ∈ ps -> settlement p = Some (t, Rejected e) ->
  exists t' e' p',
    settlement (Promise_all (List.map Thenable ps))
    = Some (t', Rejected e') /\
    t' <= t /\ p' ∈ ps /\ settlement p' = Some (t', Rejected e') /\
    (forall q tq eq, q ∈ ps -> settlement q = Some (tq, Rejected eq) ->
                     t' <= tq).
Proof.
  intros Hin Hs. unfold Promise_all; simpl. rewrite resolve_thenable.
  destruct (first_rejection ps) as [[t' e']|] eqn:Hfr.
  - destruct (first_rejection_Some _ _ _ Hfr) as [(p' & Hp' & Hs') Hmin].
    exists t', e', p'. repeat split; eauto.
  - exfalso. exact (first_rejection_None _ Hfr _ _ _ Hin Hs).
Qed.

(** When every promise is fulfilled, so is [Promise.all]. *)
Lemma Promise_all_total (ps : list promise) :
  Forall (fun p => exists t v, settlement p = Some (t, Fulfilled v)) ps ->
  exists T vs,
    settlement (Promise_all (List.map Thenable ps))
    = Some (T, Fulfilled (VArr vs)).
Proof.
  intros H. unfold Promise_all; simpl. rewrite resolve_thenable.
  destruct (first_rejection ps) as [[t e]|] eqn:Hfr.
  - destruct (first_rejection_Some _ _ _ Hfr) as [(p & Hp & Hs) _].
    rewrite Forall_forall in H. destruct (H _ Hp) as (t' & v & Hv). congruence.
  - destruct (all_fulfilled_total _ H) as (T & vs & ->). eauto.
Qed.

End PromiseFacts.

(* ===================================================================== *)
(** ** Facts about [commit] and [dispatch]                                *)
(* ===================================================================== *)

Module StoreFacts.
Import Util Store Spec.

Lemma set_committing_state_committing (c : bool) (s : value) (st : Store) :
  set_committing c (set_state s (set_committing true st))
  = set_state s (set_committing c st).
Proof. reflexivity. Qed.

Lemma set_committing_same (st : Store) : set_committing (_committing st) st = st.
Proof. now destruct st. Qed.

Lemma set_state_same (st : Store) : set_state (state st) st = st.
Proof. now destruct st. Qed.

(** [unifyObjectStyle] leaves the state alone and emits nothing; it throws
    only through the type assertion of a non-production build. *)
Lemma unifyObjectStyle_run {S : Type} (production : bool) (ty pl op : value)
  (s : S) :
  let u := if isObject ty && truthy (get_field "type" ty)
           then {| type := get_field "type" ty; payload := ty; options := pl |}
           else {| type := ty; payload := pl; options := op |} in
  unifyObjectStyle production ty pl op s =
    if production || is_string (type u) then (Ok u, s, [])
    else (Throw (AssertionError
                   ("expects string as the type, but found "
                    +:+ typeof (type u) +:+ ".")), s, []).
Proof.
  intros u. unfold unifyObjectStyle. fold u.
  unfold bind, when, assert, ret, throw.
  destruct production; simpl; [reflexivity|].
  destruct (is_string (type u)); reflexivity.
Qed.

Section Handlers.

Variable production : bool.
Variable mh : nat -> value -> value -> value.
Variable ah : nat -> value -> value -> returned * value.

(** The handler loop of [commit]: every handler of the entry runs, in
    order, and sees the flag as the loop found it. *)
Lemma mutation_loop (payload : value) (entry : list nat) : forall st : Store,
  for_each entry (fun h => wrappedMutationHandler mh h payload) st =
    (Ok tt,
     set_state (fold_left (fun s h => mh h payload s) entry (state st)) st,
     List.map (fun h => MutationCalled h payload (_committing st)) entry).
Proof.
  induction entry as [|h entry IH]; intros st.
  - simpl. unfold ret. now rewrite set_state_same.
  - unfold for_each in *. cbn [List.map fold_left].
    unfold bind at 1. unfold wrappedMutationHandler at 1.
    unfold bind, gets, emit, modify. simpl.
    rewrite IH. reflexivity.
Qed.

Lemma subscriber_loop (t p : value) (subs : list nat) : forall st : Store,
  for_each subs (fun sub =>
    do s <- gets state; emit (SubscriberCalled sub t p s)) st =
    (Ok tt, st, List.map (fun sub => SubscriberCalled sub t p (state st)) subs).
Proof.
  induction subs as [|sub subs IH]; intros st; [reflexivity|].
  unfold for_each in *. cbn [List.map].
  unfold bind at 1. unfold bind at 1. unfold gets, emit. simpl.
  rewrite IH. reflexivity.
Qed.

Lemma action_subscriber_loop (t p : value) (subs : list nat) :
  forall st : Store,
  for_each subs (fun sub =>
    do s <- gets state; emit (ActionSubscriberCalled sub t p s)) st =
    (Ok tt, st,
     List.map (fun sub => ActionSubscriberCalled sub t p (state st)) subs).
Proof.
  induction subs as [|sub subs IH]; intros st; [reflexivity|].
  unfold for_each in *. cbn [List.map].
  unfold bind at 1. unfold bind at 1. unfold gets, emit. simpl.
  rewrite IH. reflexivity.
Qed.

(** [commit] once normalisation has returned [u]. *)
Lemma commit_run (ty pl op : value) (st : Store) (u : unified) :
  unifyObjectStyle production ty pl op st = (Ok u, st, []) ->
  commit production mh ty pl op st =
    match _mutations st !! to_string (type u) with
    | None =>
        (Ok tt, st,
         if production then []
         else [ConsoleError
                 ("[vuex] unknown mutation type: " +:+ to_string (type u))])
    | Some entry =>
        let s' := fold_left (fun s h => mh h (payload u) s) entry (state st) in
        (Ok tt, set_state s' st,
         List.map (fun h => MutationCalled h (payload u) true) entry
         ++ List.map (fun sub => SubscriberCalled sub (type u) (payload u) s')
              (_subscribers st)
         ++ (if negb production && truthy (options u)
                && truthy (get_field "silent" (options u))
             then [ConsoleWarn
                     ("[vuex] mutation type: " +:+ to_string (type u)
                      +:+ ". Silent option has been removed. "
                      +:+ "Use the filter functionality in the vue-devtools")]
             else []))
    end.
Proof.
  intros Hu. unfold commit. unfold bind at 1. rewrite Hu.
  unfold bind at 1. unfold gets at 1.
  destruct (_mutations st !! to_string (type u)) as [entry|].
  - unfold bind at 1. unfold _withCommit.
    unfold bind at 1. unfold gets at 1.
    unfold bind at 1. unfold modify at 1.
    unfold bind at 1. rewrite mutation_loop.
    unfold modify at 1. cbn [fst snd].
    rewrite set_committing_state_committing, set_committing_same.
    unfold bind at 1. unfold bind at 1. unfold gets at 1.
    rewrite subscriber_loop.
    unfold when, emit, ret. cbn.
    destruct (negb production && truthy (options u)
              && truthy (get_field "silent" (options u)));
      cbn; rewrite ?app_nil_r; reflexivity.
  - unfold when, emit, ret. destruct production; reflexivity.
Qed.

End Handlers.

Section Dispatch.

Variable production : bool.
Variable ah : nat -> value -> value -> returned * value.

Lemma action_call (payload : value) (h : nat) (st : Store) :
  wrappedActionHandler ah h payload st =
    (Ok (Thenable (as_promise (_devtoolHook st)
                     (fst (ah h payload (state st))))),
     set_state (snd (ah h payload (state st))) st,
     [ActionCalled h payload]).
Proof.
  unfold wrappedActionHandler, bind, gets, emit, ret. simpl.
  destruct (ah h payload (state st)) as [r s']. simpl.
  unfold as_promise. destruct r, (_devtoolHook st); reflexivity.
Qed.

Lemma map_m_cons {S A B : Type} (a : A) (l : list A) (f : A -> M S B) :
  map_m (a :: l) f = (do b <- f a; do bs <- map_m l f; ret (b :: bs)).
Proof. reflexivity. Qed.

(** The handler loop of [dispatch]: every handler of the entry is called,
    in order, and yields a promise. *)
Lemma action_loop (payload : value) (entry : list nat) : forall st : Store,
  map_m entry (fun h => wrappedActionHandler ah h payload) st =
    (Ok (List.map (fun r => Thenable (as_promise (_devtoolHook st) r))
           (action_returns ah payload entry (state st))),
     set_state (action_state ah payload entry (state st)) st,
     List.map (fun h => ActionCalled h payload) entry).
Proof.
  induction entry as [|h entry IH]; intros st.
  - simpl. unfold ret. now rewrite set_state_same.
  - rewrite map_m_cons. unfold bind at 1. rewrite action_call.
    unfold bind at 1. rewrite IH. unfold ret.
    cbn [List.map action_returns action_state].
    destruct (ah h payload (state st)) as [r s']. cbn.
    now rewrite app_nil_r.
Qed.

(** [dispatch] once normalisation has returned [u]. *)
Lemma dispatch_run (ty pl : value) (st : Store) (u : unified) :
  unifyObjectStyle production ty pl VUndef st = (Ok u, st, []) ->
  dispatch production ah ty pl st =
    match _actions st !! to_string (type u) with
    | None =>
        (Ok (Plain VUndef), st,
         if production then []
         else [ConsoleError
                 ("[vuex] unknown action type: " +:+ to_string (type u))])
    | Some entry =>
        let notified :=
          List.map (fun sub =>
                      ActionSubscriberCalled sub (type u) (payload u) (state st))
            (_actionSubscribers st) in
        let called := List.map (fun h => ActionCalled h (payload u)) entry in
        let rs := action_returns ah (payload u) entry (state st) in
        let ps := List.map (as_promise (_devtoolHook st)) rs in
        let st' := set_state (action_state ah (payload u) entry (state st)) st in
        match entry with
        | [] => (Throw TypeError, st, notified)
        | [h] => (Ok (Thenable (as_promise (_devtoolHook st)
                                  (fst (ah h (payload u) (state st))))),
                  st', notified ++ called)
        | _ => (Ok (Thenable (Promise_all (List.map Thenable ps))), st',
                notified ++ called)
        end
    end.
Proof.
  intros Hu. unfold dispatch. unfold bind at 1. rewrite Hu.
  unfold bind at 1. unfold gets at 1.
  destruct (_actions st !! to_string (type u)) as [entry|].
  - unfold bind at 1. unfold bind at 1. unfold gets at 1.
    rewrite action_subscriber_loop. cbn [fst snd app].
    destruct entry as [|h [|h' entry]].
    + cbn. now rewrite app_nil_r.
    + cbn [length Nat.ltb Nat.leb]. rewrite action_call.
      cbn. destruct (ah h (payload u) (state st)); reflexivity.
    + cbn [length Nat.ltb Nat.leb]. unfold bind at 1. rewrite action_loop.
      unfold ret. cbn [fst snd]. rewrite app_nil_r, map_map. reflexivity.
  - unfold bind, when, emit, ret. destruct production; reflexivity.
Qed.

End Dispatch.

Lemma action_returns_length (ah : nat -> value -> value -> returned * value)
  (payload : value) (entry : list nat) : forall s,
  length (action_returns ah payload entry s) = length entry.
Proof.
  induction entry as [|h entry IH]; intros s; [reflexivity|].
  simpl. destruct (ah h payload s). simpl. now rewrite IH.
Qed.

(** C2.  Let [dispatch] be called with arguments whose normalisation
    returns [u], on a type with a registered entry.  With exactly one
    handler the result is the promise of that handler itself: it settles as
    what the handler returned.  With two or more, every handler is called,
    in order, and the result is [Promise.all] of their promises: it is
    fulfilled only once each of them is, it is fulfilled when all of them
    are, and it is rejected no later than any of them is.  In both cases
    the promise of a handler settles as the handler's return value awaits,
    a plain value being fulfilled at once, and the result of [dispatch] is
    a promise. *)
Theorem dispatch_single_result_or_aggregate (production : bool)
  (ah : nat -> value -> value -> returned * value) (ty pl : value)
  (st : Store) (u : unified) (entry : list nat) :
  unifyObjectStyle production ty pl VUndef st = (Ok u, st, []) ->
  _actions st !! to_string (type u) = Some entry ->
  let hook := _devtoolHook st in
  let rs := action_returns ah (payload u) entry (state st) in
  let ps := List.map (as_promise hook) rs in
  let all := Promise_all (List.map Thenable ps) in
  let out := dispatch production ah ty pl st in
  (forall h, entry = [h] ->
     let r := fst (ah h (payload u) (state st)) in
     result out = Ok (Thenable (as_promise hook r)) /\
     await (Thenable (as_promise hook r)) = await r) /\
  (2 <= length entry ->
     result out = Ok (Thenable all) /\
     length ps = length entry /\
     (exists notified,
        events out = notified
                     ++ List.map (fun h => ActionCalled h (payload u)) entry) /\
     (forall T v, settlement all = Some (T, Fulfilled v) ->
                  Forall (fulfilled_by T) ps) /\
     (Forall (fun p => exists t v, settlement p = Some (t, Fulfilled v)) ps ->
      exists T vs, settlement all = Some (T, Fulfilled (VArr vs))) /\
     (forall p t e, p ∈ ps -> settlement p = Some (t, Rejected e) ->
        exists t' e', settlement all = Some (t', Rejected e') /\ t' <= t)) /\
  Forall2 (fun r p => settlement p = await r) rs ps /\
  (forall v, settlement (as_promise hook (Plain v)) = Some (0, Fulfilled v)) /\
  (entry <> [] -> exists p, result out = Ok (Thenable p)).
Proof.
  intros Hu Hentry hook rs ps all out.
  assert (Hlen : length rs = length entry)
    by apply action_returns_length.
  subst out. rewrite (dispatch_run production ah _ _ _ _ Hu), Hentry.
  cbv zeta. fold hook. fold rs. fold ps. fold all.
  split; [|split; [|split; [|split]]].
  - intros h ->. split; [reflexivity|].
    apply PromiseFacts.settlement_as_promise.
  - intros Hge. destruct entry as [|h [|h' entry]]; simpl in Hge; try lia.
    split; [reflexivity|].
    split; [subst ps; now rewrite length_map|].
    split; [eexists; reflexivity|].
    split; [|split].
    + intros T v Hs. now apply PromiseFacts.Promise_all_fulfilled in Hs.
    + apply PromiseFacts.Promise_all_total.
    + intros p t e Hin Hs.
      destruct (PromiseFacts.Promise_all_rejected _ _ _ _ Hin Hs)
        as (t' & e' & _ & Hagg & Hle & _).
      eauto.
  - subst ps. clear. induction rs as [|r rs IH]; constructor; [|exact IH].
    apply PromiseFacts.settlement_as_promise.
  - intros v. now destruct hook.
  - intros Hne. destruct entry as [|h [|h' entry]]; [congruence| |];
      eexists; reflexivity.
Qed.

(** [dispatch('sync')] on the sample store: handlers 2, 3 and 4 return
    promises fulfilled in turn 3, rejected in turn 2 and fulfilled in
    turn 1; the aggregate is rejected in turn 2.  [dispatch('load')]: the
    only handler returns the plain value 1. *)
Lemma dispatch_single_result_or_aggregate_witness :
  (exists p, result (dispatch false Samples.sample_action (VStr "sync")
                       VUndef Samples.sample_store) = Ok (Thenable p) /\
             settlement p = Some (2, Rejected (VStr "three"))) /\
  (exists p, result (dispatch false Samples.sample_action (VStr "load")
                       VUndef Samples.sample_store) = Ok (Thenable p) /\
             settlement p = Some (0, Fulfilled (VNum 1))).
Proof.
  split.
  - assert (Hentry : _actions Samples.sample_store !! "sync" = Some [2; 3; 4])
      by (vm_compute; reflexivity).
    pose proof (dispatch_single_result_or_aggregate false
                  Samples.sample_action (VStr "sync") VUndef
                  Samples.sample_store
                  {| type := VStr "sync"; payload := VUndef;
                     options := VUndef |} [2; 3; 4] eq_refl Hentry)
      as (_ & Hmany & _).
    destruct Hmany as (Hres & _); [simpl; lia|].
    eexists. split; [exact Hres | reflexivity].
  - assert (Hentry : _actions Samples.sample_store !! "load" = Some [1])
      by (vm_compute; reflexivity).
    pose proof (dispatch_single_result_or_aggregate false
                  Samples.sample_action (VStr "load") VUndef
                  Samples.sample_store
                  {| type := VStr "load"; payload := VUndef;
                     options := VUndef |} [1] eq_refl Hentry)
      as (Hone & _).
    destruct (Hone 1 eq_refl) as (Hres & _).
    eexists. split; [exact Hres | reflexivity].
Defined.

End StoreFacts.

(* ===================================================================== *)
(** ** Facts about the module tree                                        *)
(* ===================================================================== *)

Module TreeFacts.
Import Util ModuleNode ModuleCollection Spec.

(** *** Induction on raw definitions, through the [modules] table *)

Section RawModuleInduction.

Variable P : RawModule -> Prop.
Hypothesis step :
  forall raw,
    (forall children, modules raw = Some children ->
                      Forall (fun kc => P (snd kc)) children) ->
    P raw.

Lemma RawModule_nested_ind : forall raw, P raw.
Proof.
  fix IH 1. intros raw. apply step.
  destruct raw as [ns sf g mu ac [l|]]; simpl; intros children E;
    [|discriminate].
  injection E as <-.
  induction l as [|kc l IHl]; constructor; [apply IH | exact IHl].
Qed.

End RawModuleInduction.

(** *** Reading and writing along a path *)

Lemma addChild_addChild (k : string) (a b m : Module) :
  addChild k a (addChild k b m) = addChild k a m.
Proof. unfold addChild; simpl. f_equal. apply insert_insert_eq. Qed.

Lemma getChild_addChild (k : string) (a m : Module) :
  getChild k (addChild k a m) = Some a.
Proof. unfold getChild, addChild; simpl. apply lookup_insert_eq. Qed.

Lemma getChild_addChild_ne (k k' : string) (a m : Module) :
  k <> k' -> getChild k' (addChild k a m) = getChild k' m.
Proof. intros H. unfold getChild, addChild; simpl. now apply lookup_insert_ne. Qed.

Lemma getChild_removeChild (k : string) (m : Module) :
  getChild k (removeChild k m) = None.
Proof. unfold getChild, removeChild; simpl. apply lookup_delete_eq. Qed.

Lemma get_from_None (p : list string) (n : Module) :
  get_from p None <> Ok (Some n).
Proof. destruct p; simpl; discriminate. Qed.

Lemma get_from_app (p : list string) (k : string) : forall m,
  get_from (p ++ [k]) m =
    match get_from p m with
    | Ok (Some n) => Ok (getChild k n)
    | Ok None => Throw TypeError
    | Throw e => Throw e
    end.
Proof.
  induction p as [|k0 p IH]; intros m; simpl.
  - now destruct m.
  - destruct m as [n|]; [apply IH | reflexivity].
Qed.

Lemma get_from_write_at (p : list string) (f : Module -> Module) : forall m n,
  get_from p (Some m) = Ok (Some n) ->
  get_from p (Some (write_at p f m)) = Ok (Some (f n)).
Proof.
  induction p as [|k p IH]; intros m n H; simpl in *.
  - now inversion H.
  - destruct (getChild k m) as [child|] eqn:Hc.
    + rewrite getChild_addChild. now apply IH.
    + now apply get_from_None in H.
Qed.

Lemma write_at_write_at (p : list string) (f g : Module -> Module) :
  forall m n,
  get_from p (Some m) = Ok (Some n) ->
  write_at p g (write_at p f m) = write_at p (fun x => g (f x)) m.
Proof.
  induction p as [|k p IH]; intros m n H; simpl in *; [reflexivity|].
  destruct (getChild k m) as [child|] eqn:Hc.
  - rewrite getChild_addChild, addChild_addChild. f_equal. now apply (IH _ n).
  - now apply get_from_None in H.
Qed.

Lemma write_at_ext (p : list string) (f g : Module -> Module) : forall m n,
  get_from p (Some m) = Ok (Some n) ->
  f n = g n ->
  write_at p f m = write_at p g m.
Proof.
  induction p as [|k p IH]; intros m n H Hfg; simpl in *.
  - now inversion H; subst.
  - destruct (getChild k m) as [child|] eqn:Hc; [|reflexivity].
    f_equal. now apply (IH _ n).
Qed.

Lemma write_at_app (p : list string) (k : string) (f : Module -> Module) :
  forall m,
  write_at (p ++ [k]) f m =
    write_at p (fun parent =>
                  match getChild k parent with
                  | Some ch => addChild k (f ch) parent
                  | None => parent
                  end) m.
Proof.
  induction p as [|k0 p IH]; intros m; simpl; [reflexivity|].
  destruct (getChild k0 m); [now rewrite IH | reflexivity].
Qed.

Lemma parent_path_app (p : list string) (k : string) :
  parent_path (p ++ [k]) = p.
Proof. apply removelast_last. Qed.

Lemma last_key_app (p : list string) (k : string) : last_key (p ++ [k]) = k.
Proof.
  unfold last_key. destruct (p ++ [k]) eqn:E.
  - now destruct p.
  - rewrite <- E. apply last_last.
Qed.

Lemma path_split (p : list string) :
  p <> [] -> p = parent_path p ++ [last_key p].
Proof.
  intros H. unfold parent_path, last_key.
  destruct p; [congruence|]. now apply app_removelast_last.
Qed.

(** *** Where [register] puts a node *)

Lemma place_app (p : list string) (k : string) (n : Module) (c : Collection) :
  place (p ++ [k]) n c
  = {| root := write_at p (addChild k n) <$> root c |}.
Proof.
  unfold place. destruct (p ++ [k]) eqn:E; [now destruct p|].
  rewrite <- E. now rewrite parent_path_app, last_key_app.
Qed.

Lemma attachable_cases (path : list string) (c : Collection) :
  attachable path c ->
  path = [] \/
  exists p k parent, path = p ++ [k] /\ get p c = Ok (Some parent).
Proof.
  intros [->|(parent & Hp)]; [now left|].
  destruct path as [|k0 p0] eqn:E; [now left|]. rewrite <- E in *.
  right. exists (parent_path path), (last_key path), parent.
  split; [|assumption]. apply path_split. rewrite E. discriminate.
Qed.

Lemma get_place (path : list string) (n : Module) (c : Collection) :
  attachable path c -> get path (place path n c) = Ok (Some n).
Proof.
  intros H. apply attachable_cases in H as [->|(p & k & parent & -> & Hp)];
    [reflexivity|].
  rewrite place_app. unfold get in *. cbn [root].
  destruct (root c) as [r|]; [|now apply get_from_None in Hp].
  cbn [fmap option_fmap option_map].
  rewrite get_from_app, (get_from_write_at _ _ _ _ Hp).
  now rewrite getChild_addChild.
Qed.

Lemma place_place (path : list string) (n n' : Module) (c : Collection) :
  attachable path c -> place path n' (place path n c) = place path n' c.
Proof.
  intros H. apply attachable_cases in H as [->|(p & k & parent & -> & Hp)];
    [reflexivity|].
  rewrite !place_app. unfold get in Hp. cbn [root].
  destruct (root c) as [r|]; [|reflexivity].
  cbn [fmap option_fmap option_map]. do 2 f_equal.
  rewrite (write_at_write_at _ _ _ _ _ Hp).
  apply (write_at_ext _ _ _ _ _ Hp). apply addChild_addChild.
Qed.

Lemma place_child (path : list string) (k : string) (x n : Module)
  (c : Collection) :
  get path c = Ok (Some n) ->
  place (path ++ [k]) x c = place path (addChild k x n) c.
Proof.
  intros Hn. rewrite place_app. unfold get in Hn.
  destruct (root c) as [r|] eqn:Hr; [|now apply get_from_None in Hn].
  cbn [fmap option_fmap option_map].
  destruct (decide (path = [])) as [->|Hne].
  - simpl in Hn. inversion Hn; subst. reflexivity.
  - rewrite (path_split _ Hne) in *.
    set (pp := parent_path path) in *. set (k0 := last_key path) in *.
    rewrite place_app, Hr. cbn [fmap option_fmap option_map]. do 2 f_equal.
    rewrite get_from_app in Hn.
    destruct (get_from pp (Some r)) as [[parent|]|e] eqn:Hp;
      try discriminate.
    rewrite write_at_app. apply (write_at_ext _ _ _ _ _ Hp).
    inversion Hn as [Hc]. now rewrite Hc.
Qed.

Lemma attachable_child (path : list string) (k : string) (n : Module)
  (c : Collection) :
  get path c = Ok (Some n) -> attachable (path ++ [k]) c.
Proof. intros H. right. exists n. now rewrite parent_path_app. Qed.

(** *** [register] *)

Section Register.

Variable production : bool.
Variable runtime : bool.

Lemma forEachValue_cons {S A : Type} (k : string) (a : A)
  (l : list (string * A)) (fn : A -> string -> M S unit) :
  forEachValue ((k, a) :: l) fn = (fn a k >> forEachValue l fn).
Proof. reflexivity. Qed.

Lemma assertTable_ok {S : Type} (path : list string) (key : string)
  (check : decl -> res bool) (ok : decl -> bool)
  (table : option (list (string * decl))) (s : S) :
  (forall d, ok d = true -> check d = Ok true) ->
  table_ok ok table = true ->
  assertTable path key check table s = (Ok tt, s, []).
Proof.
  intros Hcheck. destruct table as [entries|]; [|reflexivity].
  unfold assertTable, table_ok.
  induction entries as [|[type v] entries IH]; intros Hok; [reflexivity|].
  simpl in Hok. apply andb_true_iff in Hok as [Hv Hrest].
  rewrite forEachValue_cons. unfold bind. rewrite (Hcheck _ Hv).
  cbn. now rewrite (IH Hrest).
Qed.

Lemma assertRawModule_ok {S : Type} (path : list string) (raw : RawModule)
  (s : S) :
  production = true \/ valid_definition raw = true ->
  when (negb production) (assertRawModule path raw) s = (Ok tt, s, []).
Proof.
  intros [->|Hvalid]; [reflexivity|].
  destruct production; [reflexivity|]. cbn [negb when].
  destruct raw as [ns sf g mu ac ms]. simpl in Hvalid.
  apply andb_true_iff in Hvalid as [Hvalid _].
  apply andb_true_iff in Hvalid as [Hvalid Hac].
  apply andb_true_iff in Hvalid as [Hg Hmu].
  unfold assertRawModule. cbn [getters mutations actions].
  unfold bind.
  rewrite (assertTable_ok path "getters" functionAssert is_function g s);
    [|now intros [] | assumption].
  rewrite (assertTable_ok path "mutations" functionAssert is_function mu s);
    [|now intros [] | assumption].
  rewrite (assertTable_ok path "actions" objectAssert is_action ac s);
    [reflexivity| |assumption].
  intros [f|fields|v]; simpl; try discriminate; [reflexivity|].
  destruct (assoc "handler" fields) as [[]|]; (reflexivity || discriminate).
Qed.

Lemma assertTable_pure {S : Type} (path : list string) (key : string)
  (check : decl -> res bool) (table : option (list (string * decl))) (s : S) :
  exists r, assertTable path key check table s = (r, s, []).
Proof.
  destruct table as [entries|]; [|now eexists].
  unfold assertTable.
  induction entries as [|[type v] entries [r IH]]; [now eexists|].
  rewrite forEachValue_cons. unfold bind.
  destruct (check v) as [[]|e]; cbn.
  - rewrite IH. now eexists.
  - now eexists.
  - now eexists.
Qed.

(** The validation reads the definition and nothing else: it returns or
    throws, without a trace. *)
Lemma assertRawModule_pure {S : Type} (path : list string) (raw : RawModule)
  (s : S) :
  exists r, when (negb production) (assertRawModule path raw) s = (r, s, []).
Proof.
  destruct production; [now eexists|]. cbn [negb when].
  unfold assertRawModule, bind.
  destruct (assertTable_pure path "getters" functionAssert (getters raw) s)
    as [[[]|e] ->]; [|now eexists].
  destruct (assertTable_pure path "mutations" functionAssert (mutations raw) s)
    as [[[]|e] ->]; [|now eexists].
  destruct (assertTable_pure path "actions" objectAssert (actions raw) s)
    as [r ->].
  now eexists.
Qed.

Lemma register_eq (path : list string) (raw : RawModule) :
  register production path raw runtime =
    (when (negb production) (assertRawModule path raw) >>
     let newModule := new_Module raw runtime in
     (match path with
      | [] => modify (fun _ => {| root := Some newModule |})
      | _ =>
          do parent <- (fun c => lift (get (parent_path path) c) c);
          match parent with
          | None => throw TypeError
          | Some _ =>
              modify (fun c =>
                {| root := write_at (parent_path path)
                             (addChild (last_key path) newModule)
                             <$> root c |})
          end
      end) >>
     match modules raw with
     | None => ret tt
     | Some children =>
         forEachValue children (fun rawChildModule key =>
           register production (path ++ [key]) rawChildModule runtime)
     end).
Proof. destruct raw; reflexivity. Qed.

Lemma valid_children (raw : RawModule) (children : list (string * RawModule)) :
  modules raw = Some children ->
  production = true \/ valid_definition raw = true ->
  Forall (fun kc => production = true \/ valid_definition (snd kc) = true)
    children.
Proof.
  intros Hm [->|Hvalid]; [apply Forall_forall; auto|].
  destruct raw as [ns sf g mu ac ms]. simpl in *. subst ms.
  apply andb_true_iff in Hvalid as [_ Hch].
  apply Forall_forall. intros kc Hin. right.
  rewrite forallb_forall in Hch. apply Hch. now apply list_elem_of_In.
Qed.

(** Registration succeeds, emits nothing and leaves the node built from
    the definition at the path. *)
Lemma register_places : forall (raw : RawModule) (path : list string)
  (c : Collection),
  production = true \/ valid_definition raw = true ->
  attachable path c ->
  register production path raw runtime c =
    (Ok tt, place path (built runtime raw) c, []).
Proof.
  induction raw as [raw IH] using RawModule_nested_ind.
  intros path c Hvalid Hatt. rewrite register_eq.
  unfold bind at 1. rewrite (assertRawModule_ok _ _ _ Hvalid).
  cbv zeta. unfold bind at 1.
  assert (Hattach :
    (match path with
     | [] => modify (fun _ => {| root := Some (new_Module raw runtime) |})
     | _ =>
         do parent <- (fun c => lift (get (parent_path path) c) c);
         match parent with
         | None => throw TypeError
         | Some _ =>
             modify (fun c =>
               {| root := write_at (parent_path path)
                            (addChild (last_key path) (new_Module raw runtime))
                            <$> root c |})
         end
     end) c = (Ok tt, place path (new_Module raw runtime) c, [])).
  { destruct Hatt as [->|(parent & Hp)]; [reflexivity|].
    destruct path as [|k0 p0]; [reflexivity|].
    cbv beta iota. unfold bind. rewrite Hp. reflexivity. }
  rewrite Hattach. clear Hattach. cbn [app].
  assert (Hbuilt : built runtime raw =
            match modules raw with
            | None => new_Module raw runtime
            | Some children =>
                fold_left
                  (fun m kc => addChild (fst kc) (built runtime (snd kc)) m)
                  children (new_Module raw runtime)
            end) by (destruct raw; reflexivity).
  rewrite Hbuilt. clear Hbuilt.
  destruct (modules raw) as [children|] eqn:Hm; [|reflexivity].
  specialize (IH _ eq_refl).
  pose proof (valid_children _ _ Hm Hvalid) as Hvc.
  clear Hm Hvalid. generalize (new_Module raw runtime) as node.
  induction children as [|[k ch] children IHc]; intros node; [reflexivity|].
  apply Forall_cons in IH as [IHch IH]. apply Forall_cons in Hvc as [Hch Hvc].
  cbn [fst snd] in IHch, Hch. rewrite forEachValue_cons. unfold bind.
  pose proof (get_place path node c Hatt) as Hnode.
  rewrite (IHch (path ++ [k]) (place path node c) Hch
             (attachable_child _ _ _ _ Hnode)).
  rewrite (place_child _ _ _ _ _ Hnode), (place_place _ _ _ _ Hatt).
  cbn [fold_left fst snd]. rewrite (IHc IH Hvc). reflexivity.
Qed.

End Register.

(** *** [unregister] *)

Lemma get_child_inv (p : list string) (k : string) (c : Collection)
  (node : Module) :
  get (p ++ [k]) c = Ok (Some node) ->
  exists r parent,
    root c = Some r /\ get_from p (Some r) = Ok (Some parent) /\
    getChild k parent = Some node.
Proof.
  unfold get. rewrite get_from_app. intros H.
  destruct (root c) as [r|] eqn:Hr.
  - destruct (get_from p (Some r)) as [[parent|]|e] eqn:Hp;
      try discriminate.
    exists r, parent. split; [reflexivity|]. split; [assumption|].
    now inversion H.
  - destruct (get_from p None) as [[parent|]|e] eqn:Hp; try discriminate.
    now apply get_from_None in Hp.
Qed.

Lemma unregister_runtime (p : list string) (k : string) (c : Collection)
  (node : Module) :
  get (p ++ [k]) c = Ok (Some node) ->
  runtime node = true ->
  unregister (p ++ [k]) c =
    (Ok tt, {| root := write_at p (removeChild k) <$> root c |}, []) /\
  get (p ++ [k]) {| root := write_at p (removeChild k) <$> root c |} = Ok None.
Proof.
  intros Hget Hrt.
  destruct (get_child_inv _ _ _ _ Hget) as (r & parent & Hr & Hp & Hc).
  split.
  - unfold unregister, bind, get. rewrite parent_path_app, last_key_app.
    rewrite Hr, Hp. cbn. rewrite Hc, Hrt. cbn. now rewrite Hr.
  - unfold get. cbn [root]. rewrite Hr. cbn [fmap option_fmap option_map].
    rewrite get_from_app, (get_from_write_at _ _ _ _ Hp).
    now rewrite getChild_removeChild.
Qed.

Lemma unregister_static (p : list string) (k : string) (c : Collection)
  (node : Module) :
  get (p ++ [k]) c = Ok (Some node) ->
  runtime node = false ->
  unregister (p ++ [k]) c = (Ok tt, c, []).
Proof.
  intros Hget Hrt.
  destruct (get_child_inv _ _ _ _ Hget) as (r & parent & Hr & Hp & Hc).
  unfold unregister, bind, get. rewrite parent_path_app, last_key_app.
  rewrite Hr, Hp. cbn. now rewrite Hc, Hrt.
Qed.

(** C7, as stated, fails on the empty path: [unregister([])] looks for a
    child named ["undefined"] of the root and throws; a root registered
    with the [runtime] flag stays where it is. *)
Lemma unregister_root_detaches_nothing : ~ unregister_always_detaches.
Proof.
  intros H.
  pose (c := final (register false [] (Samples.raw_node false []) true
                      {| root := None |})).
  specialize (H [] c (new_Module (Samples.raw_node false []) true)
                eq_refl eq_refl).
  vm_compute in H. discriminate.
Qed.

(** C7, amended.  [register (path, definition, runtime)], for the empty
    path or a path whose parent resolves, and a definition that passes the
    validation (which a production build does not run), succeeds, and
    [get (path)] then returns the node built from the definition.  For a
    path [p ++ [k]] that resolves to a node: if the node has the [runtime]
    flag, [unregister] detaches it and [get] on that path finds nothing; if
    it has not, [unregister] returns without changing the tree. *)
Theorem register_get_unregister (production rt : bool) :
  (forall raw path c,
     production = true \/ valid_definition raw = true ->
     attachable path c ->
     exists c',
       register production path raw rt c = (Ok tt, c', []) /\
       get path c' = Ok (Some (built rt raw))) /\
  (forall p k c node,
     get (p ++ [k]) c = Ok (Some node) ->
     runtime node = true ->
     exists c',
       unregister (p ++ [k]) c = (Ok tt, c', []) /\
       get (p ++ [k]) c' = Ok None) /\
  (forall p k c node,
     get (p ++ [k]) c = Ok (Some node) ->
     runtime node = false ->
     unregister (p ++ [k]) c = (Ok tt, c, []) /\
     get (p ++ [k]) c = Ok (Some node)).
Proof.
  split; [|split].
  - intros raw path c Hvalid Hatt. eexists. split.
    + now apply register_places.
    + now apply get_place.
  - intros p k c node Hget Hrt.
    destruct (unregister_runtime _ _ _ _ Hget Hrt) as [Hrun Hgone]. eauto.
  - intros p k c node Hget Hrt. split; [|assumption].
    exact (unregister_static _ _ _ _ Hget Hrt).
Qed.

(** On the sample tree: [register(['a', 'e'], {})] then [get], then
    [unregister(['a', 'e'])]; and [unregister(['a', 'b'])] on the node
    [b], installed at construction. *)
Lemma register_get_unregister_witness :
  (exists c',
     register false ["a"; "e"] (Samples.raw_node false []) true
       Samples.tree_abcd = (Ok tt, c', []) /\
     get ["a"; "e"] c' = Ok (Some (built true (Samples.raw_node false []))) /\
     exists c'',
       unregister ["a"; "e"] c' = (Ok tt, c'', []) /\
       get ["a"; "e"] c'' = Ok None) /\
  unregister ["a"; "b"] Samples.tree_abcd = (Ok tt, Samples.tree_abcd, []).
Proof.
  destruct (register_get_unregister false true) as (Hreg & Hdyn & _).
  destruct (register_get_unregister false false) as (_ & _ & Hstat).
  split.
  - destruct (Hreg (Samples.raw_node false []) ["a"; "e"] Samples.tree_abcd)
      as (c' & Hrun & Hget).
    + right. reflexivity.
    + right. destruct (get ["a"] Samples.tree_abcd) as [[n|]|e] eqn:Hp;
        try (vm_compute in Hp; discriminate).
      exists n. exact Hp.
    + exists c'. split; [exact Hrun|]. split; [exact Hget|].
      apply (Hdyn ["a"] "e" c' _ Hget). reflexivity.
  - destruct (get ["a"; "b"] Samples.tree_abcd) as [[n|]|e] eqn:Hget;
      try (vm_compute in Hget; discriminate).
    refine (proj1 (Hstat ["a"] "b" Samples.tree_abcd n Hget _)).
    vm_compute in Hget. inversion Hget. reflexivity.
Defined.

(** *** Hot update *)

(** The enumeration order rearranges the properties: it adds none. *)
Lemma insert_index_elem {A : Type} (i : N) (p : string * A)
  (sorted : list (N * (string * A))) (x : N * (string * A)) :
  x ∈ insert_index i p sorted -> x = (i, p) \/ x ∈ sorted.
Proof.
  induction sorted as [|[j q] sorted IH]; simpl.
  - intros H. apply list_elem_of_singleton in H. now left.
  - destruct (i <? j)%N.
    + intros H. apply elem_of_cons in H as [H|H]; [now left | now right].
    + intros H. apply elem_of_cons in H as [H|H].
      * right. subst x. now left.
      * destruct (IH H) as [Hx|Hx]; [now left|]. right. now right.
Qed.

Lemma indexed_properties_elem {A : Type} (props : list (string * A))
  (x : N * (string * A)) :
  x ∈ indexed_properties props -> snd x ∈ props.
Proof.
  induction props as [|p props IH]; simpl.
  - intros H. now apply elem_of_nil in H.
  - destruct (array_index (fst p)) as [i|].
    + intros H. apply insert_index_elem in H as [->|H]; [now left|].
      right. now apply IH.
    + intros H. right. now apply IH.
Qed.

Lemma for_in_elem {A : Type} (props : list (string * A)) (p : string * A) :
  p ∈ for_in props -> p ∈ props.
Proof.
  unfold for_in. intros H. apply elem_of_app in H as [H|H].
  - apply list_elem_of_In, in_map_iff in H as (x & <- & Hx).
    apply indexed_properties_elem. now apply list_elem_of_In.
  - apply list_elem_of_In, filter_In in H as [H _]. now apply list_elem_of_In.
Qed.

(** The order depends on the keys alone. *)
Lemma insert_index_map {A B : Type} (g : A -> B) (i : N) (p : string * A)
  (sorted : list (N * (string * A))) :
  insert_index i (fst p, g (snd p))
    (List.map (fun x => (fst x, (fst (snd x), g (snd (snd x))))) sorted)
  = List.map (fun x => (fst x, (fst (snd x), g (snd (snd x)))))
      (insert_index i p sorted).
Proof.
  induction sorted as [|[j q] sorted IH]; simpl; [reflexivity|].
  destruct (i <? j)%N; simpl; [reflexivity|]. now rewrite IH.
Qed.

Lemma for_in_map {A B : Type} (g : A -> B) (props : list (string * A)) :
  for_in (List.map (fun p => (fst p, g (snd p))) props)
  = List.map (fun p => (fst p, g (snd p))) (for_in props).
Proof.
  unfold for_in. rewrite List.map_app. f_equal.
  - rewrite map_map.
    assert (H : indexed_properties
                  (List.map (fun p => (fst p, g (snd p))) props)
                = List.map (fun x => (fst x, (fst (snd x), g (snd (snd x)))))
                    (indexed_properties props)).
    { induction props as [|p props IH]; simpl; [reflexivity|].
      destruct (array_index (fst p)) as [i|]; [|exact IH].
      rewrite IH. apply insert_index_map. }
    rewrite H, map_map. reflexivity.
  - induction props as [|p props IH]; simpl; [reflexivity|].
    destruct (negb (is_array_index (fst p))); simpl; now rewrite IH.
Qed.

Lemma flat_map_agree {A B : Type} (f g : A -> list B) (l : list A) :
  (forall a, a ∈ l -> f a = g a) -> flat_map f l = flat_map g l.
Proof.
  induction l as [|a l IH]; intros H; [reflexivity|].
  simpl. rewrite (H a) by now left. f_equal. apply IH.
  intros a' Ha'. apply H. now right.
Qed.

Section Update.

Variable production : bool.

Lemma bind_gets {S A B : Type} (f : S -> A) (k : A -> M S B) (s : S) :
  bind (gets f) k s = k (f s) s.
Proof. unfold bind, gets. now destruct (k (f s) s) as [[r s'] l]. Qed.

Section Loop.

Variable D : Type.
Variable own : string -> res bool.
Variable upd : list string -> D -> M Module unit.

Lemma update_children_cons (path : list string) (key : string)
  (def : D) (rest : list (string * D)) :
  update_children production own upd path ((key, def) :: rest) =
    match own key with
    | Throw e => throw e
    | Ok false => update_children production own upd path rest
    | Ok true =>
        do child <- gets (getChild key);
        match child with
        | None =>
            when (negb production)
              (emit (ConsoleWarn
                 ("[vuex] trying to add a new module '" +:+ key
                  +:+ "' on hot reloading, " +:+ "manual reload is needed")))
        | Some c =>
            on_child key c (upd (path ++ [key]) def) >>
            update_children production own upd path rest
        end
    end.
Proof. reflexivity. Qed.

Lemma update_children_missing (path : list string) (key : string)
  (def : D) (rest : list (string * D)) (t : Module) :
  own key = Ok true ->
  getChild key t = None ->
  update_children production own upd path ((key, def) :: rest) t =
    (Ok tt, t, new_module_warning production key).
Proof.
  intros Hown H. rewrite update_children_cons, Hown, bind_gets, H.
  unfold new_module_warning. now destruct production.
Qed.

Lemma update_children_present (path : list string) (key : string)
  (def : D) (rest : list (string * D)) (t c : Module) :
  own key = Ok true ->
  getChild key t = Some c ->
  update_children production own upd path ((key, def) :: rest) t =
    match upd (path ++ [key]) def c with
    | (Ok _, c', evs) =>
        match update_children production own upd path rest
                (addChild key c' t) with
        | (r, t', evs') => (r, t', evs ++ evs')
        end
    | (Throw e, c', evs) => (Throw e, addChild key c' t, evs)
    end.
Proof.
  intros Hown H. rewrite update_children_cons, Hown, bind_gets, H.
  unfold bind, on_child.
  destruct (upd (path ++ [key]) def c) as [[[[]|e] c'] evs]; reflexivity.
Qed.

(** The loop adds no child and removes none. *)
Lemma update_children_keys (path : list string)
  (children : list (string * D)) : forall (t : Module) (k : string),
  getChild k (final (update_children production own upd path children t))
  = None <-> getChild k t = None.
Proof.
  induction children as [|[k0 d] children IH]; intros t k; [reflexivity|].
  rewrite update_children_cons.
  destruct (own k0) as [[]|e]; [|apply IH|reflexivity].
  rewrite bind_gets.
  destruct (getChild k0 t) as [c|] eqn:Hc.
  - unfold bind, on_child.
    assert (Hadd : forall c', getChild k (addChild k0 c' t) = None
                              <-> getChild k t = None).
    { intros c'. destruct (decide (k0 = k)) as [->|Hne].
      - rewrite getChild_addChild, Hc. split; discriminate.
      - now rewrite getChild_addChild_ne. }
    destruct (upd (path ++ [k0]) d c) as [[[[]|e] c'] evs].
    + specialize (IH (addChild k0 c' t) k).
      destruct (update_children production own upd path children
                  (addChild k0 c' t)) as [[r t'] evs'].
      unfold final in *. cbn [fst snd] in *. rewrite IH. apply Hadd.
    + unfold final. cbn [fst snd]. apply Hadd.
  - unfold final. destruct production; reflexivity.
Qed.

(** The loop up to the first key without a child.  Each child of an
    earlier key is replaced by its updated self, every other child stays,
    and the loop returns at the key: what follows the key plays no part. *)
Lemma update_children_stops (path : list string) (key : string)
  (def : D) (after : list (string * D)) :
  forall (before : list (string * D)) (t : Module),
  (forall kd, kd ∈ before -> own (fst kd) = Ok true) ->
  own key = Ok true ->
  NoDup (List.map fst before) ->
  getChild key t = None ->
  Forall (fun kd => is_Some (getChild (fst kd) t)) before ->
  (forall kd c, kd ∈ before ->
     result (upd (path ++ [fst kd]) (snd kd) c) = Ok tt) ->
  exists t',
    update_children production own upd path (before ++ (key, def) :: after) t
    = (Ok tt, t',
       flat_map (fun kd =>
                   match getChild (fst kd) t with
                   | Some c => events (upd (path ++ [fst kd]) (snd kd) c)
                   | None => []
                   end) before
       ++ new_module_warning production key) /\
    runtime t' = runtime t /\
    ModuleNode.state t' = ModuleNode.state t /\
    _rawModule t' = _rawModule t /\
    (forall k d c, (k, d) ∈ before -> getChild k t = Some c ->
       getChild k t' = Some (final (upd (path ++ [k]) d c))) /\
    (forall k, k ∉ List.map fst before -> getChild k t' = getChild k t).
Proof.
  induction before as [|[k0 d0] before IH];
    intros t Hown Hownkey Hnodup Hkey Hall Hok.
  - exists t. cbn [app flat_map].
    rewrite (update_children_missing _ _ _ _ _ Hownkey Hkey).
    repeat split; try reflexivity.
    intros k d c Hin. now apply elem_of_nil in Hin.
  - apply Forall_cons in Hall as [[c0 Hc0] Hall]. cbn [fst] in Hc0.
    cbn [List.map fst] in Hnodup. apply NoDup_cons in Hnodup as [Hk0 Hnodup].
    assert (Hown0 : own k0 = Ok true)
      by (apply (Hown (k0, d0)); now left).
    cbn [app]. rewrite (update_children_present _ _ _ _ _ _ Hown0 Hc0).
    pose proof (Hok (k0, d0) c0 ltac:(now left)) as Hr. cbn [fst snd] in Hr.
    destruct (upd (path ++ [k0]) d0 c0) as [[r0 c0'] evs0] eqn:Hrun.
    unfold result in Hr. cbn [fst] in Hr. subst r0.
    assert (Hne : k0 <> key) by congruence.
    destruct (IH (addChild k0 c0' t)) as (t' & Hloop & Hrt & Hst & Hraw & Hin & Hout).
    + intros kd Hkd. apply Hown. now right.
    + exact Hownkey.
    + exact Hnodup.
    + now rewrite getChild_addChild_ne.
    + eapply Forall_impl; [exact Hall|]. intros [k' d'] Hk'. cbn [fst] in *.
      destruct (decide (k0 = k')) as [->|Hne'].
      * rewrite getChild_addChild. eauto.
      * now rewrite getChild_addChild_ne.
    + intros kd c Hkd. apply Hok. now right.
    + assert (Hother : forall k d, (k, d) ∈ before -> k0 <> k).
      { intros k d Hkd ->. apply Hk0.
        apply list_elem_of_In, in_map_iff. exists (k, d).
        split; [reflexivity | now apply list_elem_of_In]. }
      exists t'. rewrite Hloop. split; [|split; [|split; [|split; [|split]]]].
      * f_equal. cbn [flat_map fst snd]. rewrite Hc0, Hrun.
        unfold events at 1. cbn [snd]. rewrite <- app_assoc. f_equal. f_equal.
        apply flat_map_agree. intros [k d] Hkd. cbn [fst snd].
        rewrite getChild_addChild_ne; [reflexivity|].
        now apply (Hother k d).
      * exact Hrt.
      * exact Hst.
      * exact Hraw.
      * intros k d c Hkd Hc. apply elem_of_cons in Hkd as [Hkd|Hkd].
        -- injection Hkd as -> ->.
           rewrite Hout.
           ++ rewrite getChild_addChild. rewrite Hc0 in Hc.
              injection Hc as <-. now rewrite Hrun.
           ++ exact Hk0.
        -- apply (Hin k d c Hkd).
           rewrite getChild_addChild_ne; [exact Hc|]. now apply (Hother k d).
      * intros k Hk. cbn [List.map fst] in Hk.
        apply not_elem_of_cons in Hk as [Hk Hk'].
        rewrite (Hout k Hk'). now rewrite getChild_addChild_ne.
Qed.

Lemma update_children_ok (path : list string)
  (children : list (string * D)) :
  (forall kd, kd ∈ children -> exists b, own (fst kd) = Ok b) ->
  Forall (fun kd => forall p c, result (upd p (snd kd) c) = Ok tt) children ->
  forall t, result (update_children production own upd path children t) = Ok tt.
Proof.
  intros Hown H. induction H as [|[k d] children Hd _ IH]; intros t;
    [reflexivity|].
  rewrite update_children_cons.
  destruct (Hown (k, d) ltac:(now left)) as [b Hb]. cbn [fst] in Hb.
  assert (IH' : forall t,
            result (update_children production own upd path children t)
            = Ok tt).
  { apply IH. intros kd Hkd. apply Hown. now right. }
  rewrite Hb. destruct b; [|apply IH'].
  rewrite bind_gets.
  destruct (getChild k t) as [c|] eqn:Hc.
  - unfold bind, on_child.
    specialize (Hd (path ++ [k]) c). cbn [snd] in Hd.
    destruct (upd (path ++ [k]) d c) as [[[[]|e] c'] evs];
      [|discriminate].
    specialize (IH' (addChild k c' t)).
    now destruct (update_children production own upd path children
                    (addChild k c' t)) as [[r t'] evs'].
  - destruct production; reflexivity.
Qed.

End Loop.

(** The loop on the prepared recursive calls is the loop on the
    definitions. *)
Lemma update_children_prepared {D : Type} (own : string -> res bool)
  (upd : list string -> D -> M Module unit) (path : list string)
  (children : list (string * D)) :
  update_children production own (fun path' update_child => update_child path')
    path (List.map (fun kc => (fst kc, fun path' => upd path' (snd kc)))
            children)
  = update_children production own upd path children.
Proof.
  induction children as [|[k d] children IH]; [reflexivity|].
  cbn [List.map fst snd]. rewrite !update_children_cons, IH. reflexivity.
Qed.

Lemma update_module_eq (path : list string) (new : RawModule) :
  update_module production path new =
    (when (negb production) (assertRawModule path new) >>
     modify (ModuleNode.update new) >>
     match modules new with
     | None => ret tt
     | Some children =>
         update_children production (hasOwnProperty children)
           (update_module production) path (for_in children)
     end).
Proof.
  destruct new as [ns sf g mu ac [children|]]; [|reflexivity].
  cbn [update_module modules].
  rewrite (for_in_map (fun d path' => update_module production path' d)).
  now rewrite update_children_prepared.
Qed.

End Update.

(** Without a property named ["hasOwnProperty"], the test of the loop
    succeeds on every enumerated key. *)
Lemma hasOwnProperty_plain {A : Type} (obj : list (string * A))
  (kd : string * A) :
  assoc "hasOwnProperty" obj = None ->
  kd ∈ obj ->
  hasOwnProperty obj (fst kd) = Ok true.
Proof.
  intros Hplain Hin. unfold hasOwnProperty. rewrite Hplain.
  destruct (assoc (fst kd) obj) eqn:E; [reflexivity|].
  exfalso. clear Hplain. induction obj as [|[k a] obj IH].
  - now apply elem_of_nil in Hin.
  - simpl in E. destruct (String.eqb (fst kd) k) eqn:Hk; [discriminate|].
    apply elem_of_cons in Hin as [->|Hin].
    + cbn [fst] in Hk. now rewrite String.eqb_refl in Hk.
    + now apply IH.
Qed.

Lemma plain_children (raw : RawModule) (children : list (string * RawModule)) :
  modules raw = Some children ->
  plain_keys raw = true ->
  assoc "hasOwnProperty" children = None /\
  Forall (fun kc => plain_keys (snd kc) = true) children.
Proof.
  intros Hm Hplain. destruct raw as [ns sf g mu ac ms]. simpl in *. subst ms.
  apply andb_true_iff in Hplain as [Hown Hch]. split.
  - now destruct (assoc "hasOwnProperty" children).
  - apply Forall_forall. intros kc Hin.
    rewrite forallb_forall in Hch. apply Hch. now apply list_elem_of_In.
Qed.

(** With the validation passed, or not run, and no child named
    ["hasOwnProperty"], a hot update returns normally. *)
Lemma update_module_ok (production : bool) : forall (new : RawModule)
  (path : list string) (t : Module),
  production = true \/ valid_definition new = true ->
  plain_keys new = true ->
  result (update_module production path new t) = Ok tt.
Proof.
  induction new as [new IH] using RawModule_nested_ind.
  intros path t Hvalid Hplain. rewrite update_module_eq.
  unfold bind at 1. rewrite (assertRawModule_ok _ _ _ _ Hvalid).
  unfold bind at 1. unfold modify at 1.
  destruct (modules new) as [children|] eqn:Hm; [|reflexivity].
  pose proof (valid_children _ _ _ Hm Hvalid) as Hvc.
  destruct (plain_children _ _ Hm Hplain) as [Hown Hpc].
  specialize (IH _ eq_refl).
  rewrite Forall_forall in IH, Hvc, Hpc.
  assert (Hall : Forall (fun kd => forall p c,
                    result (update_module production p (snd kd) c) = Ok tt)
                   (for_in children)).
  { apply Forall_forall. intros kd Hin p c. apply for_in_elem in Hin.
    apply IH; auto. }
  assert (Hok : forall kd, kd ∈ for_in children ->
                  exists b, hasOwnProperty children (fst kd) = Ok b).
  { intros kd Hin. exists true. apply hasOwnProperty_plain; [exact Hown|].
    now apply for_in_elem. }
  pose proof (update_children_ok production _ _ (update_module production) path
                (for_in children) Hok Hall (ModuleNode.update new t)) as Hres.
  destruct (update_children production (hasOwnProperty children)
              (update_module production) path (for_in children)
              (ModuleNode.update new t)) as [[r t'] evs].
  exact Hres.
Qed.

(** C4, as stated, fails: with a new child [x] listed before [d] in the
    new definition, the live sibling [d] is not updated. *)
Lemma later_sibling_not_updated : ~ siblings_still_updated.
Proof.
  intros H.
  assert (Hd : exists d, getChild "d" Samples.root_abcd = Some d).
  { destruct (getChild "d" Samples.root_abcd) as [d|] eqn:E;
      [eauto | vm_compute in E; discriminate]. }
  destruct Hd as [d Hd].
  specialize (H false [] Samples.raw_hot Samples.root_abcd
                (Samples.raw_hot_before
                 ++ ("x", Samples.raw_node false []) :: Samples.raw_hot_after)
                "x" "d" (Samples.raw_node false []) (Samples.raw_node true [])
                d eq_refl eq_refl).
  assert (Hx : getChild "x" Samples.root_abcd = None)
    by (vm_compute; reflexivity).
  specialize (H Hx ltac:(discriminate) eq_refl Hd).
  apply (f_equal (fmap namespaced)) in H.
  vm_compute in Hd. inversion Hd; subst d.
  vm_compute in H. discriminate.
Qed.

(** C4, amended.  Let the new definition pass the validation (or the build
    be a production build) and have no child named ["hasOwnProperty"] at
    any depth, and let [for ... in] enumerate its [modules] as the keys of
    [before], then [key], then the keys of [after], where the live node has
    a child for each key of [before] and none for [key].  Then the update
    of the node returns normally, so that the loop of the enclosing level
    goes on with its own remaining keys, and it leaves the node as follows:
    the [namespaced] flag and the tables of the node's definition are
    overwritten as [Module.update] does, state and [runtime] flag are kept;
    each child of [before] is its former self updated with its new
    definition; every other child, among them the children of [after], is
    as before, and there is no child [key].  The console shows what the
    updates of the children of [before] printed and then, in a
    non-production build, the warning for [key]. *)
Theorem hot_update_stops_at_new_child (production : bool)
  (path : list string) (ns : value) (sf : RawState)
  (g mu ac : option (list (string * decl)))
  (written before after : list (string * RawModule)) (key : string)
  (def : RawModule) (target : Module) :
  let new := mkRaw ns sf g mu ac (Some written) in
  production = true \/ valid_definition new = true ->
  plain_keys new = true ->
  for_in written = before ++ (key, def) :: after ->
  NoDup (List.map fst before) ->
  getChild key target = None ->
  Forall (fun kd => is_Some (getChild (fst kd) target)) before ->
  exists target',
    update_module production path new target =
      (Ok tt, target',
       flat_map (fun kd =>
                   match getChild (fst kd) target with
                   | Some c =>
                       events (update_module production (path ++ [fst kd])
                                 (snd kd) c)
                   | None => []
                   end) before
       ++ new_module_warning production key) /\
    runtime target' = runtime target /\
    ModuleNode.state target' = ModuleNode.state target /\
    _rawModule target' =
      {| namespaced_field := ns;
         state_field := state_field (_rawModule target);
         getters := match g with
                    | Some table => Some table
                    | None => getters (_rawModule target)
                    end;
         mutations := match mu with
                      | Some table => Some table
                      | None => mutations (_rawModule target)
                      end;
         actions := match ac with
                    | Some table => Some table
                    | None => actions (_rawModule target)
                    end;
         modules := modules (_rawModule target) |} /\
    (forall k d c, (k, d) ∈ before -> getChild k target = Some c ->
       getChild k target' =
         Some (final (update_module production (path ++ [k]) d c))) /\
    (forall k, k ∉ List.map fst before ->
       getChild k target' = getChild k target).
Proof.
  intros new Hvalid Hplain Henum Hnodup Hkey Hall.
  pose proof (valid_children production new written eq_refl Hvalid) as Hvc.
  destruct (plain_children new written eq_refl Hplain) as [Hown Hpc].
  rewrite Forall_forall in Hvc, Hpc.
  assert (Hsub : forall kd, kd ∈ before -> kd ∈ written).
  { intros kd Hin. apply for_in_elem. rewrite Henum.
    apply elem_of_app. now left. }
  destruct (update_children_stops production _
              (hasOwnProperty written) (update_module production) path key
              def after before (ModuleNode.update new target))
    as (t' & Hloop & Hrt & Hst & Hraw & Hin & Hout).
  - intros kd Hkd. apply hasOwnProperty_plain; auto.
  - apply (hasOwnProperty_plain written (key, def)); [exact Hown|].
    apply for_in_elem. rewrite Henum. apply elem_of_app. right. now left.
  - exact Hnodup.
  - exact Hkey.
  - exact Hall.
  - intros kd c Hkd. apply update_module_ok; auto.
  - change (getChild ?k (ModuleNode.update new target))
      with (getChild k target) in Hloop, Hin, Hout.
    exists t'. split; [|repeat split; assumption].
    rewrite update_module_eq.
    unfold bind at 1. rewrite (assertRawModule_ok _ _ _ _ Hvalid).
    unfold bind at 1. unfold modify at 1.
    change (modules new) with (Some written).
    cbv iota. rewrite Henum, Hloop. reflexivity.
Qed.

(** The hot update of the sample root with children [a] and [7] by a
    definition written with [a], the new [x] and [7]: the loop visits [7]
    and [a] before it stops at [x], so [7] has become namespaced and [a]
    has lost its namespace, [x] is not there, and the warning is on the
    console. *)
Lemma hot_update_stops_at_new_child_witness :
  exists target',
    update_module false [] Samples.raw_hot_a7 Samples.root_a7 =
      (Ok tt, target',
       [ConsoleWarn
          "[vuex] trying to add a new module 'x' on hot reloading, manual reload is needed"]) /\
    namespaced <$> getChild "7" target' = Some true /\
    namespaced <$> getChild "a" target' = Some false /\
    getChild "x" target' = None.
Proof.
  assert (H7 : exists c, getChild "7" Samples.root_a7 = Some c).
  { destruct (getChild "7" Samples.root_a7) as [c|] eqn:E;
      [eauto | vm_compute in E; discriminate]. }
  assert (Ha : exists c, getChild "a" Samples.root_a7 = Some c).
  { destruct (getChild "a" Samples.root_a7) as [c|] eqn:E;
      [eauto | vm_compute in E; discriminate]. }
  assert (Hx : getChild "x" Samples.root_a7 = None)
    by (vm_compute; reflexivity).
  destruct H7 as [c7 H7], Ha as [ca Ha].
  destruct (hot_update_stops_at_new_child false [] (VBool false)
              (StateValue (VObj [])) None None None
              [("a", Samples.raw_node false []);
               ("x", Samples.raw_node false []);
               ("7", Samples.raw_node true [])]
              [("7", Samples.raw_node true []);
               ("a", Samples.raw_node false [])]
              [] "x" (Samples.raw_node false []) Samples.root_a7)
    as (target' & Hrun & _ & _ & _ & Hin & Hout).
  - right. reflexivity.
  - reflexivity.
  - reflexivity.
  - apply (bool_decide_unpack _). vm_compute. exact I.
  - exact Hx.
  - repeat constructor; cbn [fst]; eauto.
  - change (mkRaw (VBool false) (StateValue (VObj [])) None None None
              (Some [("a", Samples.raw_node false []);
                     ("x", Samples.raw_node false []);
                     ("7", Samples.raw_node true [])]))
      with Samples.raw_hot_a7 in Hrun.
    exists target'. split; [|split; [|split]].
    + rewrite Hrun. cbn [flat_map fst snd]. rewrite H7, Ha.
      vm_compute in H7. injection H7 as <-.
      vm_compute in Ha. injection Ha as <-.
      vm_compute. reflexivity.
    + rewrite (Hin "7" (Samples.raw_node true []) c7);
        [|now left|exact H7].
      vm_compute in H7. injection H7 as <-. vm_compute. reflexivity.
    + rewrite (Hin "a" (Samples.raw_node false []) ca);
        [|right; now left|exact Ha].
      vm_compute in Ha. injection Ha as <-. vm_compute. reflexivity.
    + rewrite Hout; [exact Hx|]. cbn [List.map fst].
      intros H. apply elem_of_cons in H as [H|H]; [discriminate|].
      apply elem_of_cons in H as [H|H]; [discriminate|].
      now apply elem_of_nil in H.
Defined.

End TreeFacts.

(* ===================================================================== *)
(** ** Facts about nested state, the write guard and the registries       *)
(* ===================================================================== *)

Module StoreInternalsFacts.
Import Util Store StoreInternals Spec.

Lemma unify_string {S : Type} (production : bool) (t : string)
  (pl op : value) (s : S) :
  unifyObjectStyle production (VStr t) pl op s =
    (Ok {| type := VStr t; payload := pl; options := op |}, s, []).
Proof.
  rewrite StoreFacts.unifyObjectStyle_run. cbn. now rewrite orb_true_r.
Qed.

(** *** [getNestedState] *)

Lemma getNestedState_reduce (state : value) (path : list string) :
  getNestedState state path = reduce_state path state.
Proof. now destruct path. Qed.

Lemma reduce_state_app (p q : list string) : forall state,
  reduce_state (p ++ q) state =
    match reduce_state p state with
    | Ok v => reduce_state q v
    | Throw e => Throw e
    end.
Proof.
  induction p as [|k p IH]; intros state; simpl; [reflexivity|].
  destruct (read_property k state) as [v|e]; [apply IH | reflexivity].
Qed.

(** X1.  Walking a concatenated path is walking the first part and then,
    from the value reached, the second; an error on the first part is the
    error of the whole walk. *)
Theorem getNestedState_concat (state : value) (p q : list string) :
  getNestedState state (p ++ q) =
    match getNestedState state p with
    | Ok v => getNestedState v q
    | Throw e => Throw e
    end.
Proof.
  rewrite !getNestedState_reduce, reduce_state_app.
  destruct (reduce_state p state); [now rewrite getNestedState_reduce|].
  reflexivity.
Qed.

(** X2.  Where the walk reaches [undefined] or [null], the path ends there
    or the walk throws: a missing last segment reads as [undefined], a
    missing segment before the last is a [TypeError]. *)
Theorem getNestedState_through_missing (state v : value) (p : list string)
  (k : string) (q : list string) :
  getNestedState state p = Ok v ->
  v = VUndef \/ v = VNull ->
  getNestedState state (p ++ k :: q) = Throw TypeError.
Proof.
  intros Hp Hv. rewrite getNestedState_reduce in Hp.
  rewrite getNestedState_reduce, reduce_state_app, Hp.
  destruct Hv as [-> | ->]; reflexivity.
Qed.

Lemma getNestedState_through_missing_witness :
  getNestedState (VObj [("a", VObj [("count", VNum 1)])]) ["b"] = Ok VUndef /\
  getNestedState (VObj [("a", VObj [("count", VNum 1)])]) ["b"; "count"]
  = Throw TypeError.
Proof.
  split; [reflexivity|].
  apply (getNestedState_through_missing _ VUndef ["b"] "count" []);
    [reflexivity | now left].
Defined.

(** *** The write guard *)

(** X3.  [_withCommit] has no [finally]: when [fn] returns, the flag is
    back to the value it had before the call; when [fn] throws, the flag
    stays as [fn] left it, which is [true] for an [fn] that does not write
    the flag itself. *)
Theorem withCommit_restores_unless_thrown (fn : M Store unit) (st : Store) :
  (forall s, _committing (final (fn s)) = _committing s) ->
  match result (fn (set_committing true st)) with
  | Ok _ =>
      result (_withCommit fn st) = Ok tt /\
      _committing (final (_withCommit fn st)) = _committing st
  | Throw e =>
      result (_withCommit fn st) = Throw e /\
      _committing (final (_withCommit fn st)) = true
  end /\
  events (_withCommit fn st) = events (fn (set_committing true st)).
Proof.
  intros Hkeep. specialize (Hkeep (set_committing true st)).
  unfold _withCommit, bind, gets, modify. cbn [fst snd app].
  destruct (fn (set_committing true st)) as [[[[]|e] s'] evs];
    unfold result, final, events in *; cbn in *.
  - split; [split; reflexivity | now rewrite app_nil_r].
  - split; [split; [reflexivity | exact Hkeep] | reflexivity].
Qed.

(** A function that writes a state and then throws. *)
Lemma withCommit_restores_unless_thrown_witness :
  let fn : M Store unit :=
    modify (set_state (VNum 1)) >> throw TypeError in
  result (_withCommit fn Samples.sample_store) = Throw TypeError /\
  _committing (final (_withCommit fn Samples.sample_store)) = true /\
  _committing Samples.sample_store = false.
Proof.
  intros fn.
  pose proof (withCommit_restores_unless_thrown fn Samples.sample_store
                (fun s => eq_refl)) as [H _].
  cbn in H. destruct H as [Hres Hflag].
  split; [exact Hres|]. split; [exact Hflag | reflexivity].
Defined.

Section Handlers.

Variable production : bool.
Variable mh : nat -> value -> value -> value.
Variable ah : nat -> value -> value -> returned * value.

(** X4.  [replaceState] swaps the state and nothing else, notifies nobody
    and leaves the flag as it was; a [commit] that follows runs its
    handlers on the new state. *)
Theorem replaceState_then_commit (s : value) (t : string) (pl op : value)
  (st : Store) (entry : list nat) :
  _mutations st !! t = Some entry ->
  replaceState s st = (Ok tt, set_state s st, []) /\
  let s' := fold_left (fun x h => mh h pl x) entry s in
  final ((replaceState s >> commit production mh (VStr t) pl op) st)
  = set_state s' st /\
  Forall (fun ev => match ev with
                    | SubscriberCalled _ _ _ seen => seen = s'
                    | _ => True
                    end)
    (events ((replaceState s >> commit production mh (VStr t) pl op) st)).
Proof.
  intros Hentry.
  assert (Hrep : replaceState s st = (Ok tt, set_state s st, [])).
  { unfold replaceState, _withCommit, bind, gets, modify. cbn.
    now destruct st. }
  split; [exact Hrep|]. cbv zeta.
  assert (Hrun : (replaceState s >> commit production mh (VStr t) pl op) st
                 = commit production mh (VStr t) pl op (set_state s st)).
  { unfold bind at 1. rewrite Hrep.
    now destruct (commit production mh (VStr t) pl op (set_state s st))
      as [[r s2] l2]. }
  rewrite Hrun.
  rewrite (StoreFacts.commit_run production mh _ _ _ _ _
             (unify_string production t pl op (set_state s st))).
  cbn [type payload options to_string _mutations set_state].
  rewrite Hentry. cbn [fst snd app state _subscribers set_state final events].
  split; [reflexivity|].
  repeat (apply Forall_app; split).
  - apply Forall_forall. intros ev Hin.
    apply list_elem_of_In, in_map_iff in Hin as (h & <- & _). exact I.
  - apply Forall_forall. intros ev Hin.
    apply list_elem_of_In, in_map_iff in Hin as (h & <- & _). reflexivity.
  - destruct (negb production && truthy op && truthy (get_field "silent" op));
      repeat constructor.
Qed.

End Handlers.

Lemma replaceState_then_commit_witness :
  final ((replaceState (VObj [("count", VNum 100)])
          >> commit false Samples.sample_mutation (VStr "increment")
               (VNum 5) VUndef) Samples.sample_store)
  = set_state (VObj [("count", VNum 115)]) Samples.sample_store.
Proof.
  assert (Hentry : _mutations Samples.sample_store !! "increment"
                   = Some [1; 2]) by (vm_compute; reflexivity).
  destruct (replaceState_then_commit false Samples.sample_mutation
              (VObj [("count", VNum 100)]) "increment" (VNum 5) VUndef
              Samples.sample_store [1; 2] Hentry) as (_ & Hfinal & _).
  rewrite Hfinal. reflexivity.
Defined.

(** *** The registries *)

Section Registries.

Variable production : bool.
Variable mh : nat -> value -> value -> value.
Variable ah : nat -> value -> value -> returned * value.

(** X5.  [registerMutation] adds the handler at the end of the entry of its
    type, creating the entry when there is none, and leaves the entries of
    the other types alone; a [commit] of the type then calls the handlers
    that were there, in their order, and the new one last. *)
Theorem registerMutation_then_commit (t : string) (w : nat) (pl op : value)
  (st : Store) :
  let old := default [] (_mutations st !! t) in
  let st' := final (registerMutation t w st) in
  _mutations st' !! t = Some (old ++ [w]) /\
  (forall t', t' <> t -> _mutations st' !! t' = _mutations st !! t') /\
  exists rest,
    events (commit production mh (VStr t) pl op st') =
      List.map (fun h => MutationCalled h pl true) old
      ++ MutationCalled w pl true :: rest /\
    Forall (fun ev => match ev with
                      | MutationCalled _ _ _ => False
                      | _ => True
                      end) rest.
Proof.
  intros old st'. subst st'. unfold registerMutation, modify, final.
  cbn [fst snd _mutations set_mutations].
  split; [apply lookup_insert_eq|].
  split; [intros t' Hne; now apply lookup_insert_ne|].
  rewrite (StoreFacts.commit_run production mh _ _ _ _ _
             (unify_string production t pl op _)).
  cbn [type payload options to_string _mutations set_mutations].
  rewrite lookup_insert_eq. fold old. cbn [events snd].
  rewrite map_app. cbn [List.map]. rewrite <- app_assoc. cbn [app].
  eexists. split; [reflexivity|].
  apply Forall_app. split.
  - apply Forall_forall. intros ev Hin.
    apply list_elem_of_In, in_map_iff in Hin as (h & <- & _). exact I.
  - destruct (negb production && truthy op && truthy (get_field "silent" op));
      repeat constructor.
Qed.

(** X6.  The first [registerAction] under a type makes [dispatch] return
    the promise of that handler; a second one under the same type turns the
    result into the aggregate of both handlers, called in the order of
    their registration. *)
Theorem registerAction_then_dispatch (t : string) (w1 w2 : nat) (pl : value)
  (st : Store) :
  _actions st !! t = None ->
  let hook := _devtoolHook st in
  let st1 := final (registerAction t w1 st) in
  let st2 := final (registerAction t w2 st1) in
  result (dispatch production ah (VStr t) pl st1)
  = Ok (Thenable (as_promise hook (fst (ah w1 pl (state st))))) /\
  result (dispatch production ah (VStr t) pl st2)
  = Ok (Thenable
          (Promise_all
             (List.map Thenable
                (List.map (as_promise hook)
                   (action_returns ah pl [w1; w2] (state st)))))) /\
  exists notified,
    events (dispatch production ah (VStr t) pl st2)
    = notified ++ [ActionCalled w1 pl; ActionCalled w2 pl].
Proof.
  intros Hnone hook st1 st2. subst st1 st2 hook.
  unfold registerAction, modify, final. cbn [fst snd _actions set_actions].
  rewrite Hnone, lookup_insert_eq. cbn [default app].
  rewrite !(StoreFacts.dispatch_run production ah _ _ _ _
              (unify_string production t pl VUndef _)).
  cbn [type payload options to_string _actions set_actions].
  rewrite !lookup_insert_eq.
  split; [reflexivity|]. split; [reflexivity|].
  eexists. reflexivity.
Qed.

(** X8.  [registerGetter] never replaces a getter: the first registration
    under a key stays, a later one under the same key changes nothing and
    reports the duplicate in a non-production build; every other key of the
    dictionary is kept. *)
Theorem registerGetter_first_wins (t : string) (w1 w2 : nat)
  (g : gmap string nat) :
  g !! t = None ->
  (registerGetter production t w1 >> registerGetter production t w2) g =
    (Ok tt, <[t := w1]> g,
     if production then []
     else [ConsoleError ("[vuex] duplicate getter key: " +:+ t)]) /\
  (forall k v, g !! k = Some v ->
               final (registerGetter production t w1 g) !! k = Some v).
Proof.
  intros Hnone. unfold registerGetter, bind, gets, modify, when, emit, ret.
  cbn. rewrite Hnone. cbn. rewrite lookup_insert_eq.
  split; [now destruct production|].
  intros k v Hk. unfold final. cbn.
  rewrite lookup_insert_ne; [assumption | congruence].
Qed.

End Registries.

Lemma registerMutation_then_commit_witness :
  events (commit false Samples.sample_mutation (VStr "increment") (VNum 1)
            VUndef
            (final (registerMutation "increment" 7 Samples.sample_store))) =
    [MutationCalled 1 (VNum 1) true; MutationCalled 2 (VNum 1) true;
     MutationCalled 7 (VNum 1) true;
     SubscriberCalled 20 (VStr "increment") (VNum 1)
       (VObj [("count", VNum 10)]);
     SubscriberCalled 21 (VStr "increment") (VNum 1)
       (VObj [("count", VNum 10)])].
Proof.
  destruct (registerMutation_then_commit false Samples.sample_mutation
              "increment" 7 (VNum 1) VUndef Samples.sample_store)
    as (_ & _ & rest & Hev & _).
  vm_compute in Hev. vm_compute. exact eq_refl.
Defined.

Lemma registerAction_then_dispatch_witness :
  exists p,
    result (dispatch false Samples.sample_action (VStr "save") VUndef
              (final (registerAction "save" 3
                        (final (registerAction "save" 2
                                  Samples.sample_store)))))
    = Ok (Thenable p) /\
    settlement p = Some (2, Rejected (VStr "three")).
Proof.
  assert (Hnone : _actions Samples.sample_store !! "save" = None)
    by (vm_compute; reflexivity).
  destruct (registerAction_then_dispatch false Samples.sample_action
              "save" 2 3 VUndef Samples.sample_store Hnone)
    as (_ & Hboth & _).
  eexists. split; [exact Hboth | reflexivity].
Defined.

Lemma registerGetter_first_wins_witness :
  (registerGetter false "total" 1 >> registerGetter false "total" 2) ∅ =
    (Ok tt, <["total" := 1]> ∅,
     [ConsoleError "[vuex] duplicate getter key: total"]).
Proof.
  apply (registerGetter_first_wins false "total" 1 2 ∅). apply lookup_empty.
Defined.

(** *** Subscriptions and [commit] *)

Lemma count_occurrences (fn : nat) (l : list nat) :
  NoDup l ->
  length (List.filter (fun sub => Nat.eqb sub fn) l)
  = if bool_decide (fn ∈ l) then 1 else 0.
Proof.
  induction 1 as [|x l Hx Hnd IH]; [reflexivity|]. cbn [List.filter].
  destruct (Nat.eqb_spec x fn) as [->|Hne].
  - cbn [length]. rewrite IH.
    rewrite (bool_decide_eq_false_2 _ Hx).
    rewrite bool_decide_eq_true_2; [reflexivity | now left].
  - rewrite IH. apply (f_equal (fun b : bool => if b then 1 else 0)).
    apply bool_decide_ext. rewrite elem_of_cons. split; [tauto|].
    intros [->|H]; [congruence | assumption].
Qed.

(** *** Local contexts *)

Section LocalContext.

Variable production : bool.
Variable mh : nat -> value -> value -> value.
Variable ah : nat -> value -> value -> returned * value.

Lemma namespaced_eqb (namespace : string) :
  namespace <> "" -> String.eqb namespace "" = false.
Proof. intros H. now apply String.eqb_neq. Qed.

Lemma bind_gets_store {S A B : Type} (f : S -> A) (k : A -> M S B) (s : S) :
  bind (gets f) k s = k (f s) s.
Proof. unfold bind, gets. now destruct (k (f s) s) as [[r s'] l]. Qed.

Lemma bind_ok {S A B : Type} (m : M S A) (k : A -> M S B) (s : S) (a : A) :
  m s = (Ok a, s, []) -> bind m k s = k a s.
Proof.
  intros H. unfold bind. rewrite H. now destruct (k a s) as [[r s'] l].
Qed.

(** X11.  In a namespaced module, a local [commit] or [dispatch] that does
    not opt into [root] and whose prefixed type is registered is the
    store's [commit] or [dispatch] of the namespace followed by the type,
    with the payload and, for [commit], the options of the normalised
    arguments. *)
Theorem local_call_prefixes_namespace (namespace : string)
  (path : list string) (_type _payload _options : value) (st : Store)
  (args : unified) :
  namespace <> "" ->
  unifyObjectStyle production _type _payload _options st = (Ok args, st, []) ->
  truthy (options args) && truthy (get_field "root" (options args)) = false ->
  let local := makeLocalContext production mh ah namespace path in
  let global := namespace +:+ to_string (type args) in
  (is_Some (_mutations st !! global) ->
   local_commit local _type _payload _options st
   = commit production mh (VStr global) (payload args) (options args) st) /\
  (is_Some (_actions st !! global) ->
   local_dispatch local _type _payload _options st
   = dispatch production ah (VStr global) (payload args) st).
Proof.
  intros Hns Hu Hroot local global. subst local.
  unfold makeLocalContext. cbn [local_commit local_dispatch].
  rewrite (namespaced_eqb _ Hns).
  assert (Hnot : negb (truthy (options args))
                 || negb (truthy (get_field "root" (options args))) = true).
  { rewrite <- negb_andb. now rewrite Hroot. }
  split; intros Hreg.
  - rewrite (bind_ok _ _ _ _ Hu), Hnot. fold global.
    rewrite bind_gets_store.
    rewrite (bool_decide_eq_true_2 _ Hreg). now rewrite andb_false_r.
  - rewrite (bind_ok _ _ _ _ Hu), Hnot. fold global.
    rewrite bind_gets_store.
    rewrite (bool_decide_eq_true_2 _ Hreg). now rewrite andb_false_r.
Qed.

(** X12.  With a truthy [root] option, a local [commit] or [dispatch] of a
    namespaced module goes to the store under the type as given, without
    the namespace and without the local lookup. *)
Theorem local_call_root_option (namespace : string) (path : list string)
  (_type _payload _options : value) (st : Store) (args : unified) :
  namespace <> "" ->
  unifyObjectStyle production _type _payload _options st = (Ok args, st, []) ->
  truthy (options args) && truthy (get_field "root" (options args)) = true ->
  let local := makeLocalContext production mh ah namespace path in
  local_commit local _type _payload _options st
  = commit production mh (type args) (payload args) (options args) st /\
  local_dispatch local _type _payload _options st
  = dispatch production ah (type args) (payload args) st.
Proof.
  intros Hns Hu Hroot local. subst local.
  unfold makeLocalContext. cbn [local_commit local_dispatch].
  rewrite (namespaced_eqb _ Hns).
  assert (Hnot : negb (truthy (options args))
                 || negb (truthy (get_field "root" (options args))) = false).
  { rewrite <- negb_andb. now rewrite Hroot. }
  split; now rewrite (bind_ok _ _ _ _ Hu), Hnot.
Qed.

(** X13.  A local [commit] or [dispatch] whose prefixed type has no
    handler does not reach the store's method in a non-production build:
    it reports the local and the global type, changes nothing, and the
    [dispatch] returns [undefined] rather than a promise.  A production
    build passes the prefixed type on to the store, where the unknown type
    is dropped without a word. *)
Theorem local_call_unknown_type (namespace : string) (path : list string)
  (_type _payload _options : value) (st : Store) (args : unified) :
  namespace <> "" ->
  unifyObjectStyle production _type _payload _options st = (Ok args, st, []) ->
  truthy (options args) && truthy (get_field "root" (options args)) = false ->
  let local := makeLocalContext production mh ah namespace path in
  let global := namespace +:+ to_string (type args) in
  (_mutations st !! global = None ->
   local_commit local _type _payload _options st =
     (Ok tt, st,
      if production then []
      else [ConsoleError
              ("[vuex] unknown local mutation type: "
               +:+ to_string (type args) +:+ ", global type: " +:+ global)])) /\
  (_actions st !! global = None ->
   local_dispatch local _type _payload _options st =
     (Ok (Plain VUndef), st,
      if production then []
      else [ConsoleError
              ("[vuex] unknown local action type: "
               +:+ to_string (type args) +:+ ", global type: " +:+ global)])).
Proof.
  intros Hns Hu Hroot local global. subst local.
  unfold makeLocalContext. cbn [local_commit local_dispatch].
  rewrite (namespaced_eqb _ Hns).
  assert (Hnot : negb (truthy (options args))
                 || negb (truthy (get_field "root" (options args))) = true).
  { rewrite <- negb_andb. now rewrite Hroot. }
  split; intros Hnone.
  - rewrite (bind_ok _ _ _ _ Hu), Hnot. fold global.
    rewrite bind_gets_store, Hnone.
    rewrite bool_decide_eq_false_2 by (intros [x Hx]; discriminate).
    destruct production; cbn [negb andb].
    + rewrite (StoreFacts.commit_run true mh _ _ _ _ _
                 (unify_string true global (payload args) (options args) st)).
      cbn [type to_string]. now rewrite Hnone.
    + reflexivity.
  - rewrite (bind_ok _ _ _ _ Hu), Hnot. fold global.
    rewrite bind_gets_store, Hnone.
    rewrite bool_decide_eq_false_2 by (intros [x Hx]; discriminate).
    destruct production; cbn [negb andb].
    + rewrite (StoreFacts.dispatch_run true ah _ _ _ _
                 (unify_string true global (payload args) VUndef st)).
      cbn [type to_string]. now rewrite Hnone.
    + reflexivity.
Qed.

End LocalContext.

(** [local.commit('add', 2)] in the module of namespace ["cart/"]. *)
Lemma local_call_prefixes_namespace_witness :
  local_commit (makeLocalContext false Samples.sample_mutation
                  Samples.sample_action "cart/" ["cart"])
    (VStr "add") (VNum 2) VUndef Samples.cart_store
  = commit false Samples.sample_mutation (VStr "cart/add") (VNum 2) VUndef
      Samples.cart_store.
Proof.
  refine (proj1 (local_call_prefixes_namespace false Samples.sample_mutation
                   Samples.sample_action "cart/" ["cart"] (VStr "add")
                   (VNum 2) VUndef Samples.cart_store
                   {| type := VStr "add"; payload := VNum 2;
                      options := VUndef |} _ eq_refl eq_refl) _).
  - discriminate.
  - exists [5]. vm_compute. reflexivity.
Defined.

(** [local.commit('increment', 2, {root: true})] in the same module. *)
Lemma local_call_root_option_witness :
  local_commit (makeLocalContext false Samples.sample_mutation
                  Samples.sample_action "cart/" ["cart"])
    (VStr "increment") (VNum 2) (VObj [("root", VBool true)])
    Samples.cart_store
  = commit false Samples.sample_mutation (VStr "increment") (VNum 2)
      (VObj [("root", VBool true)]) Samples.cart_store.
Proof.
  refine (proj1 (local_call_root_option false Samples.sample_mutation
                   Samples.sample_action "cart/" ["cart"] (VStr "increment")
                   (VNum 2) (VObj [("root", VBool true)]) Samples.cart_store
                   {| type := VStr "increment"; payload := VNum 2;
                      options := VObj [("root", VBool true)] |}
                   _ eq_refl eq_refl)).
  discriminate.
Defined.

(** [local.dispatch('increment')] in the same module: the store has
    ["increment"] but not ["cart/increment"]. *)
Lemma local_call_unknown_type_witness :
  local_dispatch (makeLocalContext false Samples.sample_mutation
                    Samples.sample_action "cart/" ["cart"])
    (VStr "increment") VUndef VUndef Samples.cart_store
  = (Ok (Plain VUndef), Samples.cart_store,
     [ConsoleError
        "[vuex] unknown local action type: increment, global type: cart/increment"]).
Proof.
  refine (proj2 (local_call_unknown_type false Samples.sample_mutation
                   Samples.sample_action "cart/" ["cart"] (VStr "increment")
                   VUndef VUndef Samples.cart_store
                   {| type := VStr "increment"; payload := VUndef;
                      options := VUndef |} _ eq_refl eq_refl) _).
  - discriminate.
  - vm_compute. reflexivity.
Defined.

(** *** Local getters *)

Lemma slice_to_append (a b : string) : slice_to (String.length a) (a +:+ b) = a.
Proof.
  induction a as [|x a IH]; [now destruct b|].
  change (String x (slice_to (String.length a) (a +:+ b)) = String x a).
  now rewrite IH.
Qed.

Lemma slice_from_append (a b : string) :
  slice_from (String.length a) (a +:+ b) = b.
Proof.
  induction a as [|x a IH]; [now destruct b|].
  change (slice_from (String.length a) (a +:+ b) = b). exact IH.
Qed.

Lemma slice_to_from (n : nat) : forall s, slice_to n s +:+ slice_from n s = s.
Proof.
  induction n as [|n IH]; intros s; [now destruct s|].
  destruct s as [|x s]; [reflexivity|].
  change (String x (slice_to n s +:+ slice_from n s) = String x s).
  now rewrite IH.
Qed.

Lemma assoc_elem_of {A : Type} (k : string) (v : A) (l : list (string * A)) :
  assoc k l = Some v -> (k, v) ∈ l.
Proof.
  induction l as [|[k' a] l IH]; [discriminate|]. simpl.
  destruct (String.eqb_spec k k') as [->|Hne].
  - intros [= ->]. now left.
  - intros H. right. now apply IH.
Qed.

Lemma assoc_app_None {A : Type} (k : string) (l1 l2 : list (string * A)) :
  assoc k l1 = None -> assoc k (l1 ++ l2) = assoc k l2.
Proof.
  induction l1 as [|[k' a] l1 IH]; [reflexivity|]. simpl.
  destruct (String.eqb k k'); [discriminate | exact IH].
Qed.

Lemma assoc_app_Some {A : Type} (k : string) (v : A)
  (l1 l2 : list (string * A)) :
  assoc k l1 = Some v -> assoc k (l1 ++ l2) = Some v.
Proof.
  induction l1 as [|[k' a] l1 IH]; [discriminate|]. simpl.
  destruct (String.eqb k k'); [trivial | exact IH].
Qed.

(** The loop of [makeLocalGetters], from a proxy whose properties all read
    keys of the namespace that are not among the keys still to come. *)
Lemma defineLocalGetters_lookup (namespace : string) :
  forall (types : list string) (proxy : list (string * string)),
  NoDup types ->
  (forall l t, assoc l proxy = Some t -> t = namespace +:+ l /\ t ∉ types) ->
  exists proxy',
    defineLocalGetters namespace types proxy = Ok proxy' /\
    forall l,
      assoc l proxy' =
        match assoc l proxy with
        | Some t => Some t
        | None =>
            if bool_decide (namespace +:+ l ∈ types)
            then Some (namespace +:+ l) else None
        end.
Proof.
  induction types as [|type rest IH]; intros proxy Hnd Hproxy.
  - exists proxy. split; [reflexivity|]. intros l.
    destruct (assoc l proxy); [reflexivity|].
    rewrite bool_decide_eq_false_2; [reflexivity | apply not_elem_of_nil].
  - apply NoDup_cons in Hnd as [Hfresh Hnd]. cbn [defineLocalGetters].
    destruct (String.eqb_spec (slice_to (String.length namespace) type)
                namespace) as [Hpre|Hpre]; cbn [negb].
    + set (localType := slice_from (String.length namespace) type).
      assert (Htype : type = namespace +:+ localType).
      { rewrite <- (slice_to_from (String.length namespace) type) at 1.
        now rewrite Hpre. }
      destruct (assoc localType proxy) as [t|] eqn:Hdup.
      { destruct (Hproxy _ _ Hdup) as [-> Hnot]. exfalso. apply Hnot.
        rewrite <- Htype. now left. }
      destruct (IH (proxy ++ [(localType, type)]) Hnd) as (proxy' & Hrun & Hget).
      { intros l t Hl. destruct (assoc l proxy) as [t'|] eqn:Hold.
        - rewrite (assoc_app_Some _ _ _ _ Hold) in Hl. injection Hl as <-.
          destruct (Hproxy _ _ Hold) as [Ht Hnot]. split; [assumption|].
          intros Hin. apply Hnot. now right.
        - rewrite (assoc_app_None _ _ _ Hold) in Hl. simpl in Hl.
          destruct (String.eqb_spec l localType) as [->|Hne]; [|discriminate].
          injection Hl as <-. split; assumption. }
      exists proxy'. split; [exact Hrun|]. intros l. rewrite Hget.
      destruct (assoc l proxy) as [t'|] eqn:Hold.
      * now rewrite (assoc_app_Some _ _ _ _ Hold).
      * rewrite (assoc_app_None _ _ _ Hold). simpl.
        destruct (String.eqb_spec l localType) as [->|Hne].
        -- rewrite <- Htype. rewrite bool_decide_eq_true_2; [reflexivity|].
           now left.
        -- apply (f_equal (fun b : bool =>
                             if b then Some (namespace +:+ l) else None)).
           apply bool_decide_ext. rewrite elem_of_cons. split; [tauto|].
           intros [Heq|Hin]; [|assumption]. exfalso. apply Hne.
           rewrite Htype in Heq.
           now apply (String.app_inj namespace) in Heq.
    + destruct (IH proxy Hnd) as (proxy' & Hrun & Hget).
      { intros l t Hl. destruct (Hproxy _ _ Hl) as [Ht Hnot].
        split; [assumption|]. intros Hin. apply Hnot. now right. }
      exists proxy'. split; [exact Hrun|]. intros l. rewrite Hget.
      destruct (assoc l proxy); [reflexivity|].
      apply (f_equal (fun b : bool =>
                        if b then Some (namespace +:+ l) else None)).
      apply bool_decide_ext. rewrite elem_of_cons. split; [tauto|].
      intros [Heq|Hin]; [|assumption]. exfalso. apply Hpre.
      rewrite <- Heq. apply slice_to_append.
Qed.

(** X14.  On the keys of [store.getters], [makeLocalGetters] returns a
    proxy and does not throw; the proxy has the property [l] exactly when
    [store.getters] has the key [namespace + l], and its getter reads that
    key: the keys of other namespaces are not visible. *)
Theorem makeLocalGetters_strips_namespace (getters_keys : list string)
  (namespace : string) :
  NoDup getters_keys ->
  exists proxy,
    makeLocalGetters getters_keys namespace = Ok proxy /\
    forall l,
      assoc l proxy =
        if bool_decide (namespace +:+ l ∈ getters_keys)
        then Some (namespace +:+ l) else None.
Proof.
  intros Hnd.
  destruct (defineLocalGetters_lookup namespace getters_keys [] Hnd)
    as (proxy & Hrun & Hget); [discriminate|].
  exists proxy. split; [exact Hrun | exact Hget].
Qed.

Lemma makeLocalGetters_strips_namespace_witness :
  makeLocalGetters ["total"; "cart/total"; "cart/items/count"; "carts"] "cart/"
  = Ok [("total", "cart/total"); ("items/count", "cart/items/count")].
Proof.
  destruct (makeLocalGetters_strips_namespace
              ["total"; "cart/total"; "cart/items/count"; "carts"] "cart/")
    as (proxy & Hrun & _).
  - apply (bool_decide_unpack _). vm_compute. exact I.
  - rewrite Hrun. vm_compute in Hrun. now injection Hrun as <-.
Defined.

End StoreInternalsFacts.

(* ===================================================================== *)
(** ** More facts about the module tree                                   *)
(* ===================================================================== *)

Module TreeExtraFacts.
Import Util ModuleNode ModuleCollection Spec.

(** *** Paths *)

Lemma get_from_concat (p q : list string) : forall m,
  get_from (p ++ q) m =
    match get_from p m with
    | Ok m' => get_from q m'
    | Throw e => Throw e
    end.
Proof.
  induction p as [|k p IH]; intros m; simpl; [reflexivity|].
  destruct m as [n|]; [apply IH | reflexivity].
Qed.

(** X15.  [get] on a concatenated path goes on from the node that the
    first part reaches.  When the first part reaches no node, [get] on any
    longer path throws; when it reaches a node without the child [k], [get]
    returns [undefined] for the path that ends with [k]. *)
Theorem get_missing_segment (p : list string) (k : string)
  (q : list string) (c : Collection) :
  (get p c = Ok None -> get (p ++ k :: q) c = Throw TypeError) /\
  (forall n, get p c = Ok (Some n) -> getChild k n = None ->
             get (p ++ [k]) c = Ok None /\
             forall k' q', get (p ++ k :: k' :: q') c = Throw TypeError).
Proof.
  unfold get. split.
  - intros H. now rewrite get_from_concat, H.
  - intros n H Hk. split.
    + rewrite get_from_concat, H. simpl. now rewrite Hk.
    + intros k' q'. rewrite get_from_concat, H. simpl. now rewrite Hk.
Qed.

Lemma get_missing_segment_witness :
  get ["a"; "x"] Samples.tree_abcd = Ok None /\
  get ["a"; "x"; "y"] Samples.tree_abcd = Throw TypeError.
Proof.
  destruct (get ["a"] Samples.tree_abcd) as [[n|]|e] eqn:Ha;
    try (vm_compute in Ha; discriminate).
  destruct (get_missing_segment ["a"] "x" [] Samples.tree_abcd)
    as [_ Hmiss].
  destruct (Hmiss n Ha) as [Hlast Hdeep].
  - vm_compute in Ha. injection Ha as <-. vm_compute. reflexivity.
  - split; [exact Hlast | exact (Hdeep "y" [])].
Defined.

Lemma getNamespace_from_step (p : list string) (k : string) :
  forall m acc,
  getNamespace_from (p ++ [k]) m acc =
    match getNamespace_from p m acc, get_from p m with
    | Ok ns, Ok (Some n) =>
        match getChild k n with
        | Some child =>
            Ok (ns +:+ (if namespaced child then k +:+ "/" else ""))
        | None => Throw TypeError
        end
    | Ok ns, Ok None => Throw TypeError
    | Ok ns, Throw e => Throw e
    | Throw e, _ => Throw e
    end.
Proof.
  induction p as [|k0 p IH]; intros m acc; simpl.
  - destruct m as [n|]; [|reflexivity]. now destruct (getChild k n).
  - destruct m as [n|]; [|reflexivity].
    destruct (getChild k0 n) as [child|] eqn:Hc; [apply IH|].
    reflexivity.
Qed.

(** X16.  [getNamespace] throws where [get] only returns [undefined]: for
    a non-empty path that does not resolve to a node, whether a segment in
    the middle or the last one is missing, the result is a [TypeError]. *)
Theorem getNamespace_unresolved_throws (path : list string) (c : Collection) :
  path <> [] ->
  (forall n, get path c <> Ok (Some n)) ->
  getNamespace path c = Throw TypeError.
Proof.
  unfold get, getNamespace. generalize (root c) as m. generalize "" as acc.
  induction path as [|k path IH]; intros acc m Hne Hno; [congruence|].
  simpl in *. destruct m as [n|]; [|reflexivity].
  destruct (getChild k n) as [child|] eqn:Hc; [|reflexivity].
  destruct path as [|k' path]; [exfalso; now apply (Hno child)|].
  apply IH; [discriminate | exact Hno].
Qed.

Lemma getNamespace_unresolved_throws_witness :
  get ["a"; "x"] Samples.tree_abcd = Ok None /\
  getNamespace ["a"; "x"] Samples.tree_abcd = Throw TypeError.
Proof.
  split; [vm_compute; reflexivity|].
  apply getNamespace_unresolved_throws; [discriminate|].
  intros n H. vm_compute in H. discriminate.
Defined.

(** X17.  The namespace of a child extends the namespace of its parent:
    by the child's key and the separator when the child is namespaced, by
    nothing otherwise. *)
Theorem getNamespace_extends_parent (p : list string) (k : string)
  (c : Collection) (child : Module) :
  get (p ++ [k]) c = Ok (Some child) ->
  exists ns,
    getNamespace p c = Ok ns /\
    getNamespace (p ++ [k]) c
    = Ok (ns +:+ (if namespaced child then k +:+ "/" else "")).
Proof.
  unfold get, getNamespace. intros H.
  rewrite getNamespace_from_step.
  rewrite get_from_concat in H.
  destruct (get_from p (root c)) as [[n|]|e] eqn:Hp; try discriminate.
  simpl in H.
  assert (Hns : exists ns, getNamespace_from p (root c) "" = Ok ns).
  { destruct (root c) as [r|]; [|now destruct p].
    destruct (NamespaceFacts.get_from_nodes _ _ _ Hp) as (nodes & Hn & _).
    rewrite (NamespaceFacts.getNamespace_from_nodes _ _ _ "" Hn). eauto. }
  destruct Hns as [ns Hns]. exists ns. rewrite Hns.
  split; [reflexivity|].
  destruct (getChild k n) as [ch|]; [|discriminate].
  now injection H as ->.
Qed.

Lemma getNamespace_extends_parent_witness :
  getNamespace ["a"; "b"] Samples.tree_abcd = Ok "a/" /\
  getNamespace ["a"; "b"; "c"] Samples.tree_abcd = Ok "a/c/".
Proof.
  destruct (get (["a"; "b"] ++ ["c"]) Samples.tree_abcd)
    as [[child|]|e] eqn:Hget; try (vm_compute in Hget; discriminate).
  destruct (getNamespace_extends_parent ["a"; "b"] "c" Samples.tree_abcd
              child Hget) as (ns & Hparent & Hchild).
  split; [vm_compute; reflexivity|].
  change (["a"; "b"; "c"]) with (["a"; "b"] ++ ["c"]). rewrite Hchild.
  vm_compute in Hparent. injection Hparent as <-.
  vm_compute in Hget. injection Hget as <-. reflexivity.
Defined.

(** *** Hot update keeps the skeleton *)

Lemma same_skeleton_refl (m : Module) : same_skeleton m m.
Proof.
  intros path. destruct (get_from path (Some m)) as [[n|]|e]; auto.
Qed.

Lemma same_skeleton_trans (a b c : Module) :
  same_skeleton a b -> same_skeleton b c -> same_skeleton a c.
Proof.
  intros Hab Hbc path. specialize (Hab path). specialize (Hbc path).
  destruct (get_from path (Some a)) as [[na|]|ea],
           (get_from path (Some b)) as [[nb|]|eb],
           (get_from path (Some c)) as [[nc|]|ec]; try tauto.
  destruct Hab as [-> ->]. exact Hbc.
Qed.

Lemma same_skeleton_update (raw : RawModule) (m : Module) :
  same_skeleton m (ModuleNode.update raw m).
Proof.
  intros [|k path]; simpl; [split; reflexivity|].
  change (getChild k (ModuleNode.update raw m)) with (getChild k m).
  destruct (get_from path (getChild k m)) as [[n|]|e]; auto.
Qed.

Lemma same_skeleton_child (k : string) (c c' t : Module) :
  getChild k t = Some c ->
  same_skeleton c c' ->
  same_skeleton t (addChild k c' t).
Proof.
  intros Hc Hcc [|k0 path]; simpl; [split; reflexivity|].
  destruct (decide (k = k0)) as [<-|Hne].
  - rewrite TreeFacts.getChild_addChild, Hc. apply Hcc.
  - rewrite (TreeFacts.getChild_addChild_ne _ _ _ _ Hne).
    destruct (get_from path (getChild k0 t)) as [[n|]|e]; auto.
Qed.

Lemma update_children_skeleton {D : Type} (production : bool)
  (own : string -> res bool)
  (upd : list string -> D -> M Module unit) (path : list string)
  (children : list (string * D)) :
  Forall (fun kd => forall p c, same_skeleton c (final (upd p (snd kd) c)))
    children ->
  forall t,
    same_skeleton t
      (final (update_children production own upd path children t)).
Proof.
  induction 1 as [|[k d] children Hd _ IH]; intros t;
    [apply same_skeleton_refl|].
  rewrite TreeFacts.update_children_cons.
  destruct (own k) as [[]|e]; [|apply IH|apply same_skeleton_refl].
  rewrite TreeFacts.bind_gets.
  destruct (getChild k t) as [c|] eqn:Hc.
  - unfold bind, on_child.
    specialize (Hd (path ++ [k]) c). cbn [snd] in Hd.
    destruct (upd (path ++ [k]) d c) as [[[[]|e] c'] evs];
      unfold final in Hd; cbn [fst snd] in Hd.
    + specialize (IH (addChild k c' t)).
      destruct (update_children production own upd path children
                  (addChild k c' t)) as [[r t'] evs'].
      unfold final in *. cbn [fst snd] in *.
      eapply same_skeleton_trans; [|exact IH].
      now apply (same_skeleton_child k c).
    + unfold final. cbn [fst snd]. now apply (same_skeleton_child k c).
  - destruct production; apply same_skeleton_refl.
Qed.

(** X18.  A hot update, whether it returns or throws half-way, leaves the
    tree with the same paths, and every node with its state slice and its
    [runtime] flag: it registers no module, drops none and resets no
    state. *)
Theorem hot_update_keeps_skeleton (production : bool) :
  forall (new : RawModule) (path : list string) (target : Module),
  same_skeleton target (final (update_module production path new target)).
Proof.
  induction new as [new IH] using TreeFacts.RawModule_nested_ind.
  intros path target. rewrite TreeFacts.update_module_eq.
  destruct (TreeFacts.assertRawModule_pure production path new target)
    as [r Hassert].
  unfold bind at 1. rewrite Hassert.
  destruct r as [[]|e]; [|apply same_skeleton_refl].
  unfold bind, modify.
  destruct (modules new) as [children|] eqn:Hm.
  - specialize (IH _ eq_refl).
    assert (IH' : Forall (fun kd => forall p c,
                    same_skeleton c
                      (final (update_module production p (snd kd) c)))
                    (for_in children)).
    { rewrite Forall_forall in IH. apply Forall_forall. intros kd Hin.
      apply IH. now apply TreeFacts.for_in_elem. }
    pose proof (update_children_skeleton production
                  (hasOwnProperty children)
                  (update_module production) path (for_in children) IH'
                  (ModuleNode.update new target)) as Hloop.
    destruct (update_children production (hasOwnProperty children)
                (update_module production) path
                (for_in children) (ModuleNode.update new target))
      as [[r t'] evs].
    unfold final in *. cbn [fst snd] in *.
    eapply same_skeleton_trans; [apply same_skeleton_update | exact Hloop].
  - apply same_skeleton_update.
Qed.

(** *** [register] and the rest of the tree *)

Lemma write_at_diverge (f : Module -> Module) :
  forall (common : list string) (k1 k2 : string) (p' q' : list string)
         (m : Module),
  k1 <> k2 ->
  get_from (common ++ k2 :: q') (Some (write_at (common ++ k1 :: p') f m))
  = get_from (common ++ k2 :: q') (Some m).
Proof.
  induction common as [|k common IH]; intros k1 k2 p' q' m Hne; simpl.
  - destruct (getChild k1 m) as [child|]; [|reflexivity].
    now rewrite TreeFacts.getChild_addChild_ne.
  - destruct (getChild k m) as [child|] eqn:Hc; [|now rewrite Hc].
    rewrite TreeFacts.getChild_addChild. now apply IH.
Qed.

(** X19.  [register] and [unregister] at a path leave every node on a
    path that parts ways with it where it was: a branch of the tree is not
    touched by what happens in another. *)
Theorem register_unregister_frame (production rt : bool) (raw : RawModule)
  (path q : list string) (c : Collection) :
  diverge path q ->
  (production = true \/ valid_definition raw = true ->
   attachable path c ->
   get q (final (register production path raw rt c)) = get q c) /\
  get q (final (unregister path c)) = get q c.
Proof.
  intros (common & k1 & k2 & p' & q' & Hne & -> & ->).
  assert (Hpp : forall l : list string, l <> [] ->
            exists k1' p'', common ++ k1 :: l = (common ++ k1 :: p'') ++ [k1']
                            /\ parent_path (common ++ k1 :: l)
                               = common ++ k1 :: p'').
  { intros l Hl. destruct (exists_last Hl) as (p'' & k1' & ->).
    exists k1', p''.
    rewrite (app_comm_cons p'' [k1'] k1), app_assoc.
    split; [reflexivity | apply TreeFacts.parent_path_app]. }
  assert (Hwrite : forall f,
            (p' = [] -> forall m, getChild k2 (f m) = getChild k2 m) ->
            get (common ++ k2 :: q')
              {| root := write_at (parent_path (common ++ k1 :: p')) f
                           <$> root c |}
            = get (common ++ k2 :: q') c).
  { intros f Hf. unfold get. cbn [root].
    destruct (root c) as [r|]; [|reflexivity].
    cbn [fmap option_fmap option_map].
    destruct p' as [|x p'].
    - rewrite TreeFacts.parent_path_app. specialize (Hf eq_refl).
      clear Hpp. revert r. induction common as [|k common IH]; intros r; simpl.
      + now rewrite Hf.
      + destruct (getChild k r) as [child|] eqn:Hc; [|now rewrite Hc].
        rewrite TreeFacts.getChild_addChild. apply IH.
    - destruct (Hpp (x :: p')) as (k1' & p'' & _ & ->); [discriminate|].
      now apply write_at_diverge. }
  assert (Hlast : p' = [] -> last_key (common ++ k1 :: p') = k1).
  { intros ->. apply TreeFacts.last_key_app. }
  split.
  - intros Hvalid Hatt.
    rewrite (TreeFacts.register_places production rt raw _ c Hvalid Hatt).
    unfold final. cbn [fst snd].
    assert (Hplace : forall n,
              place (common ++ k1 :: p') n c
              = {| root := write_at (parent_path (common ++ k1 :: p'))
                             (addChild (last_key (common ++ k1 :: p')) n)
                             <$> root c |}).
    { intros n. unfold place.
      destruct (common ++ k1 :: p') eqn:E; [now destruct common|].
      reflexivity. }
    rewrite Hplace. apply Hwrite. intros Hp' m. rewrite (Hlast Hp').
    now apply TreeFacts.getChild_addChild_ne.
  - unfold unregister, bind, lift.
    destruct (get (parent_path (common ++ k1 :: p')) c) as [[parent|]|e];
      try reflexivity.
    cbn. destruct (getChild (last_key (common ++ k1 :: p')) parent)
      as [child|]; [|reflexivity].
    destruct (runtime child); cbn; [|reflexivity].
    apply Hwrite. intros Hp' m. rewrite (Hlast Hp').
    unfold getChild, removeChild; simpl. now apply lookup_delete_ne.
Qed.

(** [register(['a', 'e'], {})] on the sample tree leaves the node at
    [['a', 'b', 'c']] and the node at [['d']] where they were. *)
Lemma register_unregister_frame_witness :
  let c' := final (register false ["a"; "e"] (Samples.raw_node false []) true
                     Samples.tree_abcd) in
  get ["a"; "b"; "c"] c' = get ["a"; "b"; "c"] Samples.tree_abcd /\
  get ["d"] c' = get ["d"] Samples.tree_abcd.
Proof.
  intros c'. subst c'. split.
  - refine (proj1 (register_unregister_frame false true
                     (Samples.raw_node false []) ["a"; "e"] ["a"; "b"; "c"]
                     Samples.tree_abcd _) _ _).
    + exists ["a"], "e", "b", [], ["c"]. repeat split. discriminate.
    + now right.
    + right. destruct (get (parent_path ["a"; "e"]) Samples.tree_abcd)
        as [[n|]|e] eqn:Hp; try (vm_compute in Hp; discriminate).
      now exists n.
  - refine (proj1 (register_unregister_frame false true
                     (Samples.raw_node false []) ["a"; "e"] ["d"]
                     Samples.tree_abcd _) _ _).
    + exists [], "a", "d", ["e"], []. repeat split. discriminate.
    + now right.
    + right. destruct (get (parent_path ["a"; "e"]) Samples.tree_abcd)
        as [[n|]|e] eqn:Hp; try (vm_compute in Hp; discriminate).
      now exists n.
Defined.

(** *** Round trip and content of a registration *)

Lemma write_at_id (f : Module -> Module) : forall (p : list string)
  (m n : Module),
  get_from p (Some m) = Ok (Some n) ->
  f n = n ->
  write_at p f m = m.
Proof.
  induction p as [|k p IH]; intros m n H Hf; simpl in *.
  - now injection H as ->.
  - destruct (getChild k m) as [child|] eqn:Hc;
      [|now apply TreeFacts.get_from_None in H].
    rewrite (IH _ _ H Hf). unfold addChild, getChild in *.
    destruct m as [rt ch raw st]. simpl in *. f_equal.
    now apply insert_id.
Qed.

Lemma built_eq (rt : bool) (raw : RawModule) :
  built rt raw =
    match modules raw with
    | None => new_Module raw rt
    | Some children =>
        fold_left (fun m kc => addChild (fst kc) (built rt (snd kc)) m)
          children (new_Module raw rt)
    end.
Proof. now destruct raw. Qed.

Lemma runtime_fold_addChild (sub : string * RawModule -> Module)
  (children : list (string * RawModule)) : forall m,
  runtime (fold_left (fun m kc => addChild (fst kc) (sub kc) m) children m)
  = runtime m.
Proof.
  induction children as [|kc children IH]; intros m; [reflexivity|].
  simpl. now rewrite IH.
Qed.

Lemma runtime_built (rt : bool) (raw : RawModule) : runtime (built rt raw) = rt.
Proof.
  rewrite built_eq. destruct (modules raw); [|reflexivity].
  now rewrite (runtime_fold_addChild (fun kc => built rt (snd kc))).
Qed.

(** X20.  Registering a module under a key that its parent does not have
    yet and unregistering it again gives back the tree as it was. *)
Theorem register_then_unregister_restores (production : bool)
  (raw : RawModule) (p : list string) (k : string) (c : Collection)
  (parent : Module) :
  production = true \/ valid_definition raw = true ->
  get p c = Ok (Some parent) ->
  getChild k parent = None ->
  (register production (p ++ [k]) raw true >> unregister (p ++ [k])) c
  = (Ok tt, c, []).
Proof.
  intros Hvalid Hp Hfresh.
  assert (Hatt : attachable (p ++ [k]) c).
  { right. exists parent. now rewrite TreeFacts.parent_path_app. }
  unfold bind.
  rewrite (TreeFacts.register_places production true raw _ c Hvalid Hatt).
  pose proof (TreeFacts.get_place _ (built true raw) c Hatt) as Hnode.
  pose proof (runtime_built true raw) as Hrt.
  destruct (TreeFacts.unregister_runtime _ _ _ _ Hnode Hrt) as [Hrun _].
  rewrite Hrun. cbn [app]. f_equal. f_equal.
  rewrite TreeFacts.place_app. cbn [root].
  unfold get in Hp. destruct c as [[r|]]; cbn [root] in *;
    [|now apply TreeFacts.get_from_None in Hp].
  cbn [fmap option_fmap option_map]. do 2 f_equal.
  rewrite (TreeFacts.write_at_write_at _ _ _ _ _ Hp).
  apply (write_at_id _ _ _ _ Hp).
  unfold removeChild, addChild, getChild in *.
  destruct parent as [rt ch raw' st]. simpl in *. f_equal.
  now apply delete_insert_id.
Qed.

Lemma register_then_unregister_restores_witness :
  (register false ["a"; "e"] (Samples.raw_node true []) true
   >> unregister ["a"; "e"]) Samples.tree_abcd
  = (Ok tt, Samples.tree_abcd, []).
Proof.
  destruct (get ["a"] Samples.tree_abcd) as [[parent|]|e] eqn:Hp;
    try (vm_compute in Hp; discriminate).
  apply (register_then_unregister_restores false (Samples.raw_node true [])
           ["a"] "e" Samples.tree_abcd parent); [now right | exact Hp |].
  vm_compute in Hp. injection Hp as <-. vm_compute. reflexivity.
Defined.

Lemma getChild_fold_addChild (sub : string * RawModule -> Module) (k : string)
  (children : list (string * RawModule)) : forall m,
  is_Some (getChild k
             (fold_left (fun m kc => addChild (fst kc) (sub kc) m) children m))
  <-> k ∈ List.map fst children \/ is_Some (getChild k m).
Proof.
  induction children as [|[k0 d] children IH]; intros m; simpl.
  - split; [now right|]. intros [H|H]; [now apply elem_of_nil in H | exact H].
  - rewrite IH, elem_of_cons. destruct (decide (k0 = k)) as [->|Hne].
    + rewrite TreeFacts.getChild_addChild. split; [tauto|]. intros _.
      right. eauto.
    + rewrite (TreeFacts.getChild_addChild_ne _ _ _ _ Hne). split.
      * intros [H|H]; tauto.
      * intros [[H|H]|H]; [congruence | tauto | tauto].
Qed.

Lemma all_runtime_new (rt : bool) (raw : RawModule) :
  all_runtime rt (new_Module raw rt).
Proof.
  intros [|k path] n H; simpl in H.
  - now injection H as <-.
  - unfold getChild in H. simpl in H. rewrite lookup_empty in H.
    now apply TreeFacts.get_from_None in H.
Qed.

Lemma all_runtime_addChild (rt : bool) (k : string) (x m : Module) :
  all_runtime rt x -> all_runtime rt m -> all_runtime rt (addChild k x m).
Proof.
  intros Hx Hm [|k0 path] n H; simpl in H.
  - injection H as <-. apply (Hm [] m eq_refl).
  - destruct (decide (k = k0)) as [<-|Hne].
    + rewrite TreeFacts.getChild_addChild in H. now apply (Hx path).
    + rewrite (TreeFacts.getChild_addChild_ne _ _ _ _ Hne) in H.
      now apply (Hm (k0 :: path)).
Qed.

Lemma all_runtime_built (rt : bool) : forall raw, all_runtime rt (built rt raw).
Proof.
  induction raw as [raw IH] using TreeFacts.RawModule_nested_ind.
  rewrite built_eq. destruct (modules raw) as [children|] eqn:Hm;
    [|apply all_runtime_new].
  specialize (IH _ eq_refl). clear Hm.
  generalize (all_runtime_new rt raw). generalize (new_Module raw rt).
  induction children as [|kc children IHc]; intros m Hm'; [exact Hm'|].
  apply Forall_cons in IH as [Hkc IH]. simpl. apply (IHc IH).
  now apply all_runtime_addChild.
Qed.

(** X21.  After [register], the node at the path has a child for each key
    of the definition's [modules] and for no other key, so that a node it
    replaces goes with all its children; and every node at or below the
    path carries the [runtime] flag of the call. *)
Theorem registered_subtree_content (production rt : bool) (raw : RawModule)
  (path : list string) (c : Collection) :
  production = true \/ valid_definition raw = true ->
  attachable path c ->
  let c' := final (register production path raw rt c) in
  (forall k,
     (exists n, get (path ++ [k]) c' = Ok (Some n))
     <-> k ∈ List.map fst (default [] (modules raw))) /\
  (forall q n, get (path ++ q) c' = Ok (Some n) -> runtime n = rt).
Proof.
  intros Hvalid Hatt c'. subst c'.
  rewrite (TreeFacts.register_places production rt raw _ c Hvalid Hatt).
  unfold final. cbn [fst snd].
  pose proof (TreeFacts.get_place _ (built rt raw) c Hatt) as Hnode.
  unfold get in *.
  split.
  - intros k. rewrite get_from_concat, Hnode. simpl.
    transitivity (is_Some (getChild k (built rt raw))).
    { split; [intros [n [= Hn]]; eauto | intros [n Hn]; exists n; now rewrite Hn]. }
    rewrite built_eq. destruct (modules raw) as [children|]; cbn [default].
    + rewrite (getChild_fold_addChild (fun kc => built rt (snd kc))).
      split; [|tauto]. intros [H|[x H]]; [exact H|].
      unfold getChild in H. simpl in H. now rewrite lookup_empty in H.
    + unfold getChild. simpl. rewrite lookup_empty. split.
      * intros [x H]. discriminate.
      * intros H. now apply elem_of_nil in H.
  - intros q n. rewrite get_from_concat, Hnode. apply all_runtime_built.
Qed.

(** Registering [{ modules: { f: {} } }] over the node [a] of the sample
    tree: [a] has the child [f] and has lost [b]. *)
Lemma registered_subtree_content_witness :
  let c' := final (register false ["a"]
                     (Samples.raw_node false [("f", Samples.raw_node false [])])
                     true Samples.tree_abcd) in
  (exists n, get ["a"; "f"] c' = Ok (Some n)) /\
  ~ (exists n, get ["a"; "b"] c' = Ok (Some n)).
Proof.
  intros c'. subst c'.
  destruct (registered_subtree_content false true
              (Samples.raw_node false [("f", Samples.raw_node false [])])
              ["a"] Samples.tree_abcd) as [Hkeys _].
  - now right.
  - right. destruct (get (parent_path ["a"]) Samples.tree_abcd)
      as [[n|]|e] eqn:Hp; try (vm_compute in Hp; discriminate).
    now exists n.
  - split.
    + apply (Hkeys "f"). now left.
    + intros H. apply (Hkeys "b") in H. cbn in H.
      apply elem_of_cons in H as [H|H]; [discriminate|].
      now apply elem_of_nil in H.
Defined.

(** X22.  No module of the tree that the constructor builds can be
    unregistered: every node is created with [runtime = false], and
    [unregister] on any of its paths returns without a change. *)
Theorem constructed_modules_stay (production : bool) (raw : RawModule) :
  production = true \/ valid_definition raw = true ->
  let out := new_ModuleCollection production raw {| root := None |} in
  result out = Ok tt /\
  forall p k node,
    get (p ++ [k]) (final out) = Ok (Some node) ->
    unregister (p ++ [k]) (final out) = (Ok tt, final out, []).
Proof.
  intros Hvalid out. subst out. unfold new_ModuleCollection.
  rewrite (TreeFacts.register_places production false raw [] _ Hvalid)
    by (now left).
  split; [reflexivity|]. unfold final. cbn [fst snd].
  intros p k node Hget.
  apply (TreeFacts.unregister_static _ _ _ _ Hget).
  unfold get in Hget. cbn in Hget.
  exact (all_runtime_built false raw _ _ Hget).
Qed.

Lemma constructed_modules_stay_witness :
  unregister ["a"; "b"; "c"] Samples.tree_abcd
  = (Ok tt, Samples.tree_abcd, []).
Proof.
  destruct (constructed_modules_stay false Samples.raw_abcd) as [_ Hstay];
    [now right|].
  destruct (get (["a"; "b"] ++ ["c"]) Samples.tree_abcd)
    as [[node|]|e] eqn:Hget; try (vm_compute in Hget; discriminate).
  exact (Hstay ["a"; "b"] "c" node Hget).
Defined.

(** *** Validation *)

Lemma assertTable_throws {S : Type} (path : list string) (key : string)
  (check : decl -> res bool) (ok : decl -> bool)
  (table : option (list (string * decl))) (s : S) :
  (forall d, ok d = true -> check d = Ok true) ->
  (forall d, ok d = false -> check d <> Ok true) ->
  table_ok ok table = false ->
  exists e, assertTable path key check table s = (Throw e, s, []).
Proof.
  intros Hyes Hno. destruct table as [entries|]; [|discriminate].
  unfold assertTable, table_ok.
  induction entries as [|[type v] entries IH]; intros Hbad; [discriminate|].
  simpl in Hbad. rewrite TreeFacts.forEachValue_cons. unfold bind.
  destruct (ok v) eqn:Hv.
  - rewrite (Hyes _ Hv). cbn. destruct (IH Hbad) as [e ->]. eauto.
  - specialize (Hno _ Hv). destruct (check v) as [[]|e']; cbn; eauto.
    congruence.
Qed.

Lemma functionAssert_is_function (d : decl) :
  (is_function d = true -> functionAssert d = Ok true) /\
  (is_function d = false -> functionAssert d <> Ok true).
Proof. destruct d; simpl; split; congruence. Qed.

Lemma objectAssert_is_action (d : decl) :
  (is_action d = true -> objectAssert d = Ok true) /\
  (is_action d = false -> objectAssert d <> Ok true).
Proof.
  destruct d as [f|fields|v]; simpl.
  - split; congruence.
  - destruct (assoc "handler" fields) as [[]|]; split; congruence.
  - destruct v; split; congruence.
Qed.

Lemma assertRawModule_tables {S : Type} (path : list string)
  (raw : RawModule) (s : S) :
  if tables_valid raw
  then assertRawModule path raw s = (Ok tt, s, [])
  else exists e, assertRawModule path raw s = (Throw e, s, []).
Proof.
  unfold tables_valid, assertRawModule, bind.
  destruct (table_ok is_function (getters raw)) eqn:Hg; cbn [andb].
  - rewrite (TreeFacts.assertTable_ok path "getters" functionAssert
               is_function (getters raw) s
               (fun d => proj1 (functionAssert_is_function d)) Hg).
    destruct (table_ok is_function (mutations raw)) eqn:Hm; cbn [andb].
    + rewrite (TreeFacts.assertTable_ok path "mutations" functionAssert
                 is_function (mutations raw) s
                 (fun d => proj1 (functionAssert_is_function d)) Hm).
      destruct (table_ok is_action (actions raw)) eqn:Ha.
      * now rewrite (TreeFacts.assertTable_ok path "actions" objectAssert
                       is_action (actions raw) s
                       (fun d => proj1 (objectAssert_is_action d)) Ha).
      * destruct (assertTable_throws path "actions" objectAssert is_action
                    (actions raw) s
                    (fun d => proj1 (objectAssert_is_action d))
                    (fun d => proj2 (objectAssert_is_action d)) Ha)
          as [e ->]. eauto.
    + destruct (assertTable_throws path "mutations" functionAssert
                  is_function (mutations raw) s
                  (fun d => proj1 (functionAssert_is_function d))
                  (fun d => proj2 (functionAssert_is_function d)) Hm)
        as [e ->]. eauto.
  - destruct (assertTable_throws path "getters" functionAssert is_function
                (getters raw) s
                (fun d => proj1 (functionAssert_is_function d))
                (fun d => proj2 (functionAssert_is_function d)) Hg)
      as [e ->]. eauto.
Qed.

Lemma register_invalid_throws (raw : RawModule) (rt : bool)
  (path : list string) (c : Collection) :
  tables_valid raw = false ->
  exists e, register false path raw rt c = (Throw e, c, []).
Proof.
  intros Hbad. pose proof (assertRawModule_tables path raw c) as H.
  rewrite Hbad in H. destruct H as [e He].
  exists e. rewrite TreeFacts.register_eq. unfold bind at 1.
  cbn [negb when]. now rewrite He.
Qed.

(** X23.  In a non-production build the validation comes first: a
    definition with a getter or mutation that is not a function, or an
    action that is neither a function nor an object with a [handler]
    function, makes [register] and the hot update throw before they touch
    the tree. *)
Theorem invalid_tables_rejected_first (raw : RawModule) (rt : bool)
  (path : list string) (c : Collection) (target : Module) :
  tables_valid raw = false ->
  (exists e, register false path raw rt c = (Throw e, c, [])) /\
  (exists e, update_module false path raw target = (Throw e, target, [])).
Proof.
  intros Hbad. split.
  - now apply register_invalid_throws.
  - pose proof (assertRawModule_tables path raw target) as H.
    rewrite Hbad in H. destruct H as [e He].
    exists e. rewrite TreeFacts.update_module_eq. unfold bind at 1.
    cbn [negb when]. now rewrite He.
Qed.

Lemma invalid_tables_rejected_first_witness :
  let raw := {| namespaced_field := VUndef;
                state_field := StateValue (VObj []);
                getters := Some [("total", DData (VNum 3))];
                mutations := None; actions := None; modules := None |} in
  register false ["a"; "e"] raw true Samples.tree_abcd
  = (Throw (RawModuleAssertion ["a"; "e"] "getters" "total"),
     Samples.tree_abcd, []).
Proof.
  intros raw.
  destruct (invalid_tables_rejected_first raw true ["a"; "e"]
              Samples.tree_abcd Samples.root_abcd eq_refl) as [[e He] _].
  rewrite He. f_equal. f_equal.
  assert (Hres : result (register false ["a"; "e"] raw true Samples.tree_abcd)
                 = Throw e) by now rewrite He.
  vm_compute in Hres. exact (eq_sym Hres).
Defined.

(** X24.  The validation of a nested definition runs when its own turn
    comes: when the definition passes and its first child does not,
    [register] throws after it has attached the parent node, which stays in
    the tree without children. *)
Theorem invalid_child_leaves_parent (raw child : RawModule) (k : string)
  (rest : list (string * RawModule)) (rt : bool) (path : list string)
  (c : Collection) :
  tables_valid raw = true ->
  modules raw = Some ((k, child) :: rest) ->
  tables_valid child = false ->
  attachable path c ->
  exists e,
    register false path raw rt c
    = (Throw e, place path (new_Module raw rt) c, []) /\
    get path (place path (new_Module raw rt) c)
    = Ok (Some (new_Module raw rt)).
Proof.
  intros Hok Hm Hbad Hatt.
  destruct (register_invalid_throws child rt (path ++ [k])
              (place path (new_Module raw rt) c) Hbad) as [e He].
  exists e. split; [|now apply TreeFacts.get_place].
  rewrite TreeFacts.register_eq. unfold bind at 1. cbn [negb when].
  pose proof (assertRawModule_tables path raw c) as Hassert.
  rewrite Hok in Hassert. rewrite Hassert. cbv zeta.
  unfold bind at 1.
  assert (Hattach :
    (match path with
     | [] => modify (fun _ => {| root := Some (new_Module raw rt) |})
     | _ =>
         do parent <- (fun c => lift (get (parent_path path) c) c);
         match parent with
         | None => throw TypeError
         | Some _ =>
             modify (fun c =>
               {| root := write_at (parent_path path)
                            (addChild (last_key path) (new_Module raw rt))
                            <$> root c |})
         end
     end) c = (Ok tt, place path (new_Module raw rt) c, [])).
  { destruct Hatt as [->|(parent & Hp)]; [reflexivity|].
    destruct path as [|k0 p0]; [reflexivity|].
    cbv beta iota. unfold bind. rewrite Hp. reflexivity. }
  rewrite Hattach, Hm. rewrite TreeFacts.forEachValue_cons.
  unfold bind. now rewrite He.
Qed.

Lemma invalid_child_leaves_parent_witness :
  let bad := {| namespaced_field := VUndef;
                state_field := StateValue (VObj []);
                getters := None;
                mutations := Some [("add", DData (VStr "oops"))];
                actions := None; modules := None |} in
  let raw := Samples.raw_node false [("bad", bad)] in
  exists e,
    register false ["e"] raw true Samples.tree_abcd
    = (Throw e, place ["e"] (new_Module raw true) Samples.tree_abcd, []).
Proof.
  intros bad raw.
  destruct (invalid_child_leaves_parent raw bad "bad" [] true ["e"]
              Samples.tree_abcd eq_refl eq_refl eq_refl) as (e & He & _).
  - right. destruct (get (parent_path ["e"]) Samples.tree_abcd)
      as [[n|]|e] eqn:Hp; try (vm_compute in Hp; discriminate).
    now exists n.
  - now exists e.
Defined.

(** *** A child named [hasOwnProperty] *)

Lemma for_in_nonempty {A : Type} (p : string * A) (props : list (string * A)) :
  for_in (p :: props) <> [].
Proof.
  unfold for_in, is_array_index. cbn [indexed_properties List.filter].
  destruct (array_index (fst p)) as [i|]; cbn [negb].
  - destruct (indexed_properties props) as [|[j q] sorted]; cbn [insert_index].
    + discriminate.
    + destruct (i <? j)%N; discriminate.
  - intros H. apply app_eq_nil in H as [_ H]. discriminate.
Qed.

(** X26.  The loop of the hot update calls
    [newModule.modules.hasOwnProperty(key)] on the object of the child
    definitions: when that object has a child named ["hasOwnProperty"], the
    call finds the child definition instead of the method and throws a
    [TypeError] at the first key, after the node's own fields have been
    overwritten and before any child is updated. *)
Theorem hot_update_shadowed_hasOwnProperty (production : bool)
  (path : list string) (new : RawModule) (target : Module)
  (children : list (string * RawModule)) (d : RawModule) :
  modules new = Some children ->
  assoc "hasOwnProperty" children = Some d ->
  production = true \/ tables_valid new = true ->
  update_module production path new target
  = (Throw TypeError, ModuleNode.update new target, []).
Proof.
  intros Hm Hshadow Hvalid. rewrite TreeFacts.update_module_eq.
  assert (Hassert : when (negb production) (assertRawModule path new) target
                    = (Ok tt, target, [])).
  { destruct Hvalid as [->|Hvalid]; [reflexivity|].
    destruct production; [reflexivity|]. cbn [negb when].
    pose proof (assertRawModule_tables path new target) as H.
    now rewrite Hvalid in H. }
  unfold bind at 1. rewrite Hassert.
  unfold bind at 1. unfold modify at 1. rewrite Hm.
  destruct children as [|p children]; [discriminate|].
  destruct (for_in (p :: children)) as [|[k def] rest] eqn:Henum;
    [now apply for_in_nonempty in Henum|].
  rewrite TreeFacts.update_children_cons.
  unfold hasOwnProperty. rewrite Hshadow. reflexivity.
Qed.

(** A hot update of the sample root with
    [{ modules: { hasOwnProperty: {} } }]. *)
Lemma hot_update_shadowed_hasOwnProperty_witness :
  let new := Samples.raw_node true
               [("hasOwnProperty", Samples.raw_node false [])] in
  update_module false [] new Samples.root_abcd
  = (Throw TypeError, ModuleNode.update new Samples.root_abcd, []) /\
  namespaced (ModuleNode.update new Samples.root_abcd) = true.
Proof.
  intros new. split; [|reflexivity].
  apply (hot_update_shadowed_hasOwnProperty false [] new Samples.root_abcd
           [("hasOwnProperty", Samples.raw_node false [])]
           (Samples.raw_node false [])); [reflexivity|reflexivity|].
  right. reflexivity.
Defined.

End TreeExtraFacts.

(* ===================================================================== *)
(** ** Facts about [commit] and [dispatch] with callbacks that act        *)
(* ===================================================================== *)

Module LiveStoreFacts.
Import Util Store StoreInternals LiveStore Spec.

Lemma bind_run {S A B : Type} (m : M S A) (k : A -> M S B) (s s1 s2 : S)
  (a : A) (r : res B) (l1 l2 : list event) :
  m s = (Ok a, s1, l1) -> k a s1 = (r, s2, l2) ->
  bind m k s = (r, s2, l1 ++ l2).
Proof. intros H1 H2. unfold bind. now rewrite H1, H2. Qed.

Lemma bind_throws {S A B : Type} (m : M S A) (k : A -> M S B) (s s1 : S)
  (e : error) (l1 : list event) :
  m s = (Throw e, s1, l1) -> bind m k s = (Throw e, s1, l1).
Proof. intros H1. unfold bind. now rewrite H1. Qed.

Lemma for_each_cons {S A : Type} (a : A) (l : list A) (f : A -> M S unit) :
  for_each (a :: l) f = (f a >> for_each l f).
Proof. reflexivity. Qed.

(** *** [forEach] on a live array *)

Section Loops.

Context {St A V : Type}.
Variable read : St -> list A.
Variable obs : St -> V.
Variable f : A -> M St unit.
Variable ev : A -> V -> event.

Lemma forEach_from_S (remaining k : nat) (s : St) :
  forEach_from read f (S remaining) k s =
    match read s !! k with
    | Some x => (f x >> forEach_from read f remaining (S k)) s
    | None => forEach_from read f remaining (S k) s
    end.
Proof.
  cbn [forEach_from]. rewrite TreeFacts.bind_gets.
  now destruct (read s !! k).
Qed.

(** While the callbacks leave the array alone, the loop visits the
    elements from index [k] on, as many as remain to be visited. *)
Lemma forEach_from_quiet (L : list A) : forall (remaining k : nat) (s : St),
  read s = L ->
  (forall x, x ∈ take remaining (drop k L) -> forall s0, exists s',
     f x s0 = (Ok tt, s', [ev x (obs s0)]) /\
     read s' = read s0 /\ obs s' = obs s0) ->
  exists s',
    forEach_from read f remaining k s =
      (Ok tt, s',
       List.map (fun x => ev x (obs s)) (take remaining (drop k L))) /\
    read s' = L /\ obs s' = obs s.
Proof.
  induction remaining as [|remaining IH]; intros k s HL Hf.
  - exists s. now rewrite take_0.
  - rewrite forEach_from_S, HL.
    destruct (L !! k) as [x|] eqn:Hk.
    + pose proof (drop_S _ _ _ Hk) as Hdrop.
      destruct (Hf x ltac:(rewrite Hdrop; now left) s)
        as (s1 & Hfx & Hr1 & Ho1).
      destruct (IH (S k) s1) as (s' & Hrun & Hr & Ho).
      * now rewrite Hr1.
      * intros y Hy. apply Hf. rewrite Hdrop. cbn [take]. now right.
      * exists s'. rewrite (bind_run _ _ _ _ _ _ _ _ _ Hfx Hrun).
        rewrite Hdrop. cbn [take List.map app]. rewrite Ho1.
        split; [reflexivity|]. split; [exact Hr | congruence].
    + apply lookup_ge_None_1 in Hk.
      destruct (IH (S k) s HL) as (s' & Hrun & Hr & Ho).
      * intros y Hy. rewrite drop_ge, take_nil in Hy by lia.
        now apply elem_of_nil in Hy.
      * exists s'. rewrite Hrun.
        rewrite !drop_ge by lia. rewrite !take_nil. auto.
Qed.

Lemma forEach_quiet (s : St) :
  (forall x, x ∈ read s -> forall s0, exists s',
     f x s0 = (Ok tt, s', [ev x (obs s0)]) /\
     read s' = read s0 /\ obs s' = obs s0) ->
  exists s',
    forEach read f s =
      (Ok tt, s', List.map (fun x => ev x (obs s)) (read s)) /\
    read s' = read s /\ obs s' = obs s.
Proof.
  intros Hf. unfold forEach. rewrite TreeFacts.bind_gets.
  destruct (forEach_from_quiet (read s) (length (read s)) 0 s eq_refl)
    as (s' & Hrun & Hr & Ho).
  { intros x Hx. apply Hf. cbn [drop] in Hx. now rewrite firstn_all in Hx. }
  exists s'. rewrite Hrun. cbn [drop]. rewrite firstn_all. auto.
Qed.

(** With callbacks that return and keep an invariant of the state, the
    loop returns and keeps it. *)
Lemma forEach_from_returns (inv : St -> Prop) :
  (forall x s, inv s -> exists s' evs, f x s = (Ok tt, s', evs) /\ inv s') ->
  forall (remaining k : nat) (s : St),
  inv s ->
  exists s' evs,
    forEach_from read f remaining k s = (Ok tt, s', evs) /\ inv s'.
Proof.
  intros Hf. induction remaining as [|remaining IH]; intros k s Hs.
  - now exists s, [].
  - rewrite forEach_from_S. destruct (read s !! k) as [x|]; [|now apply IH].
    destruct (Hf x s Hs) as (s1 & evs1 & Hfx & Hs1).
    destruct (IH (S k) s1 Hs1) as (s' & evs & Hrun & Hs').
    exists s', (evs1 ++ evs). split; [|exact Hs'].
    apply (bind_run _ _ _ _ _ _ _ _ _ Hfx Hrun).
Qed.

End Loops.

(** *** [commit] *)

Section Commit.

Variable production : bool.
Variable mh : nat -> value -> M Store unit.
Variable sub : nat -> value -> value -> value -> M Store unit.

Lemma wrappedMutationHandler_run (h : nat) (pl : value) (st : Store) :
  wrappedMutationHandler mh h pl st =
    match mh h pl st with
    | (r, st', evs) => (r, st', MutationCalled h pl (_committing st) :: evs)
    end.
Proof.
  unfold wrappedMutationHandler. rewrite TreeFacts.bind_gets.
  unfold bind, emit. now destruct (mh h pl st) as [[r st'] evs].
Qed.

(** The handler loop of [commit], for handlers that return and leave the
    flag and the subscribers alone. *)
Lemma live_mutation_loop (pl : value) (entry : list nat) :
  (forall h, h ∈ entry ->
     leaves_alone (fun s => (_committing s, _subscribers s)) (mh h pl)) ->
  forall st, exists st',
    for_each entry (fun h => wrappedMutationHandler mh h pl) st =
      (Ok tt, st',
       List.map (fun h => MutationCalled h pl (_committing st)) entry) /\
    _committing st' = _committing st /\
    _subscribers st' = _subscribers st.
Proof.
  induction entry as [|h entry IH]; intros Hh st.
  - now exists st.
  - destruct (Hh h ltac:(now left) st) as ([] & s1 & Hrun & Hkeep).
    injection Hkeep as Hc Hs.
    destruct (IH ltac:(intros h' Hh'; apply Hh; now right) s1)
      as (st' & Hloop & Hc' & Hs').
    exists st'. rewrite for_each_cons.
    erewrite bind_run;
      [|rewrite wrappedMutationHandler_run, Hrun; reflexivity
       |exact Hloop].
    cbn [List.map app]. rewrite Hc.
    split; [reflexivity|]. split; congruence.
Qed.

Lemma withCommit_loop (pl : value) (entry : list nat) (st : Store) :
  (forall h, h ∈ entry ->
     leaves_alone (fun s => (_committing s, _subscribers s)) (mh h pl)) ->
  exists handled,
    _withCommit (for_each entry (fun h => wrappedMutationHandler mh h pl)) st
    = (Ok tt, handled,
       List.map (fun h => MutationCalled h pl true) entry) /\
    _committing handled = _committing st /\
    _subscribers handled = _subscribers st.
Proof.
  intros Hh.
  destruct (live_mutation_loop pl entry Hh (set_committing true st))
    as (st' & Hloop & Hc & Hs).
  exists (set_committing (_committing st) st').
  unfold _withCommit. rewrite TreeFacts.bind_gets.
  unfold bind at 1. unfold modify at 1.
  unfold bind at 1. rewrite Hloop. unfold modify.
  cbn [app _committing set_committing]. rewrite app_nil_r.
  split; [reflexivity|]. split; [reflexivity|]. exact Hs.
Qed.

(** [commit] of a registered type with such handlers, and subscribers that
    return and leave the subscribers and the state alone. *)
Lemma live_commit_run (ty pl op : value) (st : Store) (u : unified)
  (entry : list nat) :
  unifyObjectStyle production ty pl op st = (Ok u, st, []) ->
  _mutations st !! to_string (type u) = Some entry ->
  (forall h, h ∈ entry ->
     leaves_alone (fun s => (_committing s, _subscribers s))
       (mh h (payload u))) ->
  (forall f seen, f ∈ _subscribers st ->
     leaves_alone (fun s => (_subscribers s, state s))
       (sub f (type u) (payload u) seen)) ->
  let handled :=
    final (_withCommit
             (for_each entry (fun h =>
                wrappedMutationHandler mh h (payload u))) st) in
  _committing handled = _committing st /\
  exists st',
    commit production mh sub ty pl op st =
      (Ok tt, st',
       List.map (fun h => MutationCalled h (payload u) true) entry
       ++ List.map (fun f => SubscriberCalled f (type u) (payload u)
                                (state handled))
            (_subscribers st)
       ++ silent_warning production u) /\
    state st' = state handled /\
    _subscribers st' = _subscribers st.
Proof.
  intros Hu Hentry Hh Hs handled.
  destruct (withCommit_loop (payload u) entry st Hh)
    as (st1 & Hloop & Hc & Hsubs).
  assert (Hhandled : handled = st1) by (subst handled; now rewrite Hloop).
  rewrite Hhandled. split; [exact Hc|].
  destruct (forEach_quiet _subscribers state
              (fun f => do s <- gets state;
                        emit (SubscriberCalled f (type u) (payload u) s) >>
                        sub f (type u) (payload u) s)
              (fun f seen => SubscriberCalled f (type u) (payload u) seen)
              st1) as (st2 & Hnotify & Hsubs2 & Hstate2).
  { intros f Hf s0. rewrite Hsubs in Hf.
    destruct (Hs f (state s0) Hf s0) as ([] & s' & Hrun & Hkeep).
    injection Hkeep as Hk1 Hk2.
    exists s'. rewrite TreeFacts.bind_gets. unfold bind, emit.
    rewrite Hrun. auto. }
  exists st2. unfold commit.
  erewrite bind_run; [|exact Hu|].
  2:{ rewrite TreeFacts.bind_gets, Hentry.
      erewrite bind_run; [|exact Hloop|].
      2:{ erewrite bind_run; [|exact Hnotify|].
          2:{ unfold when, emit, ret.
              instantiate (1 := silent_warning production u).
              instantiate (1 := st2).
              instantiate (1 := Ok tt). unfold silent_warning.
              destruct (negb production && truthy (options u)
                        && truthy (get_field "silent" (options u)));
                reflexivity. }
          reflexivity. }
      reflexivity. }
  cbn [app]. rewrite Hsubs. split; [reflexivity|]. split; congruence.
Qed.

End Commit.

(** C3, as stated, fails: in a production build a [commit] of an
    unregistered type reports nothing, whatever the callbacks are. *)
Lemma unknown_mutation_silent_in_production :
  ~ unknown_mutation_always_reported.
Proof.
  intros H.
  destruct (H true Samples.live_mutation observer (VStr "missing") VUndef
              VUndef Samples.sample_store
              {| type := VStr "missing"; payload := VUndef; options := VUndef |}
              eq_refl eq_refl) as [msg Hin].
  vm_compute in Hin. now apply elem_of_nil in Hin.
Qed.

(** C3, amended.  Let [commit] be called with arguments whose
    normalisation returns [u].  If no handler is registered under the type,
    the store is left as it is; a non-production build reports the
    unknown-type diagnostic and a production build reports nothing.
    Otherwise the handlers of the entry are called with the payload, in
    registration order.  When each of them returns, calls nothing and
    leaves the flag and the subscriber list alone, each is called while
    [_committing] is true and the flag is then back to its former value;
    after that the subscribers are notified by a [forEach] on the
    subscriber list itself: when each subscriber returns, calls nothing and
    leaves the list and the state alone, every subscriber is called, in
    subscription order, with the type, the payload and the state the
    handlers left.  When the first handler throws, [commit] throws the same
    error at once: no other handler and no subscriber is called, and the
    store stays as that handler left it, the flag included. *)
Theorem commit_handlers_then_subscribers (production : bool)
  (mh : nat -> value -> M Store unit)
  (sub : nat -> value -> value -> value -> M Store unit)
  (ty pl op : value) (st : Store) (u : unified) :
  unifyObjectStyle production ty pl op st = (Ok u, st, []) ->
  (_mutations st !! to_string (type u) = None ->
   commit production mh sub ty pl op st =
     (Ok tt, st,
      if production then []
      else [ConsoleError
              ("[vuex] unknown mutation type: " +:+ to_string (type u))])) /\
  (forall entry, _mutations st !! to_string (type u) = Some entry ->
   (forall h, h ∈ entry ->
      leaves_alone (fun s => (_committing s, _subscribers s))
        (mh h (payload u))) ->
   (forall f seen, f ∈ _subscribers st ->
      leaves_alone (fun s => (_subscribers s, state s))
        (sub f (type u) (payload u) seen)) ->
   let handled :=
     final (_withCommit
              (for_each entry (fun h =>
                 wrappedMutationHandler mh h (payload u))) st) in
   _committing handled = _committing st /\
   exists st',
     commit production mh sub ty pl op st =
       (Ok tt, st',
        List.map (fun h => MutationCalled h (payload u) true) entry
        ++ List.map (fun f => SubscriberCalled f (type u) (payload u)
                                 (state handled))
             (_subscribers st)
        ++ silent_warning production u) /\
     state st' = state handled /\
     _subscribers st' = _subscribers st) /\
  (forall h rest e st' evs,
   _mutations st !! to_string (type u) = Some (h :: rest) ->
   mh h (payload u) (set_committing true st) = (Throw e, st', evs) ->
   commit production mh sub ty pl op st =
     (Throw e, st', MutationCalled h (payload u) true :: evs)).
Proof.
  intros Hu. split; [|split].
  - intros Hnone. unfold commit.
    erewrite bind_run; [|exact Hu|].
    2:{ rewrite TreeFacts.bind_gets, Hnone. unfold when, emit, ret.
        instantiate (1 := if production then []
                          else [ConsoleError
                                  ("[vuex] unknown mutation type: "
                                   +:+ to_string (type u))]).
        instantiate (1 := st). instantiate (1 := Ok tt).
        now destruct production. }
    reflexivity.
  - intros entry Hentry Hh Hs.
    exact (live_commit_run production mh sub ty pl op st u entry Hu Hentry Hh Hs).
  - intros h rest e st' evs Hentry Hthrow. unfold commit.
    erewrite bind_run; [|exact Hu|].
    2:{ rewrite TreeFacts.bind_gets, Hentry.
        apply bind_throws. unfold _withCommit.
        rewrite TreeFacts.bind_gets.
        erewrite bind_run; [|reflexivity|].
        2:{ apply bind_throws. rewrite for_each_cons.
            apply bind_throws. rewrite wrappedMutationHandler_run, Hthrow.
            reflexivity. }
        reflexivity. }
    reflexivity.
Qed.

Lemma on_state_leaves (mh : nat -> value -> value -> value) (h : nat)
  (pl : value) :
  leaves_alone (fun s => (_committing s, _subscribers s)) (on_state mh h pl).
Proof. intros s. now eexists tt, _. Qed.

Lemma observer_leaves {B : Type} (field : Store -> B) (f : nat)
  (t pl seen : value) :
  leaves_alone field (observer f t pl seen).
Proof. intros s. now exists tt, s. Qed.

(** [commit('increment', 5)] and [commit('missing', 5)] on the sample
    store, in a non-production build, with subscribers that observe. *)
Lemma commit_handlers_then_subscribers_witness :
  (exists st',
     commit false Samples.live_mutation observer (VStr "increment") (VNum 5)
       VUndef Samples.sample_store =
       (Ok tt, st',
        [MutationCalled 1 (VNum 5) true; MutationCalled 2 (VNum 5) true;
         SubscriberCalled 20 (VStr "increment") (VNum 5)
           (VObj [("count", VNum 15)]);
         SubscriberCalled 21 (VStr "increment") (VNum 5)
           (VObj [("count", VNum 15)])]) /\
     state st' = VObj [("count", VNum 15)]) /\
  commit false Samples.live_mutation observer (VStr "missing") (VNum 5) VUndef
    Samples.sample_store =
    (Ok tt, Samples.sample_store,
     [ConsoleError "[vuex] unknown mutation type: missing"]).
Proof.
  pose proof (commit_handlers_then_subscribers false Samples.live_mutation
                observer (VStr "increment") (VNum 5) VUndef
                Samples.sample_store
                {| type := VStr "increment"; payload := VNum 5;
                   options := VUndef |} eq_refl) as (_ & Hknown & _).
  pose proof (commit_handlers_then_subscribers false Samples.live_mutation
                observer (VStr "missing") (VNum 5) VUndef Samples.sample_store
                {| type := VStr "missing"; payload := VNum 5;
                   options := VUndef |} eq_refl) as (Hunknown & _).
  split.
  - destruct (Hknown [1; 2]) as (_ & st' & Hrun & Hstate & _).
    + vm_compute. reflexivity.
    + intros h _. apply on_state_leaves.
    + intros f seen _. apply observer_leaves.
    + exists st'. split; [rewrite Hrun | rewrite Hstate];
        vm_compute; reflexivity.
  - rewrite Hunknown; [reflexivity | vm_compute; reflexivity].
Defined.


(** *** [dispatch] *)

Section Dispatch.

Variable production : bool.
Variable ah : nat -> value -> M Store returned.
Variable asub : nat -> value -> value -> value -> M Store unit.

Lemma wrappedActionHandler_run (h : nat) (pl : value) (st : Store) :
  wrappedActionHandler ah h pl st =
    match ah h pl st with
    | (Ok r, st', evs) =>
        (Ok (Thenable (as_promise (_devtoolHook st') r)), st',
         ActionCalled h pl :: evs)
    | (Throw e, st', evs) => (Throw e, st', ActionCalled h pl :: evs)
    end.
Proof.
  unfold wrappedActionHandler, bind, emit, gets, ret.
  destruct (ah h pl st) as [[[r|e] st'] evs]; [|reflexivity].
  unfold as_promise. cbn [app].
  destruct r, (_devtoolHook st'); cbn; rewrite ?app_nil_r; reflexivity.
Qed.

(** The first handler is called first. *)
Lemma call_handlers_first (h : nat) (rest : list nat) (pl : value)
  (st : Store) :
  exists more,
    events (call_handlers ah (h :: rest) pl st) = ActionCalled h pl :: more.
Proof.
  unfold call_handlers. destruct rest as [|h' rest]; cbn [length Nat.ltb Nat.leb].
  - rewrite wrappedActionHandler_run.
    destruct (ah h pl st) as [[[r|e] st'] evs]; eexists; reflexivity.
  - rewrite StoreFacts.map_m_cons. unfold bind at 1. unfold bind at 1.
    rewrite wrappedActionHandler_run.
    destruct (ah h pl st) as [[[r|e] st'] evs]; cbn [events snd].
    + destruct (bind _ _ st') as [[r2 s2] l2].
      destruct r2; eexists; reflexivity.
    + eexists; reflexivity.
Qed.

(** With handlers that return and call nothing, every handler is called,
    in order. *)
Lemma call_handlers_all (entry : list nat) (pl : value) :
  (forall h, h ∈ entry -> leaves_alone (fun _ => tt) (ah h pl)) ->
  forall st,
    events (call_handlers ah entry pl st)
    = List.map (fun h => ActionCalled h pl) entry.
Proof.
  intros Hh.
  assert (Hloop : forall st, exists rs st',
            map_m entry (fun h => wrappedActionHandler ah h pl) st
            = (Ok rs, st', List.map (fun h => ActionCalled h pl) entry)).
  { induction entry as [|h entry IH]; intros st.
    - now exists [], st.
    - destruct (Hh h ltac:(now left) st) as (r & s1 & Hrun & _).
      destruct (IH ltac:(intros h' Hh'; apply Hh; now right) s1)
        as (rs & st' & Hrest).
      eexists _, st'. rewrite StoreFacts.map_m_cons.
      erewrite bind_run;
        [|rewrite wrappedActionHandler_run, Hrun; reflexivity|].
      2:{ erewrite bind_run; [|exact Hrest|reflexivity]. reflexivity. }
      cbn [List.map app]. now rewrite app_nil_r. }
  intros st. unfold call_handlers.
  destruct entry as [|h [|h' entry]]; cbn [length Nat.ltb Nat.leb].
  - reflexivity.
  - destruct (Hh h ltac:(now left) st) as (r & s1 & Hrun & _).
    now rewrite wrappedActionHandler_run, Hrun.
  - destruct (Hloop st) as (rs & st' & Hrun).
    unfold bind, ret. rewrite Hrun. cbn [events snd].
    now rewrite app_nil_r.
Qed.

(** [dispatch] of a registered type, with subscribers that return and
    leave the subscribers, the state and the registered actions alone: the
    handlers are called in the store that the notification left. *)
Lemma live_dispatch_run (ty pl : value) (st : Store) (u : unified)
  (entry : list nat) :
  unifyObjectStyle production ty pl VUndef st = (Ok u, st, []) ->
  _actions st !! to_string (type u) = Some entry ->
  (forall f seen, f ∈ _actionSubscribers st ->
     leaves_alone (fun s => (_actionSubscribers s, state s, _actions s))
       (asub f (type u) (payload u) seen)) ->
  exists st1,
    dispatch production ah asub ty pl st =
      (result (call_handlers ah entry (payload u) st1),
       final (call_handlers ah entry (payload u) st1),
       List.map (fun f => ActionSubscriberCalled f (type u) (payload u)
                             (state st))
         (_actionSubscribers st)
       ++ events (call_handlers ah entry (payload u) st1)) /\
    _actionSubscribers st1 = _actionSubscribers st /\
    state st1 = state st.
Proof.
  intros Hu Hentry Hs.
  destruct (forEach_quiet _actionSubscribers
              (fun s => (state s, _actions s))
              (fun f => do s <- gets state;
                        emit (ActionSubscriberCalled f (type u) (payload u) s) >>
                        asub f (type u) (payload u) s)
              (fun f seen =>
                 ActionSubscriberCalled f (type u) (payload u) (fst seen))
              st) as (st1 & Hnotify & Hsubs & Hkept).
  { intros f Hf s0.
    destruct (Hs f (state s0) Hf s0) as ([] & s' & Hrun & Hkeep).
    injection Hkeep as Hk1 Hk2 Hk3.
    exists s'. rewrite TreeFacts.bind_gets. unfold bind, emit.
    rewrite Hrun, Hk1, Hk2, Hk3. auto. }
  injection Hkept as Hstate Hactions.
  exists st1. split; [|split; assumption].
  destruct (call_handlers ah entry (payload u) st1) as [[r s2] l2] eqn:Hcall.
  unfold result, final, events. cbn [fst snd].
  unfold dispatch.
  erewrite bind_run; [|exact Hu|].
  2:{ rewrite TreeFacts.bind_gets, Hentry.
      erewrite bind_run; [|exact Hnotify|].
      2:{ rewrite TreeFacts.bind_gets, Hactions, Hentry. exact Hcall. }
      reflexivity. }
  reflexivity.
Qed.

End Dispatch.

(** C1, as stated, fails: a [dispatch] of an unregistered type returns
    before the subscribers are notified. *)
Lemma unknown_action_notifies_nobody : ~ action_subscribers_always_notified.
Proof.
  intros H.
  assert (Hsub : 10 ∈ _actionSubscribers Samples.sample_store) by now left.
  specialize (H false Samples.live_action observer (VStr "missing") VUndef
                Samples.sample_store
                {| type := VStr "missing"; payload := VUndef;
                   options := VUndef |} 10 eq_refl Hsub).
  vm_compute in H.
  apply elem_of_cons in H as [H|H]; [discriminate|].
  now apply elem_of_nil in H.
Qed.

(** C1, amended.  Let [dispatch] be called with arguments whose
    normalisation returns [u].  The handlers are looked up first.  If none
    is registered under the type, no subscriber is notified, the store is
    left as it is and the call returns [undefined], which awaits to
    [undefined]; a non-production build reports the unknown-type diagnostic
    and a production build reports nothing.  Otherwise the action
    subscribers are notified by a [forEach] on the subscriber list itself:
    when each subscriber returns, calls nothing and leaves the list, the
    state and the registered actions alone, every subscriber is called, in
    subscription order, with the type, the payload and the state as it is
    before any handler runs, and only then the first handler of the entry
    is called; when the handlers return and call nothing, all of them are
    called, in registration order. *)
Theorem dispatch_lookup_then_subscribers_then_handlers (production : bool)
  (ah : nat -> value -> M Store returned)
  (asub : nat -> value -> value -> value -> M Store unit)
  (ty pl : value) (st : Store) (u : unified) :
  unifyObjectStyle production ty pl VUndef st = (Ok u, st, []) ->
  (_actions st !! to_string (type u) = None ->
   dispatch production ah asub ty pl st =
     (Ok (Plain VUndef), st,
      if production then []
      else [ConsoleError
              ("[vuex] unknown action type: " +:+ to_string (type u))]) /\
   await (Plain VUndef) = Some (0, Fulfilled VUndef)) /\
  (forall entry, _actions st !! to_string (type u) = Some entry ->
   (forall f seen, f ∈ _actionSubscribers st ->
      leaves_alone (fun s => (_actionSubscribers s, state s, _actions s))
        (asub f (type u) (payload u) seen)) ->
   let notified :=
     List.map (fun f => ActionSubscriberCalled f (type u) (payload u)
                           (state st))
       (_actionSubscribers st) in
   (forall h rest, entry = h :: rest ->
      exists more,
        events (dispatch production ah asub ty pl st)
        = notified ++ ActionCalled h (payload u) :: more) /\
   ((forall h, h ∈ entry -> leaves_alone (fun _ => tt) (ah h (payload u))) ->
    events (dispatch production ah asub ty pl st)
    = notified ++ List.map (fun h => ActionCalled h (payload u)) entry)).
Proof.
  intros Hu. split.
  - intros Hnone. split; [|reflexivity]. unfold dispatch.
    erewrite bind_run; [|exact Hu|].
    2:{ rewrite TreeFacts.bind_gets, Hnone. unfold bind, when, emit, ret.
        instantiate (1 := if production then []
                          else [ConsoleError
                                  ("[vuex] unknown action type: "
                                   +:+ to_string (type u))]).
        instantiate (1 := st). instantiate (1 := Ok (Plain VUndef)).
        now destruct production. }
    reflexivity.
  - intros entry Hentry Hs notified.
    destruct (live_dispatch_run production ah asub ty pl st u entry Hu Hentry Hs)
      as (st1 & Hrun & _ & _).
    rewrite Hrun. cbn [events snd]. split.
    + intros h rest ->.
      destruct (call_handlers_first ah h rest (payload u) st1) as [more ->].
      now exists more.
    + intros Hh. now rewrite (call_handlers_all ah entry (payload u) Hh).
Qed.

Lemma returning_leaves (ah : nat -> value -> value -> returned * value)
  (h : nat) (pl : value) :
  leaves_alone (fun _ => tt) (returning ah h pl).
Proof.
  intros s. unfold returning.
  destruct (ah h pl (state s)) as [r s']. now eexists r, _.
Qed.

(** [dispatch('sync')] and [dispatch('missing')] on the sample store, in a
    non-production build, with subscribers that observe. *)
Lemma dispatch_lookup_then_subscribers_then_handlers_witness :
  events (dispatch false Samples.live_action observer (VStr "sync") (VNum 7)
            Samples.sample_store) =
    [ActionSubscriberCalled 10 (VStr "sync") (VNum 7) (VObj [("count", VNum 0)]);
     ActionSubscriberCalled 11 (VStr "sync") (VNum 7) (VObj [("count", VNum 0)]);
     ActionCalled 2 (VNum 7); ActionCalled 3 (VNum 7); ActionCalled 4 (VNum 7)]
  /\
  dispatch false Samples.live_action observer (VStr "missing") (VNum 7)
    Samples.sample_store =
    (Ok (Plain VUndef), Samples.sample_store,
     [ConsoleError "[vuex] unknown action type: missing"]).
Proof.
  pose proof (dispatch_lookup_then_subscribers_then_handlers false
                Samples.live_action observer (VStr "sync") (VNum 7)
                Samples.sample_store
                {| type := VStr "sync"; payload := VNum 7; options := VUndef |}
                eq_refl) as [_ Hknown].
  pose proof (dispatch_lookup_then_subscribers_then_handlers false
                Samples.live_action observer (VStr "missing") (VNum 7)
                Samples.sample_store
                {| type := VStr "missing"; payload := VNum 7;
                   options := VUndef |}
                eq_refl) as [Hunknown _].
  split.
  - destruct (Hknown [2; 3; 4]) as [_ Hall].
    + vm_compute. reflexivity.
    + intros f seen _. apply observer_leaves.
    + rewrite Hall; [reflexivity|]. intros h _. apply returning_leaves.
  - destruct Hunknown as [-> _]; [vm_compute|]; reflexivity.
Defined.


(** *** The first call, whatever the callbacks do *)

Lemma bind_events_prefix {S A B : Type} (m : M S A) (k : A -> M S B) (s : S) :
  exists more, events (bind m k s) = events (m s) ++ more.
Proof.
  unfold bind. destruct (m s) as [[[a|e] s1] l1].
  - destruct (k a s1) as [[r s2] l2]. now exists l2.
  - exists []. cbn [events snd]. now rewrite app_nil_r.
Qed.

Lemma bind_modify {S B : Type} (f : S -> S) (k : unit -> M S B) (s : S) :
  bind (modify f) k s = k tt (f s).
Proof. unfold bind, modify. now destruct (k tt (f s)) as [[r s2] l2]. Qed.

Lemma bind_emit_events {S B : Type} (ev : event) (k : unit -> M S B) (s : S) :
  events (bind (emit ev) k s) = ev :: events (k tt s).
Proof. unfold bind, emit. now destruct (k tt s) as [[r s2] l2]. Qed.

(** The first handler of the entry is called with the payload while the
    flag is set. *)
Lemma commit_first_call (production : bool)
  (mh : nat -> value -> M Store unit)
  (sub : nat -> value -> value -> value -> M Store unit)
  (ty pl op : value) (st : Store) (u : unified) (h : nat) (rest : list nat) :
  unifyObjectStyle production ty pl op st = (Ok u, st, []) ->
  _mutations st !! to_string (type u) = Some (h :: rest) ->
  exists more,
    events (commit production mh sub ty pl op st)
    = MutationCalled h (payload u) true :: more.
Proof.
  intros Hu Hentry. unfold commit.
  rewrite (StoreInternalsFacts.bind_ok _ _ _ _ Hu), TreeFacts.bind_gets, Hentry.
  destruct (bind_events_prefix
              (_withCommit
                 (for_each (h :: rest) (fun handler =>
                    wrappedMutationHandler mh handler (payload u))))
              (fun _ =>
                 forEach _subscribers (fun f =>
                   do s <- gets state;
                   emit (SubscriberCalled f (type u) (payload u) s) >>
                   sub f (type u) (payload u) s) >>
                 when (negb production && truthy (options u)
                       && truthy (get_field "silent" (options u)))
                   (emit (ConsoleWarn
                      ("[vuex] mutation type: " +:+ to_string (type u)
                       +:+ ". Silent option has been removed. "
                       +:+ "Use the filter functionality in the vue-devtools"))))
              st) as [more1 ->].
  unfold _withCommit. rewrite TreeFacts.bind_gets, bind_modify.
  destruct (bind_events_prefix
              (for_each (h :: rest) (fun handler =>
                 wrappedMutationHandler mh handler (payload u)))
              (fun _ => modify (set_committing (_committing st)))
              (set_committing true st)) as [more2 ->].
  rewrite for_each_cons.
  destruct (bind_events_prefix
              (wrappedMutationHandler mh h (payload u))
              (fun _ => for_each rest (fun handler =>
                 wrappedMutationHandler mh handler (payload u)))
              (set_committing true st)) as [more3 ->].
  rewrite wrappedMutationHandler_run.
  destruct (mh h (payload u) (set_committing true st)) as [[r s1] evs].
  cbn [events snd _committing set_committing app]. eexists. reflexivity.
Qed.

(** The first action subscriber is notified with the type, the payload and
    the state. *)
Lemma dispatch_first_notification (production : bool)
  (ah : nat -> value -> M Store returned)
  (asub : nat -> value -> value -> value -> M Store unit)
  (ty pl : value) (st : Store) (u : unified) (entry : list nat)
  (f : nat) (subs : list nat) :
  unifyObjectStyle production ty pl VUndef st = (Ok u, st, []) ->
  _actions st !! to_string (type u) = Some entry ->
  _actionSubscribers st = f :: subs ->
  exists more,
    events (dispatch production ah asub ty pl st)
    = ActionSubscriberCalled f (type u) (payload u) (state st) :: more.
Proof.
  intros Hu Hentry Hsubs. unfold dispatch.
  rewrite (StoreInternalsFacts.bind_ok _ _ _ _ Hu), TreeFacts.bind_gets, Hentry.
  match goal with
  | |- exists more, events (bind ?m ?k st) = _ =>
      destruct (bind_events_prefix m k st) as [more1 ->]
  end.
  unfold forEach. rewrite TreeFacts.bind_gets, Hsubs. cbn [length].
  rewrite forEach_from_S, Hsubs. cbn [lookup list_lookup].
  match goal with
  | |- exists more, events (bind ?m ?k st) ++ _ = _ =>
      destruct (bind_events_prefix m k st) as [more2 ->]
  end.
  rewrite TreeFacts.bind_gets, bind_emit_events.
  cbn [app]. eexists. reflexivity.
Qed.

(** *** Object-style arguments *)

(** C10.  When the first argument of [commit] or [dispatch] is an object
    whose [type] property is truthy, normalisation takes that property as
    the type, the object itself as the payload and the second argument as
    the options; the only other outcome is the type assertion of a
    non-production build, when the property is not a string.  With a string
    as the property the call is the positional call with the property, the
    object and, for [commit], the second argument as options; whatever the
    callbacks do, the first handler of a [commit] is called with the object
    and the first subscriber of a [dispatch] with the property and the
    object; and with
    callbacks that return, call nothing and leave the flag, the subscriber
    lists, the state and the registered actions alone, every handler of the
    entry is called with the object as its payload and every subscriber
    with the property as the type and the object as the payload. *)
Theorem object_style_arguments (production : bool)
  (mh : nat -> value -> M Store unit)
  (ah : nat -> value -> M Store returned)
  (sub asub : nat -> value -> value -> value -> M Store unit)
  (fields : list (string * value)) (p o : value) :
  let obj := VObj fields in
  let t := get_field "type" obj in
  truthy t = true ->
  (forall (S : Type) (s : S),
     unifyObjectStyle production obj p o s =
       if production || is_string t
       then (Ok {| type := t; payload := obj; options := p |}, s, [])
       else (Throw (AssertionError
                      ("expects string as the type, but found "
                       +:+ typeof t +:+ ".")), s, [])) /\
  (forall name st,
     t = VStr name ->
     commit production mh sub obj p o st
     = commit production mh sub (VStr name) obj p st /\
     dispatch production ah asub obj p st
     = dispatch production ah asub (VStr name) obj st) /\
  (forall name st h rest,
     t = VStr name ->
     _mutations st !! name = Some (h :: rest) ->
     exists more,
       events (commit production mh sub obj p o st)
       = MutationCalled h obj true :: more) /\
  (forall name st entry f subs,
     t = VStr name ->
     _actions st !! name = Some entry ->
     _actionSubscribers st = f :: subs ->
     exists more,
       events (dispatch production ah asub obj p st)
       = ActionSubscriberCalled f (VStr name) obj (state st) :: more) /\
  (forall name st entry,
     t = VStr name ->
     _mutations st !! name = Some entry ->
     (forall h, h ∈ entry ->
        leaves_alone (fun s => (_committing s, _subscribers s)) (mh h obj)) ->
     (forall f seen, f ∈ _subscribers st ->
        leaves_alone (fun s => (_subscribers s, state s))
          (sub f (VStr name) obj seen)) ->
     let handled :=
       final (_withCommit
                (for_each entry (fun h => wrappedMutationHandler mh h obj))
                st) in
     events (commit production mh sub obj p o st) =
       List.map (fun h => MutationCalled h obj true) entry
       ++ List.map (fun f => SubscriberCalled f (VStr name) obj
                               (state handled))
            (_subscribers st)
       ++ silent_warning production
            {| type := VStr name; payload := obj; options := p |}) /\
  (forall name st entry,
     t = VStr name ->
     _actions st !! name = Some entry ->
     (forall f seen, f ∈ _actionSubscribers st ->
        leaves_alone (fun s => (_actionSubscribers s, state s, _actions s))
          (asub f (VStr name) obj seen)) ->
     (forall h, h ∈ entry -> leaves_alone (fun _ => tt) (ah h obj)) ->
     events (dispatch production ah asub obj p st) =
       List.map (fun f => ActionSubscriberCalled f (VStr name) obj (state st))
         (_actionSubscribers st)
       ++ List.map (fun h => ActionCalled h obj) entry).
Proof.
  intros obj t Ht.
  assert (Hunify : forall (S : Type) (s : S) (o' : value),
     unifyObjectStyle production obj p o' s =
       if production || is_string t
       then (Ok {| type := t; payload := obj; options := p |}, s, [])
       else (Throw (AssertionError
                      ("expects string as the type, but found "
                       +:+ typeof t +:+ ".")), s, [])).
  { intros S s o'. rewrite StoreFacts.unifyObjectStyle_run. cbv zeta.
    change (isObject obj) with true. fold t. rewrite Ht. reflexivity. }
  assert (Hobj : forall name, t = VStr name ->
            forall (S : Type) (s : S) (o' : value),
              unifyObjectStyle production obj p o' s =
              (Ok {| type := VStr name; payload := obj; options := p |},
               s, [])).
  { intros name Hname S s o'. rewrite Hunify, Hname. cbn [is_string].
    now rewrite orb_true_r. }
  split; [intros S s; apply Hunify|].
  split; [|split; [|split; [|split]]].
  2:{ intros name st h rest Hname Hentry.
      exact (commit_first_call production mh sub obj p o st
               {| type := VStr name; payload := obj; options := p |} h rest
               (Hobj name Hname _ st o) Hentry). }
  2:{ intros name st entry f subs Hname Hentry Hsubs.
      exact (dispatch_first_notification production ah asub obj p st
               {| type := VStr name; payload := obj; options := p |} entry
               f subs (Hobj name Hname _ st VUndef) Hentry Hsubs). }
  - intros name st Hname.
    assert (Hpos : forall (S : Type) (s : S) (o' : value),
              unifyObjectStyle production (VStr name) obj o' s =
              (Ok {| type := VStr name; payload := obj; options := o' |},
               s, [])).
    { intros S s o'. rewrite StoreFacts.unifyObjectStyle_run. cbv zeta.
      cbn [isObject andb type is_string]. now rewrite orb_true_r. }
    split; [unfold commit | unfold dispatch];
      unfold bind at 1; rewrite (Hobj name Hname);
      symmetry; unfold bind at 1; rewrite Hpos; reflexivity.
  - intros name st entry Hname Hentry Hh Hs handled.
    destruct (live_commit_run production mh sub obj p o st
                {| type := VStr name; payload := obj; options := p |} entry
                (Hobj name Hname _ st o) Hentry Hh Hs)
      as (_ & st' & Hrun & _).
    now rewrite Hrun.
  - intros name st entry Hname Hentry Hs Hh.
    destruct (live_dispatch_run production ah asub obj p st
                {| type := VStr name; payload := obj; options := p |} entry
                (Hobj name Hname _ st VUndef) Hentry Hs)
      as (st1 & Hrun & _).
    rewrite Hrun. cbn [events snd type payload].
    now rewrite (call_handlers_all ah entry obj Hh).
Qed.

(** [commit({type: 'increment', amount: 5}, {silent: true})] and
    [dispatch({type: 'sync', amount: 5})] on the sample store, in a
    non-production build: the handlers and the subscribers get the object,
    and the second argument of [commit] is read as the options. *)
Lemma object_style_arguments_witness :
  let obj := VObj [("type", VStr "increment"); ("amount", VNum 5)] in
  let act := VObj [("type", VStr "sync"); ("amount", VNum 5)] in
  events (commit false Samples.live_mutation observer obj
            (VObj [("silent", VBool true)]) VUndef Samples.sample_store) =
    [MutationCalled 1 obj true; MutationCalled 2 obj true;
     SubscriberCalled 20 (VStr "increment") obj (VObj [("count", VNum 0)]);
     SubscriberCalled 21 (VStr "increment") obj (VObj [("count", VNum 0)]);
     ConsoleWarn
       "[vuex] mutation type: increment. Silent option has been removed. Use the filter functionality in the vue-devtools"]
  /\
  events (dispatch false Samples.live_action observer act VUndef
            Samples.sample_store) =
    [ActionSubscriberCalled 10 (VStr "sync") act (VObj [("count", VNum 0)]);
     ActionSubscriberCalled 11 (VStr "sync") act (VObj [("count", VNum 0)]);
     ActionCalled 2 act; ActionCalled 3 act; ActionCalled 4 act].
Proof.
  intros obj act. split.
  - pose proof (object_style_arguments false Samples.live_mutation
                  Samples.live_action observer observer
                  [("type", VStr "increment"); ("amount", VNum 5)]
                  (VObj [("silent", VBool true)]) VUndef eq_refl)
      as (_ & _ & _ & _ & Hcommit & _).
    fold obj in Hcommit.
    rewrite (Hcommit "increment" Samples.sample_store [1; 2] eq_refl).
    + vm_compute. reflexivity.
    + vm_compute. reflexivity.
    + intros h _. apply on_state_leaves.
    + intros f seen _. apply observer_leaves.
  - pose proof (object_style_arguments false Samples.live_mutation
                  Samples.live_action observer observer
                  [("type", VStr "sync"); ("amount", VNum 5)]
                  VUndef VUndef eq_refl)
      as (_ & _ & _ & _ & _ & Hdispatch).
    fold act in Hdispatch.
    rewrite (Hdispatch "sync" Samples.sample_store [2; 3; 4] eq_refl).
    + reflexivity.
    + vm_compute. reflexivity.
    + intros f seen _. apply observer_leaves.
    + intros h _. apply returning_leaves.
Defined.

(** *** The registries and [dispatch] *)

(** X7.  [registerMutation] and [registerAction] never leave an empty
    entry; and on a store whose action entries are all non-empty, a
    [dispatch] whose arguments pass normalisation throws only if a
    subscriber or a handler does: when the subscribers return and leave no
    empty entry behind, and the handlers return, it returns. *)
Theorem entries_stay_nonempty_dispatch_returns (production : bool)
  (ah : nat -> value -> M Store returned)
  (asub : nat -> value -> value -> value -> M Store unit)
  (t : string) (w : nat) (st : Store) :
  (entries_nonempty (_mutations st) ->
   entries_nonempty (_mutations (final (registerMutation t w st)))) /\
  (entries_nonempty (_actions st) ->
   entries_nonempty (_actions (final (registerAction t w st)))) /\
  (entries_nonempty (_actions st) ->
   forall ty pl u,
     unifyObjectStyle production ty pl VUndef st = (Ok u, st, []) ->
     (forall f seen,
        returns_keeping (fun s => entries_nonempty (_actions s))
          (asub f (type u) (payload u) seen)) ->
     (forall h, returns (ah h (payload u))) ->
     exists r, result (dispatch production ah asub ty pl st) = Ok r).
Proof.
  assert (Hins : forall (m : gmap string (list nat)),
            entries_nonempty m ->
            entries_nonempty (<[t := default [] (m !! t) ++ [w]]> m)).
  { intros m Hm k e. destruct (decide (t = k)) as [->|Hne].
    - rewrite lookup_insert_eq. intros [= <-].
      now destruct (default [] (m !! k)).
    - rewrite lookup_insert_ne by assumption. apply Hm. }
  split; [|split].
  - apply Hins.
  - apply Hins.
  - intros Hne ty pl u Hu Hs Hh. unfold dispatch.
    rewrite (StoreInternalsFacts.bind_ok _ _ _ _ Hu), TreeFacts.bind_gets.
    destruct (_actions st !! to_string (type u)) as [entry|] eqn:He.
    + pose proof (Hne _ _ He) as Hentry.
      assert (Hcall : forall h s, exists r s' evs,
                wrappedActionHandler ah h (payload u) s = (Ok r, s', evs)).
      { intros h s. destruct (Hh h s) as (r & s' & evs & Hrun).
        rewrite wrappedActionHandler_run, Hrun. eauto. }
      destruct (forEach_from_returns _actionSubscribers
                  (fun f => do s <- gets state;
                            emit (ActionSubscriberCalled f (type u)
                                    (payload u) s) >>
                            asub f (type u) (payload u) s)
                  (fun s => entries_nonempty (_actions s)))
        with (remaining := length (_actionSubscribers st)) (k := 0) (s := st)
        as (st1 & evs1 & Hnotify & Hne1).
      { intros f s Hinv.
        destruct (Hs f (state s) s Hinv) as ([] & s' & evs & Hrun & Hinv').
        exists s'. eexists. rewrite TreeFacts.bind_gets. unfold bind, emit.
        rewrite Hrun. split; [reflexivity | exact Hinv']. }
      { exact Hne. }
      assert (Hnotify' : forEach _actionSubscribers
                (fun f => do s <- gets state;
                          emit (ActionSubscriberCalled f (type u)
                                  (payload u) s) >>
                          asub f (type u) (payload u) s) st
              = (Ok tt, st1, evs1)).
      { unfold forEach. now rewrite TreeFacts.bind_gets. }
      unfold bind at 1. rewrite Hnotify'. rewrite TreeFacts.bind_gets.
      assert (Hentry' : default entry (_actions st1 !! to_string (type u))
                        <> []).
      { destruct (_actions st1 !! to_string (type u)) as [entry'|] eqn:He';
          [exact (Hne1 _ _ He') | exact Hentry]. }
      destruct (default entry (_actions st1 !! to_string (type u)))
        as [|h [|h' entry']]; [congruence| |];
        cbn [length Nat.ltb Nat.leb].
      * destruct (Hcall h st1) as (r & s' & evs & ->). now exists r.
      * assert (Hloop : forall l s, exists rs s' evs,
                  map_m l (fun h => wrappedActionHandler ah h (payload u)) s
                  = (Ok rs, s', evs)).
        { induction l as [|x l IH]; intros s; [now exists [], s, []|].
          destruct (Hcall x s) as (r & s1 & evs & Hx).
          destruct (IH s1) as (rs & s2 & evs2 & Hl).
          exists (r :: rs), s2. eexists. rewrite StoreFacts.map_m_cons.
          erewrite bind_run; [|exact Hx|].
          2:{ erewrite bind_run; [|exact Hl|reflexivity]. reflexivity. }
          reflexivity. }
        destruct (Hloop (h :: h' :: entry') st1) as (rs & s' & evs & Hrun).
        unfold bind, ret. rewrite Hrun. eexists. reflexivity.
    + unfold bind, when, emit, ret. destruct production; eexists; reflexivity.
Qed.

Lemma entries_stay_nonempty_dispatch_returns_witness :
  exists r,
    result (dispatch false Samples.live_action Samples.leaving_subscriber
              (VStr "load") VUndef Samples.sample_store) = Ok r.
Proof.
  refine (proj2 (proj2 (entries_stay_nonempty_dispatch_returns false
                          Samples.live_action Samples.leaving_subscriber
                          "load" 1 Samples.sample_store))
            _ (VStr "load") VUndef
            {| type := VStr "load"; payload := VUndef; options := VUndef |}
            eq_refl _ _).
  - intros k e. change (_actions Samples.sample_store)
      with (<["sync" := [2; 3; 4]]>
              ({["load" := [1]]} : gmap string (list nat))).
    destruct (decide ("sync" = k)) as [<-|Hs].
    + rewrite lookup_insert_eq. intros [= <-]. discriminate.
    + rewrite lookup_insert_ne by assumption.
      destruct (decide ("load" = k)) as [<-|Hl].
      * rewrite lookup_singleton_eq. intros [= <-]. discriminate.
      * rewrite lookup_singleton_ne by assumption. discriminate.
  - intros f seen s Hinv. unfold Samples.leaving_subscriber.
    destruct (Nat.eqb f 20); eexists tt, _, _; (split; [reflexivity|]);
      [|exact Hinv].
    cbv zeta. destruct (-1 <? indexOf 20 (_subscribers s))%Z; exact Hinv.
  - intros h s. destruct (returning_leaves Samples.sample_action h VUndef s)
      as (r & s' & Hrun & _).
    now exists r, s', [].
Defined.

(** *** Subscriptions and [commit] *)

Section Notify.

Variable production : bool.
Variable mh : nat -> value -> M Store unit.
Variable sub : nat -> value -> value -> value -> M Store unit.

(** With callbacks that leave the subscriber list alone, the calls of a
    subscriber during a [commit] of a registered type are its occurrences
    in the subscriber list. *)
Lemma commit_notifications (fn : nat) (t : string) (pl op : value)
  (st : Store) (entry : list nat) :
  _mutations st !! t = Some entry ->
  (forall h, h ∈ entry ->
     leaves_alone (fun s => (_committing s, _subscribers s)) (mh h pl)) ->
  (forall f seen, f ∈ _subscribers st ->
     leaves_alone (fun s => (_subscribers s, state s))
       (sub f (VStr t) pl seen)) ->
  length (List.filter (notifies fn)
            (events (commit production mh sub (VStr t) pl op st)))
  = length (List.filter (fun f => Nat.eqb f fn) (_subscribers st)).
Proof.
  intros Hentry Hh Hs.
  destruct (live_commit_run production mh sub (VStr t) pl op st
              {| type := VStr t; payload := pl; options := op |} entry
              (StoreInternalsFacts.unify_string production t pl op st)
              Hentry Hh Hs) as (_ & st' & Hrun & _).
  rewrite Hrun. cbn [events snd type payload].
  rewrite !List.filter_app, !List.length_app.
  assert (H1 : List.filter (notifies fn)
                 (List.map (fun h => MutationCalled h pl true) entry) = []).
  { clear. induction entry as [|h entry IH]; [reflexivity | exact IH]. }
  assert (H3 : List.filter (notifies fn)
                 (silent_warning production
                    {| type := VStr t; payload := pl; options := op |}) = []).
  { unfold silent_warning. now destruct (_ && _). }
  rewrite H1, H3. cbn [length Nat.add]. rewrite Nat.add_0_r.
  generalize (state (final (_withCommit
                (for_each entry (fun h => wrappedMutationHandler mh h pl))
                st))) as s'.
  generalize (_subscribers st) as subs. clear. intros subs s'.
  induction subs as [|f subs IH]; [reflexivity|].
  cbn [List.map List.filter notifies].
  destruct (Nat.eqb f fn); cbn [length]; now rewrite IH.
Qed.

(** X9.  However often a callback is subscribed, a [commit] of a
    registered type calls it once, when the handlers and the subscribers
    return, call nothing and leave the subscriber list alone (the handlers
    the flag and the subscribers the state as well). *)
Theorem subscribed_twice_notified_once (fn : nat) (t : string)
  (pl op : value) (st : Store) (entry : list nat) :
  NoDup (_subscribers st) ->
  _mutations st !! t = Some entry ->
  (forall h, h ∈ entry ->
     leaves_alone (fun s => (_committing s, _subscribers s)) (mh h pl)) ->
  (forall f seen,
     leaves_alone (fun s => (_subscribers s, state s))
       (sub f (VStr t) pl seen)) ->
  let st' := final (subscribe fn (final (subscribe fn st))) in
  length (List.filter (notifies fn)
            (events (commit production mh sub (VStr t) pl op st'))) = 1.
Proof.
  intros Hnd Hentry Hh Hs st'.
  destruct (SubscribeFacts.genericSubscribe_contract _subscribers
              set_subscribers (fun l s => eq_refl) fn st)
    as (u1 & _ & _ & Hin1 & Hout1 & Hnd1 & _).
  fold (subscribe fn st) in Hin1, Hout1, Hnd1.
  set (st1 := final (subscribe fn st)) in *.
  assert (Hmem : fn ∈ _subscribers st1).
  { destruct (decide (fn ∈ _subscribers st)) as [Hin|Hout].
    - subst st1. now rewrite (Hin1 Hin).
    - subst st1. rewrite (Hout1 Hout). cbn. apply elem_of_app. right. now left. }
  assert (Hm1 : _mutations st1 = _mutations st).
  { destruct (decide (fn ∈ _subscribers st)) as [Hin|Hout]; subst st1.
    - now rewrite (Hin1 Hin).
    - now rewrite (Hout1 Hout). }
  destruct (SubscribeFacts.genericSubscribe_contract _subscribers
              set_subscribers (fun l s => eq_refl) fn st1)
    as (u2 & _ & _ & Hin2 & _).
  fold (subscribe fn st1) in Hin2.
  subst st'. rewrite (Hin2 Hmem).
  rewrite (commit_notifications fn t pl op st1 entry);
    [|now rewrite Hm1|exact Hh|intros f seen _; apply Hs].
  rewrite (StoreInternalsFacts.count_occurrences fn _ (Hnd1 Hnd)).
  now rewrite bool_decide_eq_true_2.
Qed.

(** X10.  After the closure that [subscribe] returned has been called, a
    [commit] does not call the callback any more, and calls every other
    subscriber as before, when the handlers and the subscribers return,
    call nothing and leave the subscriber list alone (the handlers the
    flag and the subscribers the state as well). *)
Theorem unsubscribed_not_notified (fn : nat) (t : string) (pl op : value)
  (st : Store) (entry : list nat) (unsubscribe : M Store unit) :
  NoDup (_subscribers st) ->
  _mutations st !! t = Some entry ->
  (forall h, h ∈ entry ->
     leaves_alone (fun s => (_committing s, _subscribers s)) (mh h pl)) ->
  (forall f seen,
     leaves_alone (fun s => (_subscribers s, state s))
       (sub f (VStr t) pl seen)) ->
  result (subscribe fn st) = Ok unsubscribe ->
  let st' := final (unsubscribe (final (subscribe fn st))) in
  length (List.filter (notifies fn)
            (events (commit production mh sub (VStr t) pl op st'))) = 0 /\
  forall other, other <> fn -> other ∈ _subscribers st ->
    length (List.filter (notifies other)
              (events (commit production mh sub (VStr t) pl op st'))) = 1.
Proof.
  intros Hnd Hentry Hh Hs Hres st'.
  destruct (SubscribeFacts.genericSubscribe_contract _subscribers
              set_subscribers (fun l s => eq_refl) fn st)
    as (u & Hu & _ & Hin1 & Hout1 & Hnd1 & Hun).
  fold (subscribe fn st) in Hu, Hin1, Hout1, Hnd1.
  rewrite Hu in Hres. injection Hres as <-.
  set (st1 := final (subscribe fn st)) in *.
  assert (Hmem : fn ∈ _subscribers st1).
  { destruct (decide (fn ∈ _subscribers st)) as [Hin|Hout]; subst st1.
    - now rewrite (Hin1 Hin).
    - rewrite (Hout1 Hout). cbn. apply elem_of_app. right. now left. }
  assert (Hkeep : _mutations st1 = _mutations st /\
                  forall x, x ∈ _subscribers st -> x ∈ _subscribers st1).
  { destruct (decide (fn ∈ _subscribers st)) as [Hin|Hout]; subst st1.
    - rewrite (Hin1 Hin). now split.
    - rewrite (Hout1 Hout). split; [reflexivity|].
      intros x Hx. cbn. apply elem_of_app. now left. }
  destruct Hkeep as [Hm1 Hsub1].
  destruct (Hun st1) as (_ & _ & _ & Hremove & Hafter).
  destruct (SubscribeFacts.elem_of_first_split _ _ Hmem)
    as (l1 & l2 & Hsplit & Hl1).
  specialize (Hremove _ _ Hsplit Hl1).
  destruct (Hafter (Hnd1 Hnd)) as (Hnd2 & Hgone & _).
  fold st' in Hremove, Hnd2, Hgone.
  assert (Hm2 : _mutations st' !! t = Some entry)
    by (rewrite Hremove; cbn [_mutations set_subscribers]; now rewrite Hm1).
  assert (Hs' : forall f seen, f ∈ _subscribers st' ->
            leaves_alone (fun s => (_subscribers s, state s))
              (sub f (VStr t) pl seen))
    by (intros f seen _; apply Hs).
  split.
  - rewrite (commit_notifications fn t pl op st' entry Hm2 Hh Hs').
    rewrite (StoreInternalsFacts.count_occurrences fn _ Hnd2).
    now rewrite bool_decide_eq_false_2.
  - intros other Hne Hother.
    rewrite (commit_notifications other t pl op st' entry Hm2 Hh Hs').
    rewrite (StoreInternalsFacts.count_occurrences other _ Hnd2).
    rewrite bool_decide_eq_true_2; [reflexivity|].
    rewrite Hremove. cbn [_subscribers set_subscribers].
    specialize (Hsub1 _ Hother).
    rewrite Hsplit in Hsub1.
    apply elem_of_app in Hsub1 as [H|H]; apply elem_of_app; [now left|].
    apply elem_of_cons in H as [->|H]; [congruence | now right].
Qed.

(** X25.  The subscribers are notified by a [forEach] on the list that
    [unsubscribe] splices: when the first subscriber unsubscribes itself
    while it is notified, the second one is not called by this [commit];
    the subscribers after it are, and the list afterwards is the former
    one without the first subscriber. *)
Theorem unsubscribing_subscriber_skips_next (ty pl op : value) (st : Store)
  (u : unified) (entry : list nat) (a b : nat) (rest : list nat)
  (unsubscribe : M Store unit) :
  unifyObjectStyle production ty pl op st = (Ok u, st, []) ->
  _mutations st !! to_string (type u) = Some entry ->
  (forall h, h ∈ entry ->
     leaves_alone (fun s => (_committing s, _subscribers s))
       (mh h (payload u))) ->
  _subscribers st = a :: b :: rest ->
  result (subscribe a st) = Ok unsubscribe ->
  (forall seen, sub a (type u) (payload u) seen = unsubscribe) ->
  (forall f seen, f ∈ rest ->
     leaves_alone (fun s => (_subscribers s, state s))
       (sub f (type u) (payload u) seen)) ->
  let handled :=
    final (_withCommit
             (for_each entry (fun h =>
                wrappedMutationHandler mh h (payload u))) st) in
  exists st',
    commit production mh sub ty pl op st =
      (Ok tt, st',
       List.map (fun h => MutationCalled h (payload u) true) entry
       ++ SubscriberCalled a (type u) (payload u) (state handled)
       :: List.map (fun f => SubscriberCalled f (type u) (payload u)
                               (state handled)) rest
       ++ silent_warning production u) /\
    _subscribers st' = b :: rest.
Proof.
  intros Hu Hentry Hh Hsubs Hres Ha Hrest handled.
  destruct (withCommit_loop mh (payload u) entry st Hh)
    as (st1 & Hloop & _ & Hsubs1).
  assert (Hhandled : handled = st1) by (subst handled; now rewrite Hloop).
  rewrite Hhandled. rewrite Hsubs in Hsubs1.
  assert (Hun : unsubscribe st1
                = (Ok tt, set_subscribers (b :: rest) st1, [])).
  { unfold subscribe, genericSubscribe, bind, modify, ret, result in Hres.
    cbn [fst] in Hres. injection Hres as <-.
    rewrite Hsubs1. cbn [indexOf]. rewrite Nat.eqb_refl. reflexivity. }
  set (body := fun f => do s <- gets state;
                 emit (SubscriberCalled f (type u) (payload u) s) >>
                 sub f (type u) (payload u) s).
  assert (Hfirst : body a st1
                   = (Ok tt, set_subscribers (b :: rest) st1,
                      [SubscriberCalled a (type u) (payload u) (state st1)])).
  { unfold body. rewrite TreeFacts.bind_gets. unfold bind, emit.
    now rewrite Ha, Hun. }
  destruct (forEach_from_quiet _subscribers state body
              (fun f seen => SubscriberCalled f (type u) (payload u) seen)
              (b :: rest) (S (length rest)) 1
              (set_subscribers (b :: rest) st1) eq_refl)
    as (st2 & Hnotify & Hsubs2 & Hstate2).
  { intros f Hf s0. cbn [drop] in Hf.
    rewrite drop_0, take_ge in Hf by lia.
    destruct (Hrest f (state s0) Hf s0) as ([] & s' & Hrun & Hkeep).
    injection Hkeep as Hk1 Hk2.
    exists s'. unfold body. rewrite TreeFacts.bind_gets. unfold bind, emit.
    rewrite Hrun. auto. }
  cbn [drop state set_subscribers] in Hnotify.
  rewrite drop_0, take_ge in Hnotify by lia.
  assert (Hall : forEach _subscribers body st1
                 = (Ok tt, st2,
                    SubscriberCalled a (type u) (payload u) (state st1)
                    :: List.map (fun f => SubscriberCalled f (type u)
                                            (payload u) (state st1)) rest)).
  { unfold forEach. rewrite TreeFacts.bind_gets, Hsubs1.
    cbn [length]. rewrite forEach_from_S, Hsubs1. cbn [lookup list_lookup].
    now rewrite (bind_run _ _ _ _ _ _ _ _ _ Hfirst Hnotify). }
  exists st2. split; [|exact Hsubs2].
  unfold commit.
  erewrite bind_run; [|exact Hu|].
  2:{ rewrite TreeFacts.bind_gets, Hentry.
      erewrite bind_run; [|exact Hloop|].
      2:{ erewrite bind_run; [|exact Hall|].
          2:{ unfold when, emit, ret.
              instantiate (1 := silent_warning production u).
              instantiate (1 := st2).
              instantiate (1 := Ok tt). unfold silent_warning.
              destruct (negb production && truthy (options u)
                        && truthy (get_field "silent" (options u)));
                reflexivity. }
          reflexivity. }
      reflexivity. }
  reflexivity.
Qed.

(** X27.  The length of the subscriber list is read once, before the
    notification: a callback that the first subscriber subscribes while it
    is notified is in the list afterwards, and is not called by this
    [commit]. *)
Theorem subscribed_during_commit_not_notified (ty pl op : value) (st : Store)
  (u : unified) (entry : list nat) (a fn : nat) (rest : list nat) :
  unifyObjectStyle production ty pl op st = (Ok u, st, []) ->
  _mutations st !! to_string (type u) = Some entry ->
  (forall h, h ∈ entry ->
     leaves_alone (fun s => (_committing s, _subscribers s))
       (mh h (payload u))) ->
  _subscribers st = a :: rest ->
  fn ∉ a :: rest ->
  (forall seen, sub a (type u) (payload u) seen = (subscribe fn >> ret tt)) ->
  (forall f seen, f ∈ rest ->
     leaves_alone (fun s => (_subscribers s, state s))
       (sub f (type u) (payload u) seen)) ->
  let handled :=
    final (_withCommit
             (for_each entry (fun h =>
                wrappedMutationHandler mh h (payload u))) st) in
  exists st',
    commit production mh sub ty pl op st =
      (Ok tt, st',
       List.map (fun h => MutationCalled h (payload u) true) entry
       ++ List.map (fun f => SubscriberCalled f (type u) (payload u)
                               (state handled)) (a :: rest)
       ++ silent_warning production u) /\
    _subscribers st' = a :: rest ++ [fn].
Proof.
  intros Hu Hentry Hh Hsubs Hnew Ha Hrest handled.
  destruct (withCommit_loop mh (payload u) entry st Hh)
    as (st1 & Hloop & _ & Hsubs1).
  assert (Hhandled : handled = st1) by (subst handled; now rewrite Hloop).
  rewrite Hhandled. rewrite Hsubs in Hsubs1.
  set (body := fun f => do s <- gets state;
                 emit (SubscriberCalled f (type u) (payload u) s) >>
                 sub f (type u) (payload u) s).
  assert (Hfirst : body a st1
                   = (Ok tt, set_subscribers (a :: rest ++ [fn]) st1,
                      [SubscriberCalled a (type u) (payload u) (state st1)])).
  { unfold body. rewrite TreeFacts.bind_gets. unfold bind at 1. unfold emit at 1.
    rewrite Ha. unfold subscribe, genericSubscribe, bind, modify, ret.
    rewrite Hsubs1, (SubscribeFacts.indexOf_absent _ _ Hnew). reflexivity. }
  destruct (forEach_from_quiet _subscribers state body
              (fun f seen => SubscriberCalled f (type u) (payload u) seen)
              (a :: rest ++ [fn]) (length rest) 1
              (set_subscribers (a :: rest ++ [fn]) st1) eq_refl)
    as (st2 & Hnotify & Hsubs2 & Hstate2).
  { intros f Hf s0. cbn [drop] in Hf.
    rewrite drop_0, take_app_length in Hf.
    destruct (Hrest f (state s0) Hf s0) as ([] & s' & Hrun & Hkeep).
    injection Hkeep as Hk1 Hk2.
    exists s'. unfold body. rewrite TreeFacts.bind_gets. unfold bind, emit.
    rewrite Hrun. auto. }
  cbn [drop state set_subscribers] in Hnotify.
  rewrite drop_0, take_app_length in Hnotify.
  assert (Hall : forEach _subscribers body st1
                 = (Ok tt, st2,
                    List.map (fun f => SubscriberCalled f (type u)
                                         (payload u) (state st1))
                      (a :: rest))).
  { unfold forEach. rewrite TreeFacts.bind_gets, Hsubs1.
    cbn [length]. rewrite forEach_from_S, Hsubs1. cbn [lookup list_lookup].
    now rewrite (bind_run _ _ _ _ _ _ _ _ _ Hfirst Hnotify). }
  exists st2. split; [|exact Hsubs2].
  unfold commit.
  erewrite bind_run; [|exact Hu|].
  2:{ rewrite TreeFacts.bind_gets, Hentry.
      erewrite bind_run; [|exact Hloop|].
      2:{ erewrite bind_run; [|exact Hall|].
          2:{ unfold when, emit, ret.
              instantiate (1 := silent_warning production u).
              instantiate (1 := st2).
              instantiate (1 := Ok tt). unfold silent_warning.
              destruct (negb production && truthy (options u)
                        && truthy (get_field "silent" (options u)));
                reflexivity. }
          reflexivity. }
      reflexivity. }
  reflexivity.
Qed.

End Notify.

Lemma subscribed_twice_notified_once_witness :
  length (List.filter (notifies 30)
            (events (commit false Samples.live_mutation observer
                       (VStr "increment") VUndef VUndef
                       (final (subscribe 30
                                 (final (subscribe 30
                                           Samples.sample_store))))))) = 1.
Proof.
  apply (subscribed_twice_notified_once false Samples.live_mutation observer
           30 "increment" VUndef VUndef Samples.sample_store [1; 2]).
  - apply (bool_decide_unpack _). vm_compute. exact I.
  - vm_compute. reflexivity.
  - intros h _. apply on_state_leaves.
  - intros f seen. apply observer_leaves.
Defined.

Lemma unsubscribed_not_notified_witness :
  exists unsubscribe,
    result (subscribe 20 Samples.sample_store) = Ok unsubscribe /\
    length (List.filter (notifies 20)
              (events (commit false Samples.live_mutation observer
                         (VStr "increment") VUndef VUndef
                         (final (unsubscribe
                                   (final (subscribe 20
                                             Samples.sample_store)))))))
    = 0.
Proof.
  eexists. split; [reflexivity|].
  refine (proj1 (unsubscribed_not_notified false Samples.live_mutation
                   observer 20 "increment" VUndef VUndef Samples.sample_store
                   [1; 2] _ _ _ _ _ eq_refl)).
  - apply (bool_decide_unpack _). vm_compute. exact I.
  - vm_compute. reflexivity.
  - intros h _. apply on_state_leaves.
  - intros f seen. apply observer_leaves.
Defined.

(** [commit('increment', 5)] on the sample store when subscriber 20
    unsubscribes itself: subscriber 21 is not called. *)
Lemma unsubscribing_subscriber_skips_next_witness :
  exists st',
    commit false Samples.live_mutation Samples.leaving_subscriber
      (VStr "increment") (VNum 5) VUndef Samples.sample_store =
      (Ok tt, st',
       [MutationCalled 1 (VNum 5) true; MutationCalled 2 (VNum 5) true;
        SubscriberCalled 20 (VStr "increment") (VNum 5)
          (VObj [("count", VNum 15)])]) /\
    _subscribers st' = [21].
Proof.
  destruct (unsubscribing_subscriber_skips_next false Samples.live_mutation
              Samples.leaving_subscriber (VStr "increment") (VNum 5) VUndef
              Samples.sample_store
              {| type := VStr "increment"; payload := VNum 5;
                 options := VUndef |}
              [1; 2] 20 21 [] Samples.unsubscribe_20 eq_refl)
    as (st' & Hrun & Hsubs).
  - vm_compute. reflexivity.
  - intros h _. apply on_state_leaves.
  - reflexivity.
  - reflexivity.
  - reflexivity.
  - intros f seen Hf. now apply elem_of_nil in Hf.
  - exists st'. split; [|exact Hsubs]. rewrite Hrun. vm_compute. reflexivity.
Defined.


(** *** The callbacks of [Store]

    With handlers that compute on the state tree and subscribers that only
    observe, [commit] and [dispatch] are the methods of [Store]: what is
    proved there holds of the methods here for such callbacks. *)

Lemma bind_agree {S A B : Type} (m1 m2 : M S A) (k1 k2 : A -> M S B) (s : S) :
  m1 s = m2 s -> (forall a s', k1 a s' = k2 a s') ->
  bind m1 k1 s = bind m2 k2 s.
Proof.
  intros Hm Hk. unfold bind. rewrite Hm.
  destruct (m2 s) as [[[a|e] s1] l1]; [|reflexivity]. now rewrite Hk.
Qed.

Lemma forEach_observers (read : Store -> list nat) (ev : nat -> value -> event)
  (s : Store) :
  forEach read (fun f => do seen <- gets state; emit (ev f seen) >> ret tt) s
  = (do subs <- gets read;
     for_each subs (fun f => do seen <- gets state; emit (ev f seen))) s.
Proof.
  destruct (forEach_quiet read (fun s => s)
              (fun f => do seen <- gets state; emit (ev f seen) >> ret tt)
              (fun f s => ev f (state s)) s) as (s' & Hrun & _ & ->).
  { intros f _ s0. now exists s0. }
  rewrite Hrun, TreeFacts.bind_gets. clear.
  generalize (read s) as subs. intros subs.
  induction subs as [|f subs IH]; [reflexivity|].
  rewrite for_each_cons. cbn [List.map].
  symmetry. erewrite bind_run; [|reflexivity|symmetry; exact IH].
  reflexivity.
Qed.

Lemma commit_of_store (production : bool)
  (mh : nat -> value -> value -> value) (ty pl op : value) (st : Store) :
  commit production (on_state mh) observer ty pl op st
  = Store.commit production mh ty pl op st.
Proof.
  unfold commit, Store.commit.
  apply bind_agree; [reflexivity|]. intros u s.
  rewrite !TreeFacts.bind_gets.
  destruct (_mutations s !! to_string (type u)) as [entry|]; [|reflexivity].
  apply bind_agree; [reflexivity|]. intros [] s1.
  apply bind_agree; [|reflexivity].
  apply (forEach_observers _subscribers
           (fun f seen => SubscriberCalled f (type u) (payload u) seen)).
Qed.

Lemma dispatch_of_store (production : bool)
  (ah : nat -> value -> value -> returned * value) (ty pl : value)
  (st : Store) :
  dispatch production (returning ah) observer ty pl st
  = Store.dispatch production ah ty pl st.
Proof.
  unfold dispatch, Store.dispatch.
  apply bind_agree; [reflexivity|]. intros u s.
  rewrite !TreeFacts.bind_gets.
  destruct (_actions s !! to_string (type u)) as [entry|] eqn:He;
    [|reflexivity].
  destruct (forEach_quiet _actionSubscribers (fun s => s)
              (fun f => do seen <- gets state;
                        emit (ActionSubscriberCalled f (type u) (payload u)
                                seen) >> ret tt)
              (fun f s => ActionSubscriberCalled f (type u) (payload u)
                            (state s)) s) as (s' & Hrun & _ & ->).
  { intros f _ s0. now exists s0. }
  pose proof (forEach_observers _actionSubscribers
                (fun f seen =>
                   ActionSubscriberCalled f (type u) (payload u) seen) s)
    as Hloop.
  cbv beta in Hloop. rewrite Hrun in Hloop.
  destruct ((if Nat.ltb 1 (length entry)
             then
               do rs <- map_m entry (fun handler =>
                          Store.wrappedActionHandler ah handler (payload u));
               ret (Thenable (Promise_all rs))
             else
               match entry with
               | handler :: _ =>
                   Store.wrappedActionHandler ah handler (payload u)
               | [] => throw TypeError
               end) s) as [[r s2] l2] eqn:Hcall.
  erewrite bind_run; [|exact Hrun|].
  2:{ rewrite TreeFacts.bind_gets, He. exact Hcall. }
  symmetry. erewrite bind_run; [reflexivity|symmetry; exact Hloop|exact Hcall].
Qed.

(** [commit('increment', 5)] on the sample store when subscriber 20
    subscribes the callback 30: the subscribers 20 and 21 are called, 30 is
    not, and is in the list afterwards. *)
Lemma subscribed_during_commit_not_notified_witness :
  exists st',
    commit false Samples.live_mutation Samples.recruiting_subscriber
      (VStr "increment") (VNum 5) VUndef Samples.sample_store =
      (Ok tt, st',
       [MutationCalled 1 (VNum 5) true; MutationCalled 2 (VNum 5) true;
        SubscriberCalled 20 (VStr "increment") (VNum 5)
          (VObj [("count", VNum 15)]);
        SubscriberCalled 21 (VStr "increment") (VNum 5)
          (VObj [("count", VNum 15)])]) /\
    _subscribers st' = [20; 21; 30].
Proof.
  destruct (subscribed_during_commit_not_notified false Samples.live_mutation
              Samples.recruiting_subscriber (VStr "increment") (VNum 5) VUndef
              Samples.sample_store
              {| type := VStr "increment"; payload := VNum 5;
                 options := VUndef |}
              [1; 2] 20 30 [21] eq_refl)
    as (st' & Hrun & Hsubs).
  - vm_compute. reflexivity.
  - intros h _. apply on_state_leaves.
  - reflexivity.
  - apply (bool_decide_unpack _). vm_compute. exact I.
  - reflexivity.
  - intros f seen Hf. apply list_elem_of_singleton in Hf as ->.
    intros s. now exists tt, s.
  - exists st'. split; [|exact Hsubs]. rewrite Hrun. vm_compute. reflexivity.
Defined.

End LiveStoreFacts.
